(** * Multiband equalizer: a shallow embedding of SignalProcessingMultiBandEQ.py

    The Python module holds [normalize_waveform] and the class
    [SignalProcessingMultibandEQ] with its dispatcher [process] and the three
    strategies [process_rfft], [process_hann] and [process_subcomp].

    Conventions of the embedding.
    - Floating-point samples, gains and frequencies are real numbers ([R]);
      rounding and the IEEE values inf and NaN are outside the model.
      Python's [10 ** x] is [Rpower 10 x], [torch.log10] is [ln x / ln 10].
    - A tensor is a shape with row-major (contiguous) storage.  Spectra are
      kept as nested lists, one inner list per tensor axis.
    - A Python exception is a value of [exn]; each strategy runs in the
      monad [M], which also records the calls to torch's transforms.
    - torch's operators follow the PyTorch documentation: shapes, argument
      checks and the defining sums of the discrete Fourier transform. *)

From Stdlib Require Import String Ascii DecimalString.
From Stdlib Require Import Reals Lra Lia Arith Bool List.
Import ListNotations.
Open Scope R_scope.

(* ===================================================================== *)
(** ** Complex numbers, as torch's complex tensors hold them *)
(* ===================================================================== *)

Module Cplx.

Definition C : Type := (R * R)%type.

Definition Czero : C := (0, 0).
Definition Cone : C := (1, 0).

Definition Cmul (a b : C) : C :=
  (fst a * fst b - snd a * snd b, fst a * snd b + snd a * fst b).

(** A complex value times a real scalar or a real tensor element. *)
Definition Cscale (z : C) (r : R) : C := (fst z * r, snd z * r).

Definition Cconj (z : C) : C := (fst z, - snd z).

(** [torch.abs] on a complex tensor. *)
Definition Cabs (z : C) : R := sqrt (fst z * fst z + snd z * snd z).

(** [atan2 y x], the angle of the point [(x, y)]. *)
Definition atan2 (y x : R) : R :=
  if Rlt_dec 0 x then atan (y / x)
  else if Rlt_dec x 0 then
         if Rle_dec 0 y then atan (y / x) + PI else atan (y / x) - PI
       else if Rlt_dec 0 y then PI / 2
            else if Rlt_dec y 0 then - (PI / 2) else 0.

(** [torch.angle]. *)
Definition Cangle (z : C) : R := atan2 (snd z) (fst z).

(** [torch.exp(1j * phi)]. *)
Definition Cexp_i (phi : R) : C := (cos phi, sin phi).

End Cplx.
Import Cplx.

(* ===================================================================== *)
(** ** Exceptions, results, and the monad of a strategy run *)
(* ===================================================================== *)

Inductive exn : Type :=
| ValueError (msg : string)
| TypeError (msg : string)
| RuntimeError (msg : string).

(** The name of the exception's Python class. *)
Definition exn_class (e : exn) : string :=
  match e with
  | ValueError _ => "ValueError"
  | TypeError _ => "TypeError"
  | RuntimeError _ => "RuntimeError"
  end.

Inductive result (A : Type) : Type :=
| Ok (a : A)
| Raise (e : exn).
Arguments Ok {A} a.
Arguments Raise {A} e.

(** The calls into torch's transforms, in the order they are made. *)
Inductive event : Type := EvRfft | EvIrfft | EvStft | EvIstft.

(** A run yields the log of transform calls and a value or an exception. *)
Definition M (A : Type) : Type := (list event * result A)%type.

Definition ret {A} (a : A) : M A := ([], Ok a).
Definition raise {A} (e : exn) : M A := ([], Raise e).
Definition tell (ev : event) : M unit := ([ev], Ok tt).
Definition lift {A} (r : result A) : M A := ([], r).

Definition bind {A B} (m : M A) (f : A -> M B) : M B :=
  match m with
  | (t, Ok a) => let (t', r) := f a in (t ++ t', r)
  | (t, Raise e) => (t, Raise e)
  end.

Declare Scope eq_monad_scope.
Delimit Scope eq_monad_scope with eqm.
Notation "x <- m ;; k" := (bind m (fun x => k))
  (at level 61, m at next level, right associativity) : eq_monad_scope.
Notation "m ;;; k" := (bind m (fun _ => k))
  (at level 61, right associativity) : eq_monad_scope.

Definition trace {A} (m : M A) : list event := fst m.
Definition outcome {A} (m : M A) : result A := snd m.

(* ===================================================================== *)
(** ** Tensors *)
(* ===================================================================== *)

Record tensor : Type := mkTensor { shape : list nat; data : list R }.

Definition numel (s : list nat) : nat := fold_right Nat.mul 1%nat s.

(** Storage and shape agree. *)
Definition wf_tensor (t : tensor) : Prop := length (data t) = numel (shape t).

(** Truncating zip-with: elementwise operations on equal-length axes. *)
Fixpoint map2 {A B D} (f : A -> B -> D) (l : list A) (l' : list B) : list D :=
  match l, l' with
  | a :: t, b :: t' => f a b :: map2 f t t'
  | _, _ => []
  end.

(** Row [i] of a buffer seen as rows of [n] samples. *)
Definition row (n : nat) (d : list R) (i : nat) : list R :=
  firstn n (skipn (i * n) d).

Definition rows (n count : nat) (d : list R) : list (list R) :=
  map (row n d) (seq 0 count).

(** [torch.max(torch.abs(w))]: torch refuses to reduce an empty tensor. *)
Definition max_abs (d : list R) : result R :=
  match d with
  | [] => Raise (RuntimeError
            "max(): Expected reduction dim to be specified for input.numel() == 0.")
  | x :: t => Ok (fold_left Rmax (map Rabs t) (Rabs x))
  end.

(** [waveform / max_val], elementwise. *)
Definition tensor_div (w : tensor) (d : R) : tensor :=
  mkTensor (shape w) (map (fun x => x / d) (data w)).

(** [normalize_waveform] (lines 4-17). *)
Definition normalize_waveform (w : tensor) : result tensor :=
  match max_abs (data w) with
  | Raise e => Raise e
  | Ok max_val => Ok (if Rlt_dec 1 max_val then tensor_div w max_val else w)
  end.

(** Peak amplitude at most [1]: every sample lies in [[-1, 1]]. *)
Definition peak_le_1 (w : tensor) : Prop :=
  Forall (fun x => Rabs x <= 1) (data w).

(* ===================================================================== *)
(** ** The discrete Fourier transform behind torch.fft and torch.stft *)
(* ===================================================================== *)

(** [sum_n n f] is the sum of [f 0], ..., [f (n - 1)]. *)
Fixpoint sum_n (n : nat) (f : nat -> R) : R :=
  match n with
  | O => 0
  | S k => sum_n k f + f k
  end.

Module Dft.

(** The angle [2 pi k n / N]. *)
Definition theta (N k n : nat) : R := 2 * PI * INR k * INR n / INR N.

(** Coefficient [k] of the one-sided transform of a real row:
    the sum over [n] of [x_n * exp (- i * theta N k n)]. *)
Definition rfft_coef (x : list R) (k : nat) : C :=
  let N := length x in
  (sum_n N (fun n => nth n x 0 * cos (theta N k n)),
   - sum_n N (fun n => nth n x 0 * sin (theta N k n))).

(** [torch.fft.rfft] of one row: bins [0 .. N/2]. *)
Definition rfft_row (x : list R) : list C :=
  map (rfft_coef x) (seq 0 (length x / 2 + 1)).

(** The two-sided spectrum that a one-sided spectrum [X] stands for when the
    signal has [N] samples: bins past [N/2] are conjugates of their mirror
    image; missing bins read as zero. *)
Definition hermitian_full (N : nat) (X : list C) (j : nat) : C :=
  if (j <=? N / 2)%nat then nth j X Czero
  else Cconj (nth (N - j) X Czero).

(** Sample [m] of the inverse transform of length [N]; the complex-to-real
    transform keeps the real part of each term. *)
Definition irfft_sample (N : nat) (X : list C) (m : nat) : R :=
  / INR N *
  sum_n N (fun j => fst (Cmul (hermitian_full N X j) (Cexp_i (theta N j m)))).

(** [torch.fft.irfft(X, n=N)] of one row. *)
Definition irfft_row (N : nat) (X : list C) : list R :=
  map (irfft_sample N X) (seq 0 N).

End Dft.

(* ===================================================================== *)
(** ** torch operators used by the strategies *)
(* ===================================================================== *)

Module Torch.

(** [torch.fft.rfft(waveform, dim=-1)] on rows of [n] samples. *)
Definition fft_rfft (n : nat) (rws : list (list R)) : M (list (list C)) :=
  (tell EvRfft ;;;
   if (n =? 0)%nat
   then raise (RuntimeError "Invalid number of data points (0) specified")
   else ret (map Dft.rfft_row rws))%eqm.

(** [torch.fft.irfft(spec, n=n, dim=-1)]. *)
Definition fft_irfft (n : nat) (spec : list (list C)) : M (list (list R)) :=
  (tell EvIrfft ;;;
   if (n =? 0)%nat
   then raise (RuntimeError "Invalid number of data points (0) specified")
   else ret (map (Dft.irfft_row n) spec))%eqm.

(** [torch.linspace(a, b, steps)]; a single step yields [a]. *)
Definition linspace (a b : R) (steps : nat) : list R :=
  map (fun i => a + INR i * ((b - a) / INR (steps - 1))) (seq 0 steps).

(** [torch.hann_window(n, periodic=True)]. *)
Definition hann_window (n : nat) : list R :=
  map (fun j => / 2 - / 2 * cos (2 * PI * INR j / INR n)) (seq 0 n).

(** Reflect padding by [p] samples on both sides, the edge sample itself
    not repeated. *)
Definition reflect_pad (p : nat) (x : list R) : list R :=
  map (fun i => nth (p - i) x 0) (seq 0 p)
  ++ x
  ++ map (fun i => nth (length x - 2 - i) x 0) (seq 0 p).

(** Number of frames of a centred transform of [n] samples. *)
Definition stft_frames (n_fft hop n : nat) : nat :=
  (1 + (n + 2 * (n_fft / 2) - n_fft) / hop)%nat.

(** Frame [t] of a padded row, windowed. *)
Definition stft_frame (n_fft hop : nat) (window padded : list R) (t : nat)
  : list R :=
  map2 Rmult (firstn n_fft (skipn (t * hop) padded)) window.

(** [torch.stft(x, n_fft, hop_length, window, return_complex=True,
    center=True, pad_mode='reflect')] on rows of [n] samples: a field indexed
    [row][frequency bin][time frame] with [n_fft/2 + 1] bins.  The centred
    transform views its [rows x n] input as [1 x rows x n] and reflect-pads
    the last dimension; the padding refuses an input whose row dimension is
    empty, and a row no longer than the padding of [n_fft/2]. *)
Definition stft (n_fft hop : nat) (window : list R) (n : nat)
    (rws : list (list R)) : M (list (list (list C))) :=
  (tell EvStft ;;;
   match rws with
   | [] => raise (RuntimeError
       "Expected 2D or 3D (batch mode) tensor with possibly 0 batch size and other non-zero dimensions for input")
   | _ :: _ =>
       if (n_fft / 2 <? n)%nat
       then ret (map (fun x =>
                        let padded := reflect_pad (n_fft / 2) x in
                        map (fun k =>
                               map (fun t =>
                                      Dft.rfft_coef
                                        (stft_frame n_fft hop window padded t) k)
                                   (seq 0 (stft_frames n_fft hop n)))
                            (seq 0 (n_fft / 2 + 1)))
                     rws)
       else raise (RuntimeError
         "Padding size should be less than the corresponding input dimension")
   end)%eqm.

(** Overlap-add pieces of the inverse transform of one row. *)
Section Istft.
Variables (n_fft hop : nat) (window : list R) (spec : list (list C)).

Definition istft_nframes : nat := length (hd [] spec).

Definition istft_frame (t : nat) : list R :=
  map2 Rmult (Dft.irfft_row n_fft (map (fun bins => nth t bins Czero) spec))
       window.

Definition covers (t p : nat) : bool :=
  ((t * hop <=? p) && (p <? t * hop + n_fft))%nat.

Definition overlap_add (p : nat) : R :=
  sum_n istft_nframes
        (fun t => if covers t p then nth (p - t * hop) (istft_frame t) 0
                  else 0).

Definition window_envelope (p : nat) : R :=
  sum_n istft_nframes
        (fun t => if covers t p
                  then nth (p - t * hop) window 0 * nth (p - t * hop) window 0
                  else 0).

Definition istft_sample (i : nat) : R :=
  let p := (n_fft / 2 + i)%nat in overlap_add p / window_envelope p.

End Istft.

(** [torch.istft(spec, n_fft, hop_length, window, length=n, center=True)]:
    rows of exactly [n] samples.  (torch also checks that the window
    envelope does not vanish; the periodic Hann window at half-window hop
    passes that check.) *)
Definition istft (n_fft hop : nat) (window : list R) (n : nat)
    (spec : list (list (list C))) : M (list (list R)) :=
  (tell EvIstft ;;;
   ret (map (fun rspec => map (istft_sample n_fft hop window rspec) (seq 0 n))
            spec))%eqm.

(** [t.view(-1, n)]: the rows of a contiguous buffer. *)
Definition view_rows (t : tensor) (n : nat) : M (list (list R)) :=
  if (n =? 0)%nat
  then raise (RuntimeError "cannot reshape tensor of 0 elements")
  else if (length (data t) mod n =? 0)%nat
       then ret (rows n (length (data t) / n) (data t))
       else raise (RuntimeError "shape is invalid for input size").

(** [rows.view(b, c, n)] of a two-dimensional result. *)
Definition view3 (rws : list (list R)) (b c n : nat) : M tensor :=
  let d := concat rws in
  if (length d =? b * c * n)%nat
  then ret (mkTensor [b; c; n] d)
  else raise (RuntimeError "shape is invalid for input size").

End Torch.

(* ===================================================================== *)
(** ** class SignalProcessingMultibandEQ *)
(* ===================================================================== *)

(** What [audio_input.get('waveform')] can hold besides [None]. *)
Inductive pyobj : Type :=
| PyTensor (t : tensor)
| PyOther.

(** The [audio_input] dictionary as [.get] sees it: [None] stands for a
    missing key and for a key bound to [None]. *)
Record audio_input : Type := mkInput {
  in_waveform : option pyobj;
  in_sample_rate : option R
}.

(** The returned dictionary. *)
Record audio : Type := mkAudio { waveform : tensor; sample_rate : R }.

Inductive band : Type :=
| SubBass | Bass | LowMid | Mid | UpperMid | Presence | Brilliance.

Record gains : Type := mkGains {
  sub_bass_gain_db : R;
  bass_gain_db : R;
  low_mid_gain_db : R;
  mid_gain_db : R;
  upper_mid_gain_db : R;
  presence_gain_db : R;
  brilliance_gain_db : R
}.

Definition gain_db_of (g : gains) (b : band) : R :=
  match b with
  | SubBass => sub_bass_gain_db g
  | Bass => bass_gain_db g
  | LowMid => low_mid_gain_db g
  | Mid => mid_gain_db g
  | UpperMid => upper_mid_gain_db g
  | Presence => presence_gain_db g
  | Brilliance => brilliance_gain_db g
  end.

(** [10 ** (db / 20)]. *)
Definition db_to_linear (db : R) : R := Rpower 10 (db / 20).

Definition nat_to_string (n : nat) : string :=
  NilEmpty.string_of_uint (Nat.to_uint n).

Definition missing_msg : string :=
  "Input audio must contain 'waveform' and 'sample_rate'.".
Definition not_tensor_msg : string := "Waveform must be a torch.Tensor.".
Definition not_3d_msg : string :=
  "Waveform must be a 3D tensor with shape (batch, channels, samples).".
Definition channels_msg (channels : nat) : string :=
  ("Unsupported number of channels: " ++ nat_to_string channels
   ++ ". Only mono and stereo are supported.")%string.

(** The validated pieces of an input. *)
Record checked : Type := mkChecked {
  ck_waveform : tensor;
  ck_sample_rate : R;
  batch_size : nat;
  channels : nat;
  num_samples : nat
}.

(** The opening checks, textually the same in [process_rfft] (lines 89-104),
    [process_hann] (186-201) and [process_subcomp] (299-314). *)
Definition validate (audio_input : audio_input) : M checked :=
  match in_waveform audio_input, in_sample_rate audio_input with
  | Some obj, Some sr =>
      match obj with
      | PyOther => raise (TypeError not_tensor_msg)
      | PyTensor w =>
          match shape w with
          | [b; c; n] =>
              if ((c =? 1) || (c =? 2))%nat
              then ret (mkChecked w sr b c n)
              else raise (ValueError (channels_msg c))
          | _ => raise (ValueError not_3d_msg)
          end
      end
  | _, _ => raise (ValueError missing_msg)
  end.

(** [freq >= f_start], [freq < f_end], [freq <= f_end] as tensor masks. *)
Definition Rgeb (x y : R) : bool := if Rle_dec y x then true else false.
Definition Rltb (x y : R) : bool := if Rlt_dec x y then true else false.
Definition Rleb (x y : R) : bool := if Rle_dec x y then true else false.

(** [torch.ones_like] on the fields used here. *)
Definition ones_like2 {A} (f : list (list A)) : list (list C) :=
  map (map (fun _ => Cone)) f.
Definition ones_like3 {A} (f : list (list (list A))) : list (list (list C)) :=
  map (map (map (fun _ => Cone))) f.

(** Broadcast of a per-frequency vector over a field indexed
    [row][frequency][frame]: [field op v.unsqueeze(0).unsqueeze(2)]. *)
Definition map_freq {A B} (op : R -> A -> B) (v : list R)
    (field : list (list (list A))) : list (list (list B)) :=
  map (fun rw => map2 (fun vk frames => map (op vk) frames) v rw) field.

(** Elementwise product of two fields of the same shape. *)
Definition mul3 (x y : list (list (list C))) : list (list (list C)) :=
  map2 (map2 (map2 Cmul)) x y.

(** Entry [[r, k, t]] of a field. *)
Definition at3 {A} (d : A) (field : list (list (list A))) (r k t : nat) : A :=
  nth t (nth k (nth r field []) []) d.

(* --------------------------------------------------------------------- *)
(** *** process_rfft (lines 62-173) *)
(* --------------------------------------------------------------------- *)

Definition rfft_bands : list (band * (R * R)) :=
  [ (SubBass, (20, 60)); (Bass, (60, 250)); (LowMid, (250, 500));
    (Mid, (500, 2000)); (UpperMid, (2000, 4000)); (Presence, (4000, 6000));
    (Brilliance, (6000, 20000)) ].

(** [(freq_bins >= f_start) & (freq_bins < f_end)] at one bin. *)
Definition band_mask (f f_start f_end : R) : bool :=
  Rgeb f f_start && Rltb f f_end.

(** One turn of the loop: [gain_factors[:, :, mask] *= gain]. *)
Definition rfft_apply_band (freq_bins : list R) (gain : R) (rng : R * R)
    (gain_factors : list (list C)) : list (list C) :=
  map (fun gf_row =>
         map2 (fun f z => if band_mask f (fst rng) (snd rng)
                          then Cscale z gain else z)
              freq_bins gf_row)
      gain_factors.

(** The linear gains, unclamped (lines 107-113), chosen per band by the
    [if]/[elif] chain of the loop. *)
Definition rfft_gain (g : gains) (b : band) : R := db_to_linear (gain_db_of g b).

Definition rfft_gain_factors (g : gains) (freq_bins : list R)
    (ones : list (list C)) : list (list C) :=
  fold_left (fun gf entry =>
               rfft_apply_band freq_bins (rfft_gain g (fst entry)) (snd entry) gf)
            rfft_bands ones.

Definition process_rfft (audio_input : audio_input) (g : gains) : M audio :=
  (v <- validate audio_input ;;
   let n := num_samples v in
   let sr := ck_sample_rate v in
   waveform_fft <- Torch.fft_rfft n
                     (rows n (batch_size v * channels v)
                           (data (ck_waveform v))) ;;
   let freq_bins := Torch.linspace 0 (sr / 2) (n / 2 + 1) in
   let gain_factors :=
     rfft_gain_factors g freq_bins (ones_like2 waveform_fft) in
   let waveform_fft_eq := map2 (map2 Cmul) waveform_fft gain_factors in
   waveform_eq <- Torch.fft_irfft n waveform_fft_eq ;;
   normalized <- lift (normalize_waveform
                         (mkTensor [batch_size v; channels v; n]
                                   (concat waveform_eq))) ;;
   ret (mkAudio normalized sr))%eqm.

(* --------------------------------------------------------------------- *)
(** *** The short-time transform shared by the two windowed strategies *)
(* --------------------------------------------------------------------- *)

Definition n_fft : nat := 2048.
Definition hop_length : nat := (n_fft / 2)%nat.
Definition window : list R := Torch.hann_window n_fft.

(** [waveform_stft.size(1)]. *)
Definition n_freq_bins : nat := (n_fft / 2 + 1)%nat.

(** [1 + (gain - 1) * exp(-0.5 * ((freq_bins - center_freq) / divisor) ** 2)]
    at one bin.  The division is that of the real numbers.  With a divisor
    of zero the program computes in inf and NaN instead (NaN at the bin
    that equals [center_freq]), which this definition does not describe:
    the properties of a strategy's profile values are stated for divisors
    that are not zero. *)
Definition gaussian_gain (gain center_freq divisor f : R) : R :=
  1 + (gain - 1) * exp (- (1 / 2) * ((f - center_freq) / divisor) ^ 2).

(* --------------------------------------------------------------------- *)
(** *** process_hann (lines 175-286) *)
(* --------------------------------------------------------------------- *)

Definition hann_max_gain_db : R := 12.

(** [min(gain_db, max_gain_db)]. *)
Definition hann_gain_db (g : gains) (b : band) : R :=
  Rmin (gain_db_of g b) hann_max_gain_db.

Definition hann_gain_linear (g : gains) (b : band) : R :=
  db_to_linear (hann_gain_db g b).

(** The band table of lines 240-248. *)
Definition hann_bands (sample_rate : R) : list (band * (R * R)) :=
  [ (SubBass, (20, 60)); (Bass, (60, 250)); (LowMid, (250, 500));
    (Mid, (500, 2000)); (UpperMid, (2000, 4000)); (Presence, (4000, 6000));
    (Brilliance, (6000, sample_rate / 2)) ].

(** [bandwidth = (f_end - f_start) / 2]; the profile divides by
    [bandwidth / 2], whatever its value.  Where that divisor is zero torch
    produces inf and NaN, which the real numbers of this model do not
    have: the model's values at such an input stand for nothing. *)
Definition hann_bandwidth (rng : R * R) : R := (snd rng - fst rng) / 2.
Definition hann_divisor (rng : R * R) : R := hann_bandwidth rng / 2.

Definition hann_gain_profile (gain : R) (rng : R * R) (freq_bins : list R)
  : list R :=
  let center_freq := (fst rng + snd rng) / 2 in
  map (gaussian_gain gain center_freq (hann_divisor rng)) freq_bins.

(** The loop of lines 251-259:
    [gain_factors *= gain_profile.unsqueeze(1)] for each band. *)
Definition hann_gain_factors (g : gains) (sample_rate : R)
    (freq_bins : list R) (ones : list (list (list C)))
  : list (list (list C)) :=
  fold_left (fun gf entry =>
               map_freq (fun p z => Cscale z p)
                        (hann_gain_profile (hann_gain_linear g (fst entry))
                                           (snd entry) freq_bins)
                        gf)
            (hann_bands sample_rate) ones.

(** [waveform_stft_eq] of [process_hann]. *)
Definition hann_stft_eq (g : gains) (sample_rate : R)
    (waveform_stft : list (list (list C))) : list (list (list C)) :=
  let freq_bins := Torch.linspace 0 (sample_rate / 2) n_freq_bins in
  mul3 waveform_stft
       (hann_gain_factors g sample_rate freq_bins (ones_like3 waveform_stft)).

Definition process_hann (audio_input : audio_input) (g : gains) : M audio :=
  (v <- validate audio_input ;;
   let n := num_samples v in
   let sr := ck_sample_rate v in
   flat <- Torch.view_rows (ck_waveform v) n ;;
   waveform_stft <- Torch.stft n_fft hop_length window n flat ;;
   let waveform_stft_eq := hann_stft_eq g sr waveform_stft in
   waveform_eq <- Torch.istft n_fft hop_length window n waveform_stft_eq ;;
   reshaped <- Torch.view3 waveform_eq (batch_size v) (channels v) n ;;
   normalized <- lift (normalize_waveform reshaped) ;;
   ret (mkAudio normalized sr))%eqm.

(* --------------------------------------------------------------------- *)
(** *** process_subcomp (lines 288-447) *)
(* --------------------------------------------------------------------- *)

Definition subcomp_max_gain_db : R := 24.
Definition subcomp_min_gain_db : R := -24.

(** [max(min(gain_db, max_gain_db), min_gain_db)]. *)
Definition subcomp_gain_db (g : gains) (b : band) : R :=
  Rmax (Rmin (gain_db_of g b) subcomp_max_gain_db) subcomp_min_gain_db.

Definition subcomp_gain_linear (g : gains) (b : band) : R :=
  db_to_linear (subcomp_gain_db g b).

(** The band table of lines 355-363. *)
Definition subcomp_bands (sample_rate : R) : list (band * (R * R)) :=
  [ (SubBass, (20, 60)); (Bass, (60, 250)); (LowMid, (250, 500));
    (Mid, (500, 2000)); (UpperMid, (2000, 4000)); (Presence, (4000, 6000));
    (Brilliance, (6000, sample_rate / 2)) ].

(** [bandwidth = f_end - f_start], replaced by [f_end * 0.01] when zero. *)
Definition subcomp_bandwidth (rng : R * R) : R :=
  let bandwidth := snd rng - fst rng in
  if Req_dec_T bandwidth 0 then snd rng * (1 / 100) else bandwidth.
Definition subcomp_divisor (rng : R * R) : R := subcomp_bandwidth rng / 2.

Definition subcomp_gain_profile (gain : R) (rng : R * R) (freq_bins : list R)
  : list R :=
  let center_freq := (fst rng + snd rng) / 2 in
  map (gaussian_gain gain center_freq (subcomp_divisor rng)) freq_bins.

(** The loop of lines 366-375. *)
Definition subcomp_gain_factors (g : gains) (sample_rate : R)
    (freq_bins : list R) (ones : list (list (list C)))
  : list (list (list C)) :=
  fold_left (fun gf entry =>
               map_freq (fun p z => Cscale z p)
                        (subcomp_gain_profile
                           (subcomp_gain_linear g (fst entry))
                           (snd entry) freq_bins)
                        gf)
            (subcomp_bands sample_rate) ones.

(** [waveform_stft_eq] of [process_subcomp] before the compressor. *)
Definition subcomp_stft_eq (g : gains) (sample_rate : R)
    (waveform_stft : list (list (list C))) : list (list (list C)) :=
  let freq_bins := Torch.linspace 0 (sample_rate / 2) n_freq_bins in
  mul3 waveform_stft
       (subcomp_gain_factors g sample_rate freq_bins
                             (ones_like3 waveform_stft)).

(** Compressor parameters (lines 382-385). *)
Definition threshold : R := -20.
Definition ratio : R := 4.
Definition knee : R := 5.
Definition makeup_gain : R := 5.
(** Line 388 computes [threshold_linear] and never reads it. *)
Definition threshold_linear : R := Rpower 10 (threshold / 20).
Definition makeup_gain_linear : R := Rpower 10 (makeup_gain / 20).

Definition log10 (x : R) : R := ln x / ln 10.

(** [bands[name]]. *)
Definition band_eqb (x y : band) : bool :=
  match x, y with
  | SubBass, SubBass | Bass, Bass | LowMid, LowMid | Mid, Mid
  | UpperMid, UpperMid | Presence, Presence | Brilliance, Brilliance => true
  | _, _ => false
  end.

Definition band_range (bands : list (band * (R * R))) (name : band) : R * R :=
  match find (fun entry => band_eqb (fst entry) name) bands with
  | Some entry => snd entry
  | None => (0, 0)
  end.

(** [bass_mask]: [1.0] where
    [bands['sub_bass'][0] <= freq <= bands['bass'][1]], else [0.0]. *)
Definition bass_mask_at (bands : list (band * (R * R))) (f : R) : R :=
  if Rgeb f (fst (band_range bands SubBass))
     && Rleb f (snd (band_range bands Bass))
  then 1 else 0.
Definition bass_mask (bands : list (band * (R * R))) (freq_bins : list R)
  : list R :=
  map (bass_mask_at bands) freq_bins.

(** [20 * log10(magnitude * bass_mask + 1e-8)] at one entry. *)
Definition bass_magnitude_db (mask magnitude : R) : R :=
  20 * log10 (magnitude * mask + / 100000000).

(** The soft knee (lines 408-413): zeros, overwritten where
    [over_threshold > -knee/2], overwritten again where
    [over_threshold > knee/2]. *)
Definition compression_amount (over_threshold : R) : R :=
  let amount0 := 0 in
  let amount1 :=
    if Rlt_dec (- knee / 2) over_threshold
    then (1 / ratio - 1) * (over_threshold + knee / 2) ^ 2 / (2 * knee)
    else amount0 in
  if Rlt_dec (knee / 2) over_threshold
  then (1 / ratio - 1) * over_threshold
  else amount1.

(** [10 ** (gain_reduction_db / 20)]. *)
Definition gain_reduction_linear (mask magnitude : R) : R :=
  Rpower 10 (compression_amount (bass_magnitude_db mask magnitude - threshold)
             / 20).

(** [magnitude * (1 + gain_reduction_linear * bass_mask)] (line 417):
    the magnitude after the compression step, before makeup gain. *)
Definition magnitude_compressed (mask magnitude : R) : R :=
  magnitude * (1 + gain_reduction_linear mask magnitude * mask).

(** Lines 398-423 at one entry: split into magnitude and phase, compress,
    apply makeup gain, rebuild the complex value. *)
Definition compress_entry (mask : R) (z : C) : C :=
  let magnitude := Cabs z in
  let phase := Cangle z in
  Cscale (Cexp_i phase)
         (magnitude_compressed mask magnitude * makeup_gain_linear).

(** The field of magnitudes [torch.abs(waveform_stft_eq)]. *)
Definition magnitude_field (stft_eq : list (list (list C)))
  : list (list (list R)) :=
  map (map (map Cabs)) stft_eq.

(** The field [magnitude_compressed] after line 417. *)
Definition magnitude_compressed_field (sample_rate : R)
    (stft_eq : list (list (list C))) : list (list (list R)) :=
  let freq_bins := Torch.linspace 0 (sample_rate / 2) n_freq_bins in
  map_freq (fun mask z => magnitude_compressed mask (Cabs z))
           (bass_mask (subcomp_bands sample_rate) freq_bins) stft_eq.

(** The rebuilt transform after line 423. *)
Definition subcomp_compress (sample_rate : R)
    (stft_eq : list (list (list C))) : list (list (list C)) :=
  let freq_bins := Torch.linspace 0 (sample_rate / 2) n_freq_bins in
  map_freq compress_entry (bass_mask (subcomp_bands sample_rate) freq_bins)
           stft_eq.

Definition process_subcomp (audio_input : audio_input) (g : gains) : M audio :=
  (v <- validate audio_input ;;
   let n := num_samples v in
   let sr := ck_sample_rate v in
   flat <- Torch.view_rows (ck_waveform v) n ;;
   waveform_stft <- Torch.stft n_fft hop_length window n flat ;;
   let waveform_stft_eq := subcomp_stft_eq g sr waveform_stft in
   let compressed := subcomp_compress sr waveform_stft_eq in
   waveform_eq <- Torch.istft n_fft hop_length window n compressed ;;
   reshaped <- Torch.view3 waveform_eq (batch_size v) (channels v) n ;;
   normalized <- lift (normalize_waveform reshaped) ;;
   ret (mkAudio normalized sr))%eqm.

(* --------------------------------------------------------------------- *)
(** *** process (lines 43-60) *)
(* --------------------------------------------------------------------- *)

(** The three values the host offers for [method]. *)
Inductive method : Type := Hann | Subcomp | Rfft.

Definition process (audio_input : audio_input) (m : method) (g : gains)
  : M audio :=
  match m with
  | Rfft => process_rfft audio_input g
  | Hann => process_hann audio_input g
  | Subcomp => process_subcomp audio_input g
  end.

(* --------------------------------------------------------------------- *)
(** *** INPUT_TYPES (lines 20-36) and the method as a string *)
(* --------------------------------------------------------------------- *)

(** The options of a ["FLOAT"] input. *)
Record float_options : Type := mkFloat {
  opt_default : R;
  opt_min : R;
  opt_max : R;
  opt_step : R
}.

(** The choices offered for ["method"], in the order of line 25. *)
Definition INPUT_TYPES_method : list string :=
  ["hann"; "subcomp"; "rfft"]%string.

(** The ["optional"] entries, in the order of lines 28-34. *)
Definition INPUT_TYPES_optional : list (string * float_options) :=
  [ ("sub_bass_gain_db", mkFloat 0 (-12) 12 (1 / 10));
    ("bass_gain_db", mkFloat 0 (-12) 12 (1 / 10));
    ("low_mid_gain_db", mkFloat 0 (-12) 12 (1 / 10));
    ("mid_gain_db", mkFloat 0 (-12) 12 (1 / 10));
    ("upper_mid_gain_db", mkFloat 0 (-12) 12 (1 / 10));
    ("presence_gain_db", mkFloat 0 (-12) 12 (1 / 10));
    ("brilliance_gain_db", mkFloat 0 (-12) 12 (1 / 10)) ]%string.

(** The parameter of [process] that carries a band's gain. *)
Definition gain_keyword (b : band) : string :=
  match b with
  | SubBass => "sub_bass_gain_db"
  | Bass => "bass_gain_db"
  | LowMid => "low_mid_gain_db"
  | Mid => "mid_gain_db"
  | UpperMid => "upper_mid_gain_db"
  | Presence => "presence_gain_db"
  | Brilliance => "brilliance_gain_db"
  end.

(** Lookup among the entries of a dictionary. *)
Fixpoint lookup {A} (key : string) (entries : list (string * A)) : option A :=
  match entries with
  | [] => None
  | (k, v) :: rest => if String.eqb k key then Some v else lookup key rest
  end.

(** [process] on a method given as the string it is in Python.  The three
    [if]s of lines 55-60 are tried in order; when none matches the function
    ends without a [return], which yields [None] and runs nothing. *)
Definition process_py (audio_input : audio_input) (method : string)
    (g : gains) : option (M audio) :=
  if String.eqb method "rfft" then Some (process_rfft audio_input g)
  else if String.eqb method "hann" then Some (process_hann audio_input g)
  else if String.eqb method "subcomp"
       then Some (process_subcomp audio_input g)
       else None.

(** The string of a [method]. *)
Definition method_name (m : method) : string :=
  match m with
  | Hann => "hann"
  | Subcomp => "subcomp"
  | Rfft => "rfft"
  end.

(* ===================================================================== *)
(** ** Vocabulary of the statements *)
(* ===================================================================== *)

(** [m] is the largest absolute value in [d]. *)
Definition is_max_abs (m : R) (d : list R) : Prop :=
  In m (map Rabs d) /\ Forall (fun x => Rabs x <= m) d.

(** A valid input: a rank-3 waveform [w] of shape [[b; c; n]] with
    one or two channels and at least one sample, and a sample rate [sr]. *)
Definition valid_input (ai : audio_input) (w : tensor) (sr : R)
    (b c n : nat) : Prop :=
  in_waveform ai = Some (PyTensor w) /\ in_sample_rate ai = Some sr /\
  shape w = [b; c; n] /\ (c = 1 \/ c = 2)%nat /\ (0 < n)%nat /\ wf_tensor w.

(** What a strategy returned when it ran to completion on [[b; c; n]]. *)
Definition returns_like (r : result audio) (sr : R) (b c n : nat) : Prop :=
  exists out, r = Ok out /\ shape (waveform out) = [b; c; n] /\
              wf_tensor (waveform out) /\ sample_rate out = sr.

(** [[r, k]] is an index into a field of two axes. *)
Definition in_field2 {A} (field : list (list A)) (r k : nat) : Prop :=
  (r < length field)%nat /\ (k < length (nth r field []))%nat.

(** [[r, k, t]] is an index into the field. *)
Definition in_field {A} (field : list (list (list A))) (r k t : nat) : Prop :=
  (r < length field)%nat /\
  (k < length (nth r field []))%nat /\
  (t < length (nth k (nth r field []) []))%nat.

(** What the loop of [process_rfft] does to one entry of the gain field. *)
Definition rfft_gain_at (g : gains) (f : R) (z : C) : C :=
  fold_left (fun z entry =>
               if band_mask f (fst (snd entry)) (snd (snd entry))
               then Cscale z (rfft_gain g (fst entry)) else z)
            rfft_bands z.

(** The same function applied to each of the seven gains. *)
Definition map_gains (f : R -> R) (g : gains) : gains :=
  mkGains (f (sub_bass_gain_db g)) (f (bass_gain_db g))
          (f (low_mid_gain_db g)) (f (mid_gain_db g))
          (f (upper_mid_gain_db g)) (f (presence_gain_db g))
          (f (brilliance_gain_db g)).

(** *** Sample inputs *)

(** All seven gains at 0 dB. *)
Definition zero_gains : gains := mkGains 0 0 0 0 0 0 0.

Definition input_of (w : tensor) (sr : R) : audio_input :=
  mkInput (Some (PyTensor w)) (Some sr).

(** One mono row of 100 silent samples: shorter than the reflect padding. *)
Definition short_waveform : tensor := mkTensor [1; 1; 100]%nat (repeat 0 100).

(** A batch without elements. *)
Definition empty_batch_waveform : tensor := mkTensor [0; 1; 4]%nat [].

(** One mono row of two samples. *)
Definition tiny_waveform : tensor := mkTensor [1; 1; 2]%nat [1 / 2; - (1 / 4)].

(** One mono row of 1025 silent samples: the shortest the windowed
    strategies accept. *)
Definition long_waveform : tensor := mkTensor [1; 1; 1025]%nat (repeat 0 1025).

(** A stereo pair missing its batch axis, and a three-channel buffer. *)
Definition flat_waveform : tensor := mkTensor [2; 4]%nat (repeat 0 8).
Definition surround_waveform : tensor := mkTensor [1; 3; 4]%nat (repeat 0 12).

(** A transform of one row, two frames, every coefficient [1 + 0j]. *)
Definition flat_spectrum : list (list (list C)) :=
  [repeat [Cone; Cone] n_freq_bins].

(** One mono row of two loud samples. *)
Definition loud_waveform : tensor := mkTensor [1; 1; 2]%nat [2; -4].

(** A stereo buffer without samples. *)
Definition no_samples_waveform : tensor := mkTensor [1; 2; 0]%nat [].

(** A batch without elements whose rows would be long. *)
Definition empty_long_waveform : tensor := mkTensor [0; 1; 2048]%nat [].

(** *** Reference gains *)

(** The factor of [process_rfft] at a bin of frequency [f], read off the
    band table as a cascade. *)
Definition rfft_bin_gain (g : gains) (f : R) : R :=
  if Rlt_dec f 20 then 1
  else if Rlt_dec f 60 then rfft_gain g SubBass
  else if Rlt_dec f 250 then rfft_gain g Bass
  else if Rlt_dec f 500 then rfft_gain g LowMid
  else if Rlt_dec f 2000 then rfft_gain g Mid
  else if Rlt_dec f 4000 then rfft_gain g UpperMid
  else if Rlt_dec f 6000 then rfft_gain g Presence
  else if Rlt_dec f 20000 then rfft_gain g Brilliance
  else 1.

(** The product of the band profiles at a frequency [f]. *)
Definition profile_product (profile_at : band * (R * R) -> R -> R)
    (bands : list (band * (R * R))) (f : R) : R :=
  fold_left (fun p entry => p * profile_at entry f) bands 1.

Definition hann_profile_at (g : gains) (entry : band * (R * R)) (f : R) : R :=
  gaussian_gain (hann_gain_linear g (fst entry))
                ((fst (snd entry) + snd (snd entry)) / 2)
                (hann_divisor (snd entry)) f.

Definition subcomp_profile_at (g : gains) (entry : band * (R * R)) (f : R)
  : R :=
  gaussian_gain (subcomp_gain_linear g (fst entry))
                ((fst (snd entry) + snd (snd entry)) / 2)
                (subcomp_divisor (snd entry)) f.

(** The real factor the equalizer stage of each windowed strategy applies
    at frequency [f]. *)
Definition hann_bin_gain (g : gains) (sample_rate f : R) : R :=
  profile_product (hann_profile_at g) (hann_bands sample_rate) f.

Definition subcomp_bin_gain (g : gains) (sample_rate f : R) : R :=
  profile_product (subcomp_profile_at g) (subcomp_bands sample_rate) f.

(** Every gain at most, or at least, 0 dB. *)
Definition cuts_only (g : gains) : Prop := forall b, gain_db_of g b <= 0.
Definition boosts_only (g : gains) : Prop := forall b, 0 <= gain_db_of g b.

(** The gains lie within the bounds [INPUT_TYPES] declares for them. *)
Definition within_declared_bounds (g : gains) : Prop :=
  forall b, exists o,
    lookup (gain_keyword b) INPUT_TYPES_optional = Some o /\
    opt_min o <= gain_db_of g b <= opt_max o.

(* ===================================================================== *)
(** ** Properties *)
(* ===================================================================== *)

(** *** The monad *)

Lemma outcome_bind {A B} (m : M A) (f : A -> M B) :
  outcome (bind m f) =
  match outcome m with Ok a => outcome (f a) | Raise e => Raise e end.
Proof.
  destruct m as [t [a|e]]; simpl; auto.
  destruct (f a); reflexivity.
Qed.

Lemma trace_bind {A B} (m : M A) (f : A -> M B) :
  trace (bind m f) =
  match outcome m with
  | Ok a => trace m ++ trace (f a)
  | Raise _ => trace m
  end.
Proof.
  destruct m as [t [a|e]]; simpl; auto.
  destruct (f a); reflexivity.
Qed.

Lemma outcome_bind_ok {A B} (m : M A) (f : A -> M B) (b : B) :
  outcome (bind m f) = Ok b ->
  exists a, outcome m = Ok a /\ outcome (f a) = Ok b.
Proof.
  rewrite outcome_bind. destruct (outcome m) as [a|e]; [eauto | discriminate].
Qed.

(** *** Lists *)

Lemma length_map2 {A B D} (f : A -> B -> D) (l : list A) (l' : list B) :
  length (map2 f l l') = Nat.min (length l) (length l').
Proof.
  revert l'; induction l as [|a l IH]; intros [|b l']; simpl; auto.
Qed.

Lemma nth_map2 {A B D} (f : A -> B -> D) (l : list A) (l' : list B)
      (k : nat) (da : A) (db : B) (dd : D) :
  (k < length l)%nat -> (k < length l')%nat ->
  nth k (map2 f l l') dd = f (nth k l da) (nth k l' db).
Proof.
  revert l' k; induction l as [|a l IH]; intros [|b l'] [|k]; simpl;
    intros; try lia; auto.
  apply IH; lia.
Qed.

Lemma length_concat_uniform {A} (n : nat) (ll : list (list A)) :
  Forall (fun l => length l = n) ll ->
  length (concat ll) = (length ll * n)%nat.
Proof.
  induction 1 as [|l ll Hl _ IH]; simpl; auto.
  rewrite length_app, IH, Hl. reflexivity.
Qed.

Lemma nth_map_seq {A} (f : nat -> A) (n k : nat) (d : A) :
  (k < n)%nat -> nth k (map f (seq 0 n)) d = f k.
Proof.
  intros Hk.
  rewrite (nth_indep _ d (f 0%nat)) by (rewrite length_map, length_seq; exact Hk).
  rewrite (map_nth f (seq 0 n) 0%nat k), seq_nth by exact Hk. reflexivity.
Qed.

(** *** Powers of ten *)

Lemma ln_10_pos : 0 < ln 10.
Proof. rewrite <- ln_1. apply ln_increasing; lra. Qed.

Lemma Rpower_10_pos (y : R) : 0 < Rpower 10 y.
Proof. unfold Rpower. apply exp_pos. Qed.

Lemma Rpower_10_le_1 (y : R) : y <= 0 -> Rpower 10 y <= 1.
Proof.
  intros Hy. unfold Rpower. rewrite <- exp_0.
  pose proof ln_10_pos as Hln.
  destruct (Req_dec (y * ln 10) 0) as [-> | Hne]; [lra|].
  left. apply exp_increasing. nra.
Qed.

Lemma Rpower_10_inj (a b : R) : Rpower 10 a = Rpower 10 b -> a = b.
Proof.
  unfold Rpower. intros H. apply exp_inv in H.
  pose proof ln_10_pos. nra.
Qed.

(** *** normalize_waveform *)

Lemma fold_left_Rmax_init (l : list R) (a : R) : a <= fold_left Rmax l a.
Proof.
  revert a; induction l as [|x l IH]; intros a; simpl; [lra|].
  eapply Rle_trans; [apply (Rmax_l a x) | apply IH].
Qed.

Lemma fold_left_Rmax_upper (l : list R) (a : R) :
  Forall (fun x => x <= fold_left Rmax l a) l.
Proof.
  revert a; induction l as [|x l IH]; intros a; simpl; constructor.
  - eapply Rle_trans; [apply (Rmax_r a x) | apply fold_left_Rmax_init].
  - apply IH.
Qed.

Lemma fold_left_Rmax_attained (l : list R) (a : R) :
  fold_left Rmax l a = a \/ In (fold_left Rmax l a) l.
Proof.
  revert a; induction l as [|x l IH]; intros a; simpl; auto.
  destruct (IH (Rmax a x)) as [H|H]; [|auto].
  rewrite H. unfold Rmax. destruct (Rle_dec a x); auto.
Qed.

Lemma max_abs_is_max (d : list R) :
  d <> [] -> exists m, max_abs d = Ok m /\ is_max_abs m d.
Proof.
  destruct d as [|x t]; [congruence|]; intros _.
  eexists; split; [reflexivity|]. split.
  - simpl. destruct (fold_left_Rmax_attained (map Rabs t) (Rabs x)); auto.
  - constructor; [apply fold_left_Rmax_init|].
    pose proof (fold_left_Rmax_upper (map Rabs t) (Rabs x)) as H.
    rewrite Forall_map in H. exact H.
Qed.

Lemma max_abs_ok_inv (d : list R) (m : R) :
  max_abs d = Ok m -> d <> [] /\ is_max_abs m d.
Proof.
  intros H. assert (Hd : d <> []) by (destruct d; [discriminate | congruence]).
  split; [exact Hd|].
  destruct (max_abs_is_max d Hd) as [m' [H' Hm]]. congruence.
Qed.

Lemma normalize_waveform_shape (w w' : tensor) :
  normalize_waveform w = Ok w' ->
  shape w' = shape w /\ length (data w') = length (data w).
Proof.
  unfold normalize_waveform. destruct (max_abs (data w)); [|discriminate].
  intros H; injection H as <-.
  destruct (Rlt_dec 1 a); simpl; auto using length_map.
Qed.

Lemma normalize_waveform_total (w : tensor) :
  data w <> [] -> exists w', normalize_waveform w = Ok w'.
Proof.
  intros H. destruct (max_abs_is_max _ H) as [m [Hm _]].
  unfold normalize_waveform. rewrite Hm. eauto.
Qed.

Lemma normalize_waveform_peak_le_1 (w w' : tensor) :
  normalize_waveform w = Ok w' -> peak_le_1 w'.
Proof.
  unfold normalize_waveform.
  destruct (max_abs (data w)) as [m|] eqn:Hm; [|discriminate].
  apply max_abs_ok_inv in Hm. destruct Hm as [_ [_ Hall]].
  intros H; injection H as <-. unfold peak_le_1.
  destruct (Rlt_dec 1 m) as [Hgt|Hle]; simpl.
  - rewrite Forall_map. eapply Forall_impl; [|exact Hall].
    intros x Hx. simpl in Hx. unfold Rdiv.
    rewrite Rabs_mult, (Rabs_pos_eq (/ m)).
    + apply (Rmult_le_reg_r m); [lra|].
      rewrite Rmult_assoc, Rinv_l by lra. lra.
    + left. apply Rinv_0_lt_compat. lra.
  - eapply Forall_impl; [|exact Hall]. intros x Hx. simpl in Hx. lra.
Qed.

(** *** Shapes through the transforms *)

Lemma n_fft_half : (n_fft / 2 = 1024)%nat.
Proof. reflexivity. Qed.

Lemma fft_rfft_outcome (n : nat) (rws : list (list R)) :
  (0 < n)%nat -> outcome (Torch.fft_rfft n rws) = Ok (map Dft.rfft_row rws).
Proof.
  intros Hn. unfold Torch.fft_rfft. rewrite outcome_bind. simpl.
  destruct (Nat.eqb_spec n 0); [lia | reflexivity].
Qed.

Lemma fft_irfft_outcome (n : nat) (spec : list (list C)) :
  (0 < n)%nat ->
  outcome (Torch.fft_irfft n spec) = Ok (map (Dft.irfft_row n) spec).
Proof.
  intros Hn. unfold Torch.fft_irfft. rewrite outcome_bind. simpl.
  destruct (Nat.eqb_spec n 0); [lia | reflexivity].
Qed.

Lemma length_irfft_row (n : nat) (X : list C) :
  length (Dft.irfft_row n X) = n.
Proof. unfold Dft.irfft_row. rewrite length_map, length_seq. reflexivity. Qed.

Lemma length_rfft_row (x : list R) :
  length (Dft.rfft_row x) = (length x / 2 + 1)%nat.
Proof. unfold Dft.rfft_row. rewrite length_map, length_seq. reflexivity. Qed.

Lemma length_rows (n count : nat) (d : list R) : length (rows n count d) = count.
Proof. unfold rows. rewrite length_map, length_seq. reflexivity. Qed.

Lemma length_rfft_apply_band freq gain rng gf :
  length (rfft_apply_band freq gain rng gf) = length gf.
Proof. unfold rfft_apply_band. apply length_map. Qed.

Lemma length_rfft_gain_factors (g : gains) freq ones :
  length (rfft_gain_factors g freq ones) = length ones.
Proof.
  unfold rfft_gain_factors. generalize rfft_bands. intros bands.
  revert ones; induction bands as [|e bands IH]; intros ones; simpl; auto.
  rewrite IH. apply length_rfft_apply_band.
Qed.

Lemma length_map_freq {A B} (op : R -> A -> B) v (field : list (list (list A))) :
  length (map_freq op v field) = length field.
Proof. unfold map_freq. apply length_map. Qed.

Lemma length_hann_gain_factors (g : gains) sr freq ones :
  length (hann_gain_factors g sr freq ones) = length ones.
Proof.
  unfold hann_gain_factors. generalize (hann_bands sr). intros bands.
  revert ones; induction bands as [|e bands IH]; intros ones; simpl; auto.
  rewrite IH. apply length_map_freq.
Qed.

Lemma length_subcomp_gain_factors (g : gains) sr freq ones :
  length (subcomp_gain_factors g sr freq ones) = length ones.
Proof.
  unfold subcomp_gain_factors. generalize (subcomp_bands sr). intros bands.
  revert ones; induction bands as [|e bands IH]; intros ones; simpl; auto.
  rewrite IH. apply length_map_freq.
Qed.

Lemma length_hann_stft_eq (g : gains) sr (s : list (list (list C))) :
  length (hann_stft_eq g sr s) = length s.
Proof.
  unfold hann_stft_eq, mul3, ones_like3.
  rewrite length_map2, length_hann_gain_factors, length_map. apply Nat.min_id.
Qed.

Lemma length_subcomp_stft_eq (g : gains) sr (s : list (list (list C))) :
  length (subcomp_stft_eq g sr s) = length s.
Proof.
  unfold subcomp_stft_eq, mul3, ones_like3.
  rewrite length_map2, length_subcomp_gain_factors, length_map.
  apply Nat.min_id.
Qed.

Lemma stft_outcome_ok (n : nat) (rws : list (list R)) :
  (1024 < n)%nat -> (0 < length rws)%nat ->
  exists s, outcome (Torch.stft n_fft hop_length window n rws) = Ok s
            /\ length s = length rws.
Proof.
  intros Hn Hrows. unfold Torch.stft. rewrite outcome_bind. simpl tell.
  cbv iota beta. unfold outcome at 1. simpl snd.
  destruct rws as [|x rws']; [simpl in Hrows; lia|].
  rewrite n_fft_half.
  destruct (Nat.ltb_spec 1024 n); [|lia].
  eexists; split; [reflexivity|]. apply length_map.
Qed.

Lemma stft_outcome_short (n : nat) (rws : list (list R)) :
  (n <= 1024)%nat ->
  exists e, outcome (Torch.stft n_fft hop_length window n rws) = Raise e.
Proof.
  intros Hn. unfold Torch.stft. rewrite outcome_bind. simpl tell. cbv iota beta.
  unfold outcome at 1. simpl snd.
  destruct rws as [|x rws']; [eexists; reflexivity|].
  rewrite n_fft_half.
  destruct (Nat.ltb_spec 1024 n); [lia|]. eexists; reflexivity.
Qed.

(** An input without rows fails inside the transform, whatever its length. *)
Lemma stft_empty (n : nat) :
  exists msg, Torch.stft n_fft hop_length window n []
              = ([EvStft], Raise (RuntimeError msg)).
Proof. eexists. reflexivity. Qed.

Lemma istft_outcome (n : nat) (s : list (list (list C))) :
  exists rws, outcome (Torch.istft n_fft hop_length window n s) = Ok rws
              /\ length rws = length s
              /\ Forall (fun r => length r = n) rws.
Proof.
  unfold Torch.istft. rewrite outcome_bind. simpl tell. cbv iota beta.
  unfold outcome at 1. simpl snd.
  eexists; split; [reflexivity|]. split; [apply length_map|].
  rewrite Forall_map. apply Forall_forall. intros r _.
  rewrite length_map, length_seq. reflexivity.
Qed.

Lemma view_rows_outcome (w : tensor) (count n : nat) :
  (0 < n)%nat -> length (data w) = (count * n)%nat ->
  outcome (Torch.view_rows w n) = Ok (rows n count (data w)).
Proof.
  intros Hn Hlen. unfold Torch.view_rows.
  destruct (Nat.eqb_spec n 0); [lia|].
  rewrite Hlen, Nat.Div0.mod_mul, Nat.div_mul by lia. reflexivity.
Qed.

Lemma view3_outcome (rws : list (list R)) (b c n : nat) :
  length rws = (b * c)%nat -> Forall (fun r => length r = n) rws ->
  outcome (Torch.view3 rws b c n) = Ok (mkTensor [b; c; n] (concat rws)).
Proof.
  intros Hlen Hall. unfold Torch.view3.
  rewrite (length_concat_uniform n) by exact Hall. rewrite Hlen, Nat.eqb_refl.
  reflexivity.
Qed.

Lemma validate_valid ai w sr b c n :
  valid_input ai w sr b c n -> validate ai = ret (mkChecked w sr b c n).
Proof.
  intros (Hw & Hs & Hsh & Hc & _ & _). unfold validate.
  rewrite Hw, Hs, Hsh.
  destruct Hc as [-> | ->]; reflexivity.
Qed.

Lemma normalize_tail (t : tensor) (sr : R) (b c n : nat) :
  shape t = [b; c; n] -> length (data t) = (b * c * n)%nat ->
  (0 < b * c * n)%nat ->
  returns_like
    (outcome (bind (lift (normalize_waveform t))
                   (fun normalized => ret (mkAudio normalized sr))))
    sr b c n.
Proof.
  intros Hsh Hlen Hpos.
  destruct (normalize_waveform_total t) as [w' Hw'].
  { intros Hd. rewrite Hd in Hlen. simpl in Hlen. lia. }
  destruct (normalize_waveform_shape _ _ Hw') as [Hs' Hl'].
  rewrite outcome_bind. unfold lift, outcome at 1. simpl snd. rewrite Hw'.
  exists (mkAudio w' sr). simpl. repeat split; auto.
  - congruence.
  - unfold wf_tensor. rewrite Hs', Hl', Hsh, Hlen. simpl. lia.
Qed.

Lemma process_rfft_returns ai w sr b c n (g : gains) :
  valid_input ai w sr b c n -> (0 < b)%nat ->
  returns_like (outcome (process_rfft ai g)) sr b c n.
Proof.
  intros Hv Hb. pose proof Hv as (_ & _ & _ & Hc & Hn & _).
  unfold process_rfft. rewrite (validate_valid _ _ _ _ _ _ Hv).
  rewrite outcome_bind. unfold ret at 1, outcome at 1. simpl snd.
  cbv beta iota. simpl num_samples. simpl batch_size. simpl channels.
  simpl ck_sample_rate. simpl ck_waveform.
  rewrite outcome_bind, fft_rfft_outcome by exact Hn.
  rewrite outcome_bind, fft_irfft_outcome by exact Hn.
  apply normalize_tail.
  - reflexivity.
  - simpl data. rewrite (length_concat_uniform n).
    + rewrite length_map, length_map2, length_rfft_gain_factors.
      unfold ones_like2. rewrite !length_map, length_rows, Nat.min_id.
      reflexivity.
    + rewrite Forall_map. apply Forall_forall. intros X _.
      apply length_irfft_row.
  - destruct Hc; subst; lia.
Qed.

Lemma process_hann_returns ai w sr b c n (g : gains) :
  valid_input ai w sr b c n -> (0 < b)%nat -> (1024 < n)%nat ->
  returns_like (outcome (process_hann ai g)) sr b c n.
Proof.
  intros Hv Hb Hlong. pose proof Hv as (_ & _ & Hsh & Hc & Hn & Hwf).
  unfold wf_tensor in Hwf. rewrite Hsh in Hwf. simpl in Hwf.
  unfold process_hann. rewrite (validate_valid _ _ _ _ _ _ Hv).
  rewrite outcome_bind. unfold ret at 1, outcome at 1. simpl snd.
  cbv beta iota. simpl num_samples. simpl batch_size. simpl channels.
  simpl ck_sample_rate. simpl ck_waveform.
  rewrite outcome_bind, (view_rows_outcome w (b * c) n) by (auto; lia).
  assert (Hrows : (0 < length (rows n (b * c) (data w)))%nat).
  { rewrite length_rows. destruct Hc; subst; lia. }
  destruct (stft_outcome_ok n (rows n (b * c) (data w)) Hlong Hrows)
    as [s [Hs Hls]].
  rewrite outcome_bind, Hs.
  destruct (istft_outcome n (hann_stft_eq g sr s)) as [rws [Hr [Hlr Hall]]].
  rewrite outcome_bind, Hr.
  rewrite length_hann_stft_eq, Hls, length_rows in Hlr.
  rewrite outcome_bind, (view3_outcome rws b c n Hlr Hall).
  apply normalize_tail.
  - reflexivity.
  - simpl data. rewrite (length_concat_uniform n) by exact Hall.
    rewrite Hlr. reflexivity.
  - destruct Hc; subst; lia.
Qed.

Lemma length_subcomp_compress sr (s : list (list (list C))) :
  length (subcomp_compress sr s) = length s.
Proof. unfold subcomp_compress. apply length_map_freq. Qed.

Lemma process_subcomp_returns ai w sr b c n (g : gains) :
  valid_input ai w sr b c n -> (0 < b)%nat -> (1024 < n)%nat ->
  returns_like (outcome (process_subcomp ai g)) sr b c n.
Proof.
  intros Hv Hb Hlong. pose proof Hv as (_ & _ & Hsh & Hc & Hn & Hwf).
  unfold wf_tensor in Hwf. rewrite Hsh in Hwf. simpl in Hwf.
  unfold process_subcomp. rewrite (validate_valid _ _ _ _ _ _ Hv).
  rewrite outcome_bind. unfold ret at 1, outcome at 1. simpl snd.
  cbv beta iota. simpl num_samples. simpl batch_size. simpl channels.
  simpl ck_sample_rate. simpl ck_waveform.
  rewrite outcome_bind, (view_rows_outcome w (b * c) n) by (auto; lia).
  assert (Hrows : (0 < length (rows n (b * c) (data w)))%nat).
  { rewrite length_rows. destruct Hc; subst; lia. }
  destruct (stft_outcome_ok n (rows n (b * c) (data w)) Hlong Hrows)
    as [s [Hs Hls]].
  rewrite outcome_bind, Hs.
  destruct (istft_outcome n (subcomp_compress sr (subcomp_stft_eq g sr s)))
    as [rws [Hr [Hlr Hall]]].
  rewrite outcome_bind, Hr.
  rewrite length_subcomp_compress, length_subcomp_stft_eq, Hls, length_rows
    in Hlr.
  rewrite outcome_bind, (view3_outcome rws b c n Hlr Hall).
  apply normalize_tail.
  - reflexivity.
  - simpl data. rewrite (length_concat_uniform n) by exact Hall.
    rewrite Hlr. reflexivity.
  - destruct Hc; subst; lia.
Qed.

(** A windowed strategy given rows no longer than the reflect padding. *)
Lemma process_hann_short ai w sr b c n (g : gains) :
  valid_input ai w sr b c n -> (n <= 1024)%nat ->
  exists e, outcome (process_hann ai g) = Raise e.
Proof.
  intros Hv Hshort. pose proof Hv as (_ & _ & Hsh & Hc & Hn & Hwf).
  unfold wf_tensor in Hwf. rewrite Hsh in Hwf. simpl in Hwf.
  unfold process_hann. rewrite (validate_valid _ _ _ _ _ _ Hv).
  rewrite outcome_bind. unfold ret at 1, outcome at 1. simpl snd.
  cbv beta iota. simpl num_samples. simpl batch_size. simpl channels.
  simpl ck_sample_rate. simpl ck_waveform.
  rewrite outcome_bind, (view_rows_outcome w (b * c) n) by (auto; lia).
  destruct (stft_outcome_short n (rows n (b * c) (data w)) Hshort) as [e He].
  rewrite outcome_bind, He. eauto.
Qed.

Lemma process_subcomp_short ai w sr b c n (g : gains) :
  valid_input ai w sr b c n -> (n <= 1024)%nat ->
  exists e, outcome (process_subcomp ai g) = Raise e.
Proof.
  intros Hv Hshort. pose proof Hv as (_ & _ & Hsh & Hc & Hn & Hwf).
  unfold wf_tensor in Hwf. rewrite Hsh in Hwf. simpl in Hwf.
  unfold process_subcomp. rewrite (validate_valid _ _ _ _ _ _ Hv).
  rewrite outcome_bind. unfold ret at 1, outcome at 1. simpl snd.
  cbv beta iota. simpl num_samples. simpl batch_size. simpl channels.
  simpl ck_sample_rate. simpl ck_waveform.
  rewrite outcome_bind, (view_rows_outcome w (b * c) n) by (auto; lia).
  destruct (stft_outcome_short n (rows n (b * c) (data w)) Hshort) as [e He].
  rewrite outcome_bind, He. eauto.
Qed.

(** An empty batch reaches [torch.max] with nothing to reduce. *)
Lemma process_rfft_empty_batch ai w sr c n (g : gains) :
  valid_input ai w sr 0 c n ->
  exists e, outcome (process_rfft ai g) = Raise e.
Proof.
  intros Hv. pose proof Hv as (_ & _ & _ & Hc & Hn & _).
  unfold process_rfft. rewrite (validate_valid _ _ _ _ _ _ Hv).
  rewrite outcome_bind. unfold ret at 1, outcome at 1. simpl snd.
  cbv beta iota. simpl num_samples. simpl batch_size. simpl channels.
  simpl ck_sample_rate. simpl ck_waveform.
  rewrite outcome_bind, fft_rfft_outcome by exact Hn.
  rewrite outcome_bind, fft_irfft_outcome by exact Hn.
  simpl. eauto.
Qed.

Lemma valid_short : valid_input (input_of short_waveform 44100)
                                short_waveform 44100 1 1 100.
Proof. unfold valid_input, wf_tensor. simpl. repeat split; auto; lia. Qed.

Lemma valid_empty_batch : valid_input (input_of empty_batch_waveform 44100)
                                      empty_batch_waveform 44100 0 1 4.
Proof. unfold valid_input, wf_tensor. simpl. repeat split; auto; lia. Qed.

Lemma valid_tiny : valid_input (input_of tiny_waveform 44100)
                               tiny_waveform 44100 1 1 2.
Proof. unfold valid_input, wf_tensor. simpl. repeat split; auto; lia. Qed.

Lemma valid_long : valid_input (input_of long_waveform 44100)
                               long_waveform 44100 1 1 1025.
Proof.
  unfold valid_input. repeat split; auto; lia.
Qed.

Lemma raise_not_returns (r : result audio) sr b c n :
  (exists e, r = Raise e) -> ~ returns_like r sr b c n.
Proof. intros [e ->] [out [H _]]. discriminate. Qed.

(* ===================================================================== *)
(** ** The log of transform calls *)
(* ===================================================================== *)

Lemma trace_normalize_tail (r : result tensor) (sr : R) :
  trace (bind (lift r) (fun normalized => ret (mkAudio normalized sr))) = [].
Proof. destruct r; reflexivity. Qed.

Lemma trace_fft_rfft (n : nat) (rws : list (list R)) :
  trace (Torch.fft_rfft n rws) = [EvRfft].
Proof.
  unfold Torch.fft_rfft. rewrite trace_bind. simpl.
  destruct (n =? 0)%nat; reflexivity.
Qed.

Lemma trace_fft_irfft (n : nat) (spec : list (list C)) :
  trace (Torch.fft_irfft n spec) = [EvIrfft].
Proof.
  unfold Torch.fft_irfft. rewrite trace_bind. simpl.
  destruct (n =? 0)%nat; reflexivity.
Qed.

(** On a valid input [process_rfft] calls the forward and the inverse
    transform, in that order. *)
Lemma process_rfft_trace ai w sr b c n (g : gains) :
  valid_input ai w sr b c n ->
  trace (process_rfft ai g) = [EvRfft; EvIrfft].
Proof.
  intros Hv. pose proof Hv as (_ & _ & _ & _ & Hn & _).
  unfold process_rfft. rewrite (validate_valid _ _ _ _ _ _ Hv).
  rewrite trace_bind. unfold ret at 1 2, outcome at 1, trace at 1.
  simpl fst. simpl snd. cbv beta iota.
  simpl num_samples. simpl batch_size. simpl channels.
  simpl ck_sample_rate. simpl ck_waveform.
  rewrite trace_bind, fft_rfft_outcome, trace_fft_rfft by exact Hn.
  rewrite trace_bind, fft_irfft_outcome, trace_fft_irfft by exact Hn.
  rewrite trace_normalize_tail. reflexivity.
Qed.

(** A windowed strategy given a short row fails inside [torch.stft]. *)
Lemma process_hann_short_trace ai w sr b c n (g : gains) :
  valid_input ai w sr b c n -> (n <= 1024)%nat ->
  trace (process_hann ai g) = [EvStft].
Proof.
  intros Hv Hshort. pose proof Hv as (_ & _ & Hsh & Hc & Hn & Hwf).
  unfold wf_tensor in Hwf. rewrite Hsh in Hwf. simpl in Hwf.
  unfold process_hann. rewrite (validate_valid _ _ _ _ _ _ Hv).
  rewrite trace_bind. unfold ret at 1 2, outcome at 1, trace at 1.
  simpl fst. simpl snd. cbv beta iota.
  simpl num_samples. simpl batch_size. simpl channels.
  simpl ck_sample_rate. simpl ck_waveform.
  assert (Hview : Torch.view_rows w n = ret (rows n (b * c) (data w))).
  { unfold Torch.view_rows. destruct (Nat.eqb_spec n 0); [lia|].
    replace (length (data w)) with (b * c * n)%nat by lia.
    rewrite Nat.Div0.mod_mul, Nat.div_mul by lia. reflexivity. }
  rewrite Hview, trace_bind. unfold ret at 1 2, outcome at 1, trace at 1.
  simpl fst. simpl snd. cbv beta iota.
  destruct (stft_outcome_short n (rows n (b * c) (data w)) Hshort) as [e He].
  rewrite trace_bind, He.
  unfold Torch.stft. rewrite trace_bind. simpl tell. unfold outcome at 1.
  simpl snd. cbv beta iota.
  destruct (rows n (b * c) (data w)); [reflexivity|].
  rewrite n_fft_half.
  destruct (Nat.ltb_spec 1024 n); [lia | reflexivity].
Qed.

(* ===================================================================== *)
(** ** Entries of fields *)
(* ===================================================================== *)

Lemma nth_map_in {A B} (f : A -> B) (l : list A) (k : nat) (da : A) (db : B) :
  (k < length l)%nat -> nth k (map f l) db = f (nth k l da).
Proof.
  intros Hk. rewrite (nth_indep _ db (f da)) by (rewrite length_map; exact Hk).
  apply map_nth.
Qed.

Lemma nth_linspace (a b : R) (steps k : nat) :
  (k < steps)%nat ->
  nth k (Torch.linspace a b steps) 0 = a + INR k * ((b - a) / INR (steps - 1)).
Proof.
  intros Hk. unfold Torch.linspace.
  apply (nth_map_seq (fun i => a + INR i * ((b - a) / INR (steps - 1)))).
  exact Hk.
Qed.

Lemma length_linspace (a b : R) (steps : nat) :
  length (Torch.linspace a b steps) = steps.
Proof. unfold Torch.linspace. rewrite length_map, length_seq. reflexivity. Qed.

Section MapFreq.
Context {A B : Type} (op : R -> A -> B) (v : list R).

Lemma nth_map_freq_row (field : list (list (list A))) (r : nat) :
  (r < length field)%nat ->
  nth r (map_freq op v field) [] =
  map2 (fun vk frames => map (op vk) frames) v (nth r field []).
Proof.
  intros Hr. unfold map_freq.
  rewrite (nth_map_in _ field r [] []) by exact Hr. reflexivity.
Qed.

Lemma nth_map_freq_bin (field : list (list (list A))) (r k : nat) :
  (r < length field)%nat -> (k < length (nth r field []))%nat ->
  (k < length v)%nat ->
  nth k (nth r (map_freq op v field) []) [] =
  map (op (nth k v 0)) (nth k (nth r field []) []).
Proof.
  intros Hr Hk Hv. rewrite nth_map_freq_row by exact Hr.
  apply (nth_map2 (fun vk frames => map (op vk) frames) v (nth r field [])
                  k 0 [] []); assumption.
Qed.

Lemma in_field_map_freq (field : list (list (list A))) (r k t : nat) :
  in_field field r k t -> (k < length v)%nat ->
  in_field (map_freq op v field) r k t.
Proof.
  intros (Hr & Hk & Ht) Hv. unfold in_field.
  rewrite nth_map_freq_bin by assumption.
  rewrite nth_map_freq_row by assumption.
  rewrite length_map_freq, length_map2, length_map.
  repeat split; try assumption. lia.
Qed.

Lemma at3_map_freq (field : list (list (list A))) (r k t : nat)
      (da : A) (db : B) :
  in_field field r k t -> (k < length v)%nat ->
  at3 db (map_freq op v field) r k t = op (nth k v 0) (at3 da field r k t).
Proof.
  intros (Hr & Hk & Ht) Hv. unfold at3.
  rewrite nth_map_freq_bin by assumption.
  apply nth_map_in. exact Ht.
Qed.

End MapFreq.

Lemma in_field_ones_like3 {A} (field : list (list (list A))) (r k t : nat) :
  in_field field r k t ->
  in_field (ones_like3 field) r k t /\ at3 Czero (ones_like3 field) r k t = Cone.
Proof.
  intros (Hr & Hk & Ht). unfold in_field, at3, ones_like3.
  rewrite (nth_map_in _ field r [] []) by exact Hr.
  rewrite (nth_map_in _ (nth r field []) k [] []) by exact Hk.
  rewrite !length_map. repeat split; try assumption.
  destruct (nth k (nth r field []) []) as [|a l] eqn:E; [simpl in Ht; lia|].
  apply (nth_map_in (fun _ => Cone) (a :: l) t a Czero). exact Ht.
Qed.

Lemma at3_mul3 (x y : list (list (list C))) (r k t : nat) :
  in_field x r k t -> in_field y r k t ->
  at3 Czero (mul3 x y) r k t = Cmul (at3 Czero x r k t) (at3 Czero y r k t).
Proof.
  intros (Hr & Hk & Ht) (Hr' & Hk' & Ht'). unfold at3, mul3.
  rewrite (nth_map2 _ x y r [] [] []) by assumption.
  rewrite (nth_map2 _ _ _ k [] [] []) by assumption.
  apply nth_map2; assumption.
Qed.

(** The gain-factor loop of the windowed strategies, one entry at a time:
    each band multiplies the entry by its profile at the entry's bin. *)
Lemma at3_gain_loop (profile : band * (R * R) -> list R)
      (bands : list (band * (R * R))) (ones : list (list (list C)))
      (r k t : nat) :
  in_field ones r k t ->
  Forall (fun entry => (k < length (profile entry))%nat) bands ->
  at3 Czero
      (fold_left (fun gf entry =>
                    map_freq (fun p z => Cscale z p) (profile entry) gf)
                 bands ones) r k t
  = fold_left (fun z entry => Cscale z (nth k (profile entry) 0)) bands
              (at3 Czero ones r k t)
  /\ in_field (fold_left (fun gf entry =>
                            map_freq (fun p z => Cscale z p) (profile entry) gf)
                         bands ones) r k t.
Proof.
  intros Hin Hall. revert ones Hin.
  induction Hall as [|e bands He _ IH]; intros ones Hin; simpl; [auto|].
  destruct (IH (map_freq (fun p z => Cscale z p) (profile e) ones))
    as [IH1 IH2].
  { apply in_field_map_freq; assumption. }
  split; [|exact IH2].
  rewrite IH1. f_equal.
  apply (at3_map_freq (fun p z => Cscale z p) (profile e) ones r k t
                      Czero Czero Hin He).
Qed.

(* ===================================================================== *)
(** ** Gains of 0 dB *)
(* ===================================================================== *)

Lemma db_to_linear_0 : db_to_linear 0 = 1.
Proof.
  unfold db_to_linear. replace (0 / 20) with 0 by lra.
  apply Rpower_O. lra.
Qed.

Lemma rfft_gain_zero (b : band) : rfft_gain zero_gains b = 1.
Proof. unfold rfft_gain. destruct b; simpl; apply db_to_linear_0. Qed.

Lemma hann_gain_linear_zero (b : band) : hann_gain_linear zero_gains b = 1.
Proof.
  unfold hann_gain_linear, hann_gain_db, hann_max_gain_db.
  replace (Rmin (gain_db_of zero_gains b) 12) with 0;
    [apply db_to_linear_0|].
  destruct b; simpl; unfold Rmin; destruct (Rle_dec 0 12); lra.
Qed.

Lemma subcomp_gain_linear_zero (b : band) :
  subcomp_gain_linear zero_gains b = 1.
Proof.
  unfold subcomp_gain_linear, subcomp_gain_db, subcomp_max_gain_db,
    subcomp_min_gain_db.
  replace (Rmax (Rmin (gain_db_of zero_gains b) 24) (-24)) with 0;
    [apply db_to_linear_0|].
  destruct b; simpl; unfold Rmax, Rmin; destruct (Rle_dec 0 24);
    try lra; destruct (Rle_dec 0 (-24)); lra.
Qed.

Lemma gaussian_gain_unit (center_freq divisor f : R) :
  gaussian_gain 1 center_freq divisor f = 1.
Proof. unfold gaussian_gain. ring. Qed.

Lemma Cscale_1 (z : C) : Cscale z 1 = z.
Proof. destruct z as [a b]. unfold Cscale. simpl. f_equal; ring. Qed.

Lemma Cmul_1_r (z : C) : Cmul z Cone = z.
Proof. destruct z as [a b]. unfold Cmul, Cone. simpl. f_equal; ring. Qed.

Lemma in_field_mul3 (x y : list (list (list C))) (r k t : nat) :
  in_field x r k t -> in_field y r k t -> in_field (mul3 x y) r k t.
Proof.
  intros (Hr & Hk & Ht) (Hr' & Hk' & Ht'). unfold in_field, mul3.
  rewrite (nth_map2 _ x y r [] [] []) by assumption.
  rewrite (nth_map2 _ _ _ k [] [] []) by assumption.
  rewrite !length_map2. repeat split; lia.
Qed.

Lemma unit_gain_loop (profile : band * (R * R) -> list R)
      (bands : list (band * (R * R))) (k : nat) (z : C) :
  Forall (fun entry => nth k (profile entry) 0 = 1) bands ->
  fold_left (fun z entry => Cscale z (nth k (profile entry) 0)) bands z = z.
Proof.
  intros Hall. revert z.
  induction Hall as [|e bands He _ IH]; intros z; simpl; [reflexivity|].
  rewrite He, Cscale_1. apply IH.
Qed.

(** With every gain at 0 dB the gain-factor field of [process_hann] is 1
    throughout and the transform passes unchanged. *)
Lemma hann_stft_eq_zero_gains (sr : R) (s : list (list (list C)))
      (r k t : nat) :
  in_field s r k t -> (k < n_freq_bins)%nat ->
  at3 Czero (hann_stft_eq zero_gains sr s) r k t = at3 Czero s r k t.
Proof.
  intros Hin Hk. unfold hann_stft_eq, hann_gain_factors.
  destruct (in_field_ones_like3 s r k t Hin) as [Hin1 Hone].
  set (profile := fun entry : band * (R * R) =>
         hann_gain_profile (hann_gain_linear zero_gains (fst entry))
           (snd entry) (Torch.linspace 0 (sr / 2) n_freq_bins)).
  destruct (at3_gain_loop profile (hann_bands sr) (ones_like3 s) r k t Hin1)
    as [Hval Hin2].
  { apply Forall_forall. intros e _. unfold profile, hann_gain_profile.
    rewrite length_map, length_linspace. exact Hk. }
  rewrite at3_mul3 by assumption.
  replace (at3 Czero
              (fold_left
                 (fun gf entry =>
                    map_freq (fun p z => Cscale z p)
                      (hann_gain_profile
                         (hann_gain_linear zero_gains (fst entry))
                         (snd entry) (Torch.linspace 0 (sr / 2) n_freq_bins))
                      gf)
                 (hann_bands sr) (ones_like3 s)) r k t)
    with Cone; [apply Cmul_1_r|].
  symmetry. etransitivity; [exact Hval|].
  rewrite unit_gain_loop; [exact Hone|].
  apply Forall_forall. intros e _. unfold profile, hann_gain_profile.
  rewrite (nth_map_in _ _ k 0 0) by (rewrite length_linspace; exact Hk).
  rewrite hann_gain_linear_zero. apply gaussian_gain_unit.
Qed.

Lemma subcomp_stft_eq_zero_gains (sr : R) (s : list (list (list C)))
      (r k t : nat) :
  in_field s r k t -> (k < n_freq_bins)%nat ->
  at3 Czero (subcomp_stft_eq zero_gains sr s) r k t = at3 Czero s r k t /\
  in_field (subcomp_stft_eq zero_gains sr s) r k t.
Proof.
  intros Hin Hk. unfold subcomp_stft_eq, subcomp_gain_factors.
  destruct (in_field_ones_like3 s r k t Hin) as [Hin1 Hone].
  set (profile := fun entry : band * (R * R) =>
         subcomp_gain_profile (subcomp_gain_linear zero_gains (fst entry))
           (snd entry) (Torch.linspace 0 (sr / 2) n_freq_bins)).
  destruct (at3_gain_loop profile (subcomp_bands sr) (ones_like3 s) r k t Hin1)
    as [Hval Hin2].
  { apply Forall_forall. intros e _. unfold profile, subcomp_gain_profile.
    rewrite length_map, length_linspace. exact Hk. }
  split; [|apply in_field_mul3; assumption].
  rewrite at3_mul3 by assumption.
  replace (at3 Czero
              (fold_left
                 (fun gf entry =>
                    map_freq (fun p z => Cscale z p)
                      (subcomp_gain_profile
                         (subcomp_gain_linear zero_gains (fst entry))
                         (snd entry) (Torch.linspace 0 (sr / 2) n_freq_bins))
                      gf)
                 (subcomp_bands sr) (ones_like3 s)) r k t)
    with Cone; [apply Cmul_1_r|].
  symmetry. etransitivity; [exact Hval|].
  rewrite unit_gain_loop; [exact Hone|].
  apply Forall_forall. intros e _. unfold profile, subcomp_gain_profile.
  rewrite (nth_map_in _ _ k 0 0) by (rewrite length_linspace; exact Hk).
  rewrite subcomp_gain_linear_zero. apply gaussian_gain_unit.
Qed.

(* ===================================================================== *)
(** ** The inverse transform undoes the transform *)
(* ===================================================================== *)

Lemma sum_n_ext (n : nat) (f g : nat -> R) :
  (forall i, (i < n)%nat -> f i = g i) -> sum_n n f = sum_n n g.
Proof.
  induction n as [|n IH]; intros H; simpl; [reflexivity|].
  rewrite IH, H by (intros; try apply H; lia). reflexivity.
Qed.

Lemma sum_n_scal (c : R) (n : nat) (f : nat -> R) :
  c * sum_n n f = sum_n n (fun i => c * f i).
Proof. induction n as [|n IH]; simpl; [ring|]. rewrite <- IH. ring. Qed.

Lemma sum_n_plus (n : nat) (f g : nat -> R) :
  sum_n n f + sum_n n g = sum_n n (fun i => f i + g i).
Proof. induction n as [|n IH]; simpl; [ring|]. rewrite <- IH. ring. Qed.

Lemma sum_n_zero (n : nat) : sum_n n (fun _ => 0) = 0.
Proof. induction n as [|n IH]; simpl; [reflexivity|]. rewrite IH. ring. Qed.

Lemma sum_n_const (n : nat) (c : R) : sum_n n (fun _ => c) = INR n * c.
Proof.
  induction n as [|n IH]; [simpl; ring|].
  rewrite S_INR. simpl. rewrite IH. ring.
Qed.

Lemma sum_n_swap (n m : nat) (f : nat -> nat -> R) :
  sum_n n (fun i => sum_n m (fun j => f i j))
  = sum_n m (fun j => sum_n n (fun i => f i j)).
Proof.
  induction n as [|n IH]; simpl.
  - symmetry. apply sum_n_zero.
  - rewrite IH. apply sum_n_plus.
Qed.

Lemma sum_n_delta (n m : nat) (c : nat -> R) :
  (m < n)%nat ->
  sum_n n (fun i => if (i =? m)%nat then c i else 0) = c m.
Proof.
  induction n as [|n IH]; intros Hm; [lia|]. simpl.
  destruct (Nat.eqb_spec n m) as [->|Hne].
  - rewrite (sum_n_ext m _ (fun _ => 0)).
    + rewrite sum_n_zero. ring.
    + intros i Hi. destruct (Nat.eqb_spec i m); [lia | reflexivity].
  - rewrite IH by lia. ring.
Qed.

Lemma sin_shift (y : R) (m n : nat) :
  sin (y + 2 * PI * (INR m - INR n)) = sin y.
Proof.
  rewrite <- (sin_period (y + 2 * PI * (INR m - INR n)) n).
  replace (y + 2 * PI * (INR m - INR n) + 2 * INR n * PI)
    with (y + 2 * INR m * PI) by ring.
  apply sin_period.
Qed.

Lemma cos_shift (y : R) (n : nat) : cos (2 * PI * INR n - y) = cos y.
Proof.
  replace (2 * PI * INR n - y) with (- y + 2 * INR n * PI) by ring.
  rewrite cos_period. apply cos_neg.
Qed.

Lemma sin_shift_neg (y : R) (n : nat) : sin (2 * PI * INR n - y) = - sin y.
Proof.
  replace (2 * PI * INR n - y) with (- y + 2 * INR n * PI) by ring.
  rewrite sin_period. apply sin_neg.
Qed.

(** Lagrange's identity for a sum of cosines. *)
Lemma sum_cos_telescope (a : R) (n : nat) :
  2 * sin (a / 2) * sum_n n (fun j => cos (INR j * a))
  = sin ((INR n - 1 / 2) * a) + sin (a / 2).
Proof.
  induction n as [|n IH].
  - simpl. replace ((0 - 1 / 2) * a) with (- (a / 2)) by lra.
    rewrite sin_neg. ring.
  - simpl sum_n. rewrite Rmult_plus_distr_l, IH. rewrite S_INR.
    replace ((INR n + 1 - 1 / 2) * a) with (INR n * a + a / 2) by lra.
    replace ((INR n - 1 / 2) * a) with (INR n * a - a / 2) by lra.
    rewrite sin_plus, sin_minus. ring.
Qed.

Lemma sum_cos_orthogonal (N m n : nat) :
  (m < N)%nat -> (n < N)%nat ->
  sum_n N (fun j => cos (Dft.theta N j m - Dft.theta N j n))
  = if (n =? m)%nat then INR N else 0.
Proof.
  intros Hm Hn.
  assert (HN : 0 < INR N) by (apply lt_0_INR; lia).
  set (a := 2 * PI * (INR m - INR n) / INR N).
  rewrite (sum_n_ext N _ (fun j => cos (INR j * a))).
  2:{ intros j _. f_equal. unfold Dft.theta, a. field. lra. }
  destruct (Nat.eqb_spec n m) as [->|Hne].
  - rewrite (sum_n_ext N _ (fun _ => 1)).
    + rewrite sum_n_const. ring.
    + intros j _. unfold a. replace (INR m - INR m) with 0 by ring.
      replace (INR j * (2 * PI * 0 / INR N)) with 0 by (field; lra).
      apply cos_0.
  - pose proof (sum_cos_telescope a N) as Htel.
    assert (Hper : sin ((INR N - 1 / 2) * a) = - sin (a / 2)).
    { replace ((INR N - 1 / 2) * a)
        with (- (a / 2) + 2 * PI * (INR m - INR n))
        by (unfold a; field; lra).
      rewrite sin_shift. apply sin_neg. }
    rewrite Hper in Htel.
    assert (Hsin : sin (a / 2) <> 0).
    { pose proof PI_RGT_0 as Hpi.
      assert (Ha : a / 2 = PI * ((INR m - INR n) / INR N))
        by (unfold a; field; lra).
      destruct (Nat.lt_total m n) as [Hlt | [Heq | Hgt]]; [| lia |].
      - apply Rlt_not_eq. apply sin_lt_0_var.
        + rewrite Ha.
          assert (-1 < (INR m - INR n) / INR N).
          { apply (Rmult_lt_reg_r (INR N)); [exact HN|].
            unfold Rdiv. rewrite Rmult_assoc, Rinv_l by lra.
            apply lt_INR in Hn. pose proof (pos_INR m). lra. }
          nra.
        + rewrite Ha.
          assert ((INR m - INR n) / INR N < 0).
          { apply (Rmult_lt_reg_r (INR N)); [exact HN|].
            unfold Rdiv. rewrite Rmult_assoc, Rinv_l by lra.
            apply lt_INR in Hlt. lra. }
          nra.
      - apply Rgt_not_eq. apply sin_gt_0.
        + rewrite Ha.
          assert (0 < (INR m - INR n) / INR N).
          { apply Rdiv_lt_0_compat; [|exact HN]. apply lt_INR in Hgt. lra. }
          nra.
        + rewrite Ha.
          assert ((INR m - INR n) / INR N < 1).
          { apply (Rmult_lt_reg_r (INR N)); [exact HN|].
            unfold Rdiv. rewrite Rmult_assoc, Rinv_l by lra.
            apply lt_INR in Hm. pose proof (pos_INR n). lra. }
          nra. }
    apply (Rmult_eq_reg_l (2 * sin (a / 2))); [|lra].
    rewrite Htel. ring.
Qed.

Section Inversion.
Variable x : list R.
Hypothesis x_nonempty : (0 < length x)%nat.
Local Abbreviation N := (length x).

(** The one-sided spectrum of a real row stands for its full spectrum. *)
Lemma hermitian_full_rfft (j : nat) :
  (j < N)%nat ->
  Dft.hermitian_full N (Dft.rfft_row x) j = Dft.rfft_coef x j.
Proof.
  intros Hj. unfold Dft.hermitian_full, Dft.rfft_row.
  assert (HN : 0 < INR N) by (apply lt_0_INR; lia).
  destruct (Nat.leb_spec j (N / 2)) as [Hle | Hgt].
  - apply nth_map_seq. lia.
  - rewrite (nth_map_seq (Dft.rfft_coef x)).
    2:{ pose proof (Nat.div_mod_eq N 2).
        pose proof (Nat.mod_upper_bound N 2). lia. }
    unfold Dft.rfft_coef, Cconj. simpl fst. simpl snd.
    assert (Hth : forall n, Dft.theta N (N - j) n
                            = 2 * PI * INR n - Dft.theta N j n).
    { intros n. unfold Dft.theta. rewrite minus_INR by lia. field. lra. }
    f_equal.
    + apply sum_n_ext. intros n _. rewrite Hth, cos_shift. reflexivity.
    + rewrite Ropp_involutive.
      replace (- sum_n N (fun n => nth n x 0 * sin (Dft.theta N j n)))
        with (-1 * sum_n N (fun n => nth n x 0 * sin (Dft.theta N j n)))
        by ring.
      rewrite sum_n_scal.
      apply sum_n_ext. intros n _. rewrite Hth, sin_shift_neg. ring.
Qed.

(** Term [j] of the inverse sum, written over the samples. *)
Lemma irfft_term (j m : nat) :
  (j < N)%nat ->
  fst (Cmul (Dft.hermitian_full N (Dft.rfft_row x) j)
            (Cexp_i (Dft.theta N j m)))
  = sum_n N (fun n => nth n x 0
                      * cos (Dft.theta N j m - Dft.theta N j n)).
Proof.
  intros Hj. rewrite hermitian_full_rfft by exact Hj.
  unfold Dft.rfft_coef, Cmul, Cexp_i. simpl fst. simpl snd.
  replace (sum_n N (fun n => nth n x 0 * cos (Dft.theta N j n))
           * cos (Dft.theta N j m)
           - - sum_n N (fun n => nth n x 0 * sin (Dft.theta N j n))
             * sin (Dft.theta N j m))
    with (cos (Dft.theta N j m)
          * sum_n N (fun n => nth n x 0 * cos (Dft.theta N j n))
          + sin (Dft.theta N j m)
            * sum_n N (fun n => nth n x 0 * sin (Dft.theta N j n)))
    by ring.
  rewrite !sum_n_scal, sum_n_plus.
  apply sum_n_ext. intros n _. rewrite cos_minus. ring.
Qed.

Lemma irfft_sample_rfft (m : nat) :
  (m < N)%nat -> Dft.irfft_sample N (Dft.rfft_row x) m = nth m x 0.
Proof.
  intros Hm. unfold Dft.irfft_sample.
  assert (HN : 0 < INR N) by (apply lt_0_INR; lia).
  rewrite (sum_n_ext N _
             (fun j => sum_n N (fun n => nth n x 0
                          * cos (Dft.theta N j m - Dft.theta N j n))))
    by (intros j Hj; apply irfft_term; exact Hj).
  rewrite sum_n_swap.
  rewrite (sum_n_ext N _
             (fun n => if (n =? m)%nat then nth n x 0 * INR N else 0)).
  - rewrite (sum_n_delta N m (fun n => nth n x 0 * INR N)) by exact Hm.
    field. lra.
  - intros n Hn. rewrite <- sum_n_scal, sum_cos_orthogonal by assumption.
    destruct (n =? m)%nat; ring.
Qed.

(** [irfft(rfft(x), n=len(x))] is [x]. *)
Lemma irfft_rfft_row : Dft.irfft_row N (Dft.rfft_row x) = x.
Proof.
  apply (nth_ext _ _ 0 0).
  - apply length_irfft_row.
  - intros m Hm. rewrite length_irfft_row in Hm.
    unfold Dft.irfft_row.
    rewrite (nth_map_seq (Dft.irfft_sample N (Dft.rfft_row x))) by exact Hm.
    apply irfft_sample_rfft. exact Hm.
Qed.

End Inversion.

(* ===================================================================== *)
(** ** C1: shape and sample rate *)
(* ===================================================================== *)

(** C1.  For a valid input with at least one batch element,
    [process_rfft] returns a waveform of the input's shape [[b; c; n]]
    (storage included) together with the input's sample rate; [process_hann]
    and [process_subcomp] do so when the rows hold more than 1024 samples,
    the reflect padding of the centred transform. *)
Theorem strategies_preserve_shape ai w sr b c n (g : gains) :
  valid_input ai w sr b c n -> (0 < b)%nat ->
  returns_like (outcome (process_rfft ai g)) sr b c n /\
  ((1024 < n)%nat ->
   returns_like (outcome (process_hann ai g)) sr b c n /\
   returns_like (outcome (process_subcomp ai g)) sr b c n).
Proof.
  intros Hv Hb. split; [eapply process_rfft_returns; eauto|].
  intros Hn. split;
    [eapply process_hann_returns | eapply process_subcomp_returns]; eauto.
Qed.

Lemma strategies_preserve_shape_witness :
  returns_like (outcome (process_rfft (input_of long_waveform 44100) zero_gains))
               44100 1 1 1025 /\
  returns_like (outcome (process_hann (input_of long_waveform 44100) zero_gains))
               44100 1 1 1025 /\
  returns_like (outcome (process_subcomp (input_of long_waveform 44100)
                                         zero_gains))
               44100 1 1 1025.
Proof.
  destruct (strategies_preserve_shape _ _ _ _ _ _ zero_gains valid_long
              ltac:(lia)) as [H1 H2].
  split; [exact H1 | apply H2; lia].
Defined.

(** C1 does not extend to every valid input: a row of 100 samples is
    refused by the reflect padding of both windowed strategies, and an
    empty batch is refused by [torch.max]; nothing is returned. *)
Lemma short_and_empty_inputs_raise :
  valid_input (input_of short_waveform 44100) short_waveform 44100 1 1 100 /\
  ~ returns_like
      (outcome (process_hann (input_of short_waveform 44100) zero_gains))
      44100 1 1 100 /\
  ~ returns_like
      (outcome (process_subcomp (input_of short_waveform 44100) zero_gains))
      44100 1 1 100 /\
  valid_input (input_of empty_batch_waveform 44100)
              empty_batch_waveform 44100 0 1 4 /\
  ~ returns_like
      (outcome (process_rfft (input_of empty_batch_waveform 44100) zero_gains))
      44100 0 1 4.
Proof.
  split; [exact valid_short|].
  split; [apply raise_not_returns;
          apply (process_hann_short _ _ _ _ _ _ _ valid_short); lia|].
  split; [apply raise_not_returns;
          apply (process_subcomp_short _ _ _ _ _ _ _ valid_short); lia|].
  split; [exact valid_empty_batch|].
  apply raise_not_returns.
  apply (process_rfft_empty_batch _ _ _ _ _ _ valid_empty_batch).
Qed.

(* ===================================================================== *)
(** ** C2: peak normalization *)
(* ===================================================================== *)

Lemma normalize_then_ret (t : tensor) (sr : R) (out : audio) :
  outcome (bind (lift (normalize_waveform t))
                (fun normalized => ret (mkAudio normalized sr))) = Ok out ->
  peak_le_1 (waveform out).
Proof.
  intros H. apply outcome_bind_ok in H. destruct H as [w' [Hw' Hout]].
  unfold lift, outcome in Hw'. simpl in Hw'.
  unfold ret, outcome in Hout. simpl in Hout. injection Hout as <-.
  simpl. eapply normalize_waveform_peak_le_1; eauto.
Qed.

Ltac bind_inv H :=
  let a := fresh "a" in
  let Ha := fresh "Ha" in
  apply outcome_bind_ok in H; destruct H as [a [Ha H]].

Lemma process_peak_le_1 ai (m : method) (g : gains) (out : audio) :
  outcome (process ai m g) = Ok out -> peak_le_1 (waveform out).
Proof.
  destruct m; unfold process; intros H.
  - unfold process_hann in H. do 5 bind_inv H.
    eapply normalize_then_ret; eauto.
  - unfold process_subcomp in H. do 5 bind_inv H.
    eapply normalize_then_ret; eauto.
  - unfold process_rfft in H. do 3 bind_inv H.
    eapply normalize_then_ret; eauto.
Qed.

(** [process_hann] divides by zero exactly when the brilliance band is
    empty, that is at a sample rate of 12000 Hz. *)
Lemma hann_divisor_zero_iff (sr : R) :
  (exists entry, In entry (hann_bands sr) /\ hann_divisor (snd entry) = 0)
  <-> sr = 12000.
Proof.
  unfold hann_divisor, hann_bandwidth. split.
  - intros [entry [Hin Hz]]. simpl in Hin.
    repeat (destruct Hin as [<- | Hin]; [simpl in Hz; lra|]).
    destruct Hin.
  - intros ->. exists (Brilliance, (6000, 12000 / 2)). split.
    + simpl. tauto.
    + simpl. lra.
Qed.

(** C2.  On a non-empty buffer [normalize_waveform] finds the largest
    absolute sample value [max_val] and returns a buffer of the same shape:
    the input itself when [max_val <= 1], and otherwise the buffer whose
    samples are those of the input, each divided by [max_val].  Hence the
    waveform returned by a strategy has every sample within [[-1, 1]], and
    a waveform is returned for every valid input with a batch element whose
    rows exceed 1024 samples when the strategy is a windowed one.  Both
    hold for every run that does not divide by zero, which leaves out
    exactly one: [process_hann] at a sample rate of 12000 Hz, the only
    sample rate at which a divisor of its profile loop is zero.  There the
    program's output is NaN and the invariant fails. *)
Theorem normalization_invariant :
  (forall w, data w <> [] ->
     exists max_val w',
       max_abs (data w) = Ok max_val /\ is_max_abs max_val (data w) /\
       normalize_waveform w = Ok w' /\ shape w' = shape w /\
       (max_val <= 1 -> w' = w) /\
       (1 < max_val -> data w' = map (fun x => x / max_val) (data w))) /\
  (forall ai (m : method) (g : gains) out,
     (m = Hann -> in_sample_rate ai <> Some 12000) ->
     outcome (process ai m g) = Ok out -> peak_le_1 (waveform out)) /\
  (forall ai w sr b c n (m : method) (g : gains),
     valid_input ai w sr b c n -> (0 < b)%nat ->
     m = Rfft \/ (1024 < n)%nat ->
     (m = Hann -> sr <> 12000) ->
     exists out,
       outcome (process ai m g) = Ok out /\ peak_le_1 (waveform out)) /\
  (forall sr,
     sr = 12000 <->
     exists entry, In entry (hann_bands sr) /\ hann_divisor (snd entry) = 0).
Proof.
  split; [|split; [|split]].
  - intros w Hw. destruct (max_abs_is_max _ Hw) as [m [Hm Hmax]].
    unfold normalize_waveform. rewrite Hm.
    destruct (Rlt_dec 1 m) as [Hgt | Hle].
    + exists m, (tensor_div w m). split; [reflexivity|].
      split; [exact Hmax|]. split; [reflexivity|]. split; [reflexivity|].
      split; [lra | reflexivity].
    + exists m, w. split; [reflexivity|].
      split; [exact Hmax|]. split; [reflexivity|]. split; [reflexivity|].
      split; [reflexivity | lra].
  - intros ai m g out _ Hout. eapply process_peak_le_1; eauto.
  - intros ai w sr b c n m g Hv Hb Hm _.
    assert (Hret : returns_like (outcome (process ai m g)) sr b c n).
    { destruct m; unfold process.
      - destruct Hm as [Hm | Hm]; [discriminate|].
        eapply process_hann_returns; eauto.
      - destruct Hm as [Hm | Hm]; [discriminate|].
        eapply process_subcomp_returns; eauto.
      - eapply process_rfft_returns; eauto. }
    destruct Hret as [out [Hout _]]. exists out. split; [exact Hout|].
    eapply process_peak_le_1; eauto.
  - intros sr. symmetry. apply hann_divisor_zero_iff.
Qed.

Lemma normalization_invariant_witness :
  (exists w',
     normalize_waveform loud_waveform = Ok w' /\
     data w' = map (fun x => x / 4) (data loud_waveform)) /\
  (exists out,
     outcome (process (input_of tiny_waveform 44100) Rfft zero_gains) = Ok out /\
     peak_le_1 (waveform out)) /\
  (exists out,
     outcome (process (input_of long_waveform 44100) Hann zero_gains) = Ok out /\
     peak_le_1 (waveform out)).
Proof.
  split; [|split].
  - destruct (proj1 normalization_invariant loud_waveform)
      as [m [w' [Hm [_ [Hw' [_ [_ Hgt]]]]]]].
    + simpl. discriminate.
    + assert (Hm4 : m = 4).
      { simpl in Hm. injection Hm as <-.
        unfold Rmax, Rabs; repeat destruct Rcase_abs;
          repeat destruct Rle_dec; lra. }
      exists w'. split; [exact Hw'|]. rewrite <- Hm4. apply Hgt. lra.
  - destruct (process_rfft_returns _ _ _ _ _ _ zero_gains valid_tiny)
      as [out [Hout _]]; [lia|].
    exists out. split; [exact Hout|].
    apply (proj1 (proj2 normalization_invariant)
                 (input_of tiny_waveform 44100) Rfft zero_gains out);
      [discriminate | exact Hout].
  - apply (proj1 (proj2 (proj2 normalization_invariant)) _ long_waveform 44100
                 1%nat 1%nat 1025%nat Hann zero_gains valid_long); [lia | |].
    + right. lia.
    + intros _. lra.
Defined.

(* ===================================================================== *)
(** ** C3: validation failures *)
(* ===================================================================== *)

Lemma bind_raise {A B} (e : exn) (f : A -> M B) : bind (raise e) f = raise e.
Proof. reflexivity. Qed.

Lemma process_validate_raise ai (m : method) (g : gains) (e : exn) :
  validate ai = raise e -> process ai m g = raise e.
Proof.
  intros H. destruct m; unfold process, process_hann, process_subcomp,
    process_rfft; rewrite H; apply bind_raise.
Qed.

Lemma validate_missing ai :
  in_waveform ai = None \/ in_sample_rate ai = None ->
  validate ai = raise (ValueError missing_msg).
Proof.
  unfold validate. intros [H | H]; rewrite H; auto.
  destruct (in_waveform ai); reflexivity.
Qed.

Lemma validate_not_tensor ai sr :
  in_waveform ai = Some PyOther -> in_sample_rate ai = Some sr ->
  validate ai = raise (TypeError not_tensor_msg).
Proof. unfold validate. intros -> ->. reflexivity. Qed.

Lemma validate_not_3d ai w sr :
  in_waveform ai = Some (PyTensor w) -> in_sample_rate ai = Some sr ->
  length (shape w) <> 3%nat ->
  validate ai = raise (ValueError not_3d_msg).
Proof.
  unfold validate. intros -> -> Hrank.
  destruct (shape w) as [|b [|c [|n [|x l]]]]; simpl in Hrank;
    try reflexivity; lia.
Qed.

Lemma validate_channels ai w sr b c n :
  in_waveform ai = Some (PyTensor w) -> in_sample_rate ai = Some sr ->
  shape w = [b; c; n] -> c <> 1%nat -> c <> 2%nat ->
  validate ai = raise (ValueError (channels_msg c)).
Proof.
  unfold validate. intros -> -> -> H1 H2.
  destruct (Nat.eqb_spec c 1); [contradiction|].
  destruct (Nat.eqb_spec c 2); [contradiction|]. reflexivity.
Qed.

(** C3.  Whatever the strategy: a missing waveform or sample
    rate raises [ValueError] with the message of line 93; a waveform that is
    not a tensor raises [TypeError]; a tensor of rank other than 3 raises
    [ValueError] with the message of line 99; a channel count other than 1
    or 2 raises [ValueError] whose message spells the count in decimal.  The
    whole run is then just that exception: the log of transform calls is
    empty and nothing is returned. *)
Theorem validation_failures ai (m : method) (g : gains) :
  (in_waveform ai = None \/ in_sample_rate ai = None ->
   process ai m g = ([], Raise (ValueError missing_msg))) /\
  (forall sr,
     in_waveform ai = Some PyOther -> in_sample_rate ai = Some sr ->
     process ai m g = ([], Raise (TypeError not_tensor_msg))) /\
  (forall w sr,
     in_waveform ai = Some (PyTensor w) -> in_sample_rate ai = Some sr ->
     length (shape w) <> 3%nat ->
     process ai m g = ([], Raise (ValueError not_3d_msg))) /\
  (forall w sr b c n,
     in_waveform ai = Some (PyTensor w) -> in_sample_rate ai = Some sr ->
     shape w = [b; c; n] -> c <> 1%nat -> c <> 2%nat ->
     process ai m g =
     ([], Raise (ValueError
                   ("Unsupported number of channels: " ++ nat_to_string c
                    ++ ". Only mono and stereo are supported.")%string))).
Proof.
  repeat split; intros.
  - apply process_validate_raise, validate_missing; assumption.
  - eapply process_validate_raise, validate_not_tensor; eassumption.
  - eapply process_validate_raise, validate_not_3d; eassumption.
  - eapply process_validate_raise.
    eapply (validate_channels ai w sr b c n); eassumption.
Qed.

Lemma validation_failures_witness :
  process (mkInput None (Some 44100)) Rfft zero_gains
  = ([], Raise (ValueError missing_msg)) /\
  process (mkInput (Some PyOther) (Some 44100)) Hann zero_gains
  = ([], Raise (TypeError not_tensor_msg)) /\
  process (input_of flat_waveform 44100) Subcomp zero_gains
  = ([], Raise (ValueError not_3d_msg)) /\
  process (input_of surround_waveform 44100) Hann zero_gains
  = ([], Raise (ValueError
       "Unsupported number of channels: 3. Only mono and stereo are supported.")).
Proof.
  split; [|split; [|split]].
  - apply (proj1 (validation_failures _ Rfft zero_gains)). left. reflexivity.
  - apply (proj1 (proj2 (validation_failures _ Hann zero_gains)) 44100);
      reflexivity.
  - apply (proj1 (proj2 (proj2 (validation_failures _ Subcomp zero_gains)))
             flat_waveform 44100); simpl; auto.
  - apply (proj2 (proj2 (proj2 (validation_failures _ Hann zero_gains)))
             surround_waveform 44100 1%nat 3%nat 4%nat); simpl; auto.
Defined.

(** C3, the exception classes: the exceptions raised for a missing entry,
    for a two-dimensional waveform and for three channels all belong to the
    class [ValueError]; none is a [MissingInputError], a [ShapeError] or
    an [UnsupportedChannelError]. *)
Lemma validation_classes_counterexample :
  (exists e,
     outcome (process_rfft (mkInput None (Some 44100)) zero_gains) = Raise e /\
     exn_class e = "ValueError"%string /\
     exn_class e <> "MissingInputError"%string) /\
  (exists e,
     outcome (process_rfft (input_of flat_waveform 44100) zero_gains)
     = Raise e /\
     exn_class e = "ValueError"%string /\
     exn_class e <> "ShapeError"%string) /\
  (exists e,
     outcome (process_rfft (input_of surround_waveform 44100) zero_gains)
     = Raise e /\
     exn_class e = "ValueError"%string /\
     exn_class e <> "UnsupportedChannelError"%string).
Proof.
  repeat split; eexists; (split; [reflexivity | split; [reflexivity|]]);
    simpl; discriminate.
Qed.

(* ===================================================================== *)
(** ** C4: gains of 0 dB through process_rfft *)
(* ===================================================================== *)

Lemma row_succ (n : nat) (d : list R) (i : nat) :
  row n d (S i) = row n (skipn n d) i.
Proof.
  unfold row. rewrite skipn_skipn. f_equal. f_equal. simpl. lia.
Qed.

Lemma rows_succ (n count : nat) (d : list R) :
  rows n (S count) d = firstn n d :: rows n count (skipn n d).
Proof.
  unfold rows. simpl seq. simpl map. f_equal.
  rewrite <- seq_shift, map_map. apply map_ext. intros i. apply row_succ.
Qed.

Lemma concat_rows (n count : nat) (d : list R) :
  length d = (count * n)%nat -> concat (rows n count d) = d.
Proof.
  revert d; induction count as [|count IH]; intros d Hlen.
  - simpl in Hlen. destruct d; [reflexivity | discriminate].
  - rewrite rows_succ. simpl concat. rewrite IH.
    + apply firstn_skipn.
    + rewrite length_skipn, Hlen. simpl. lia.
Qed.

Lemma rows_uniform (n count : nat) (d : list R) :
  length d = (count * n)%nat ->
  Forall (fun x => length x = n) (rows n count d).
Proof.
  revert d; induction count as [|count IH]; intros d Hlen.
  - constructor.
  - rewrite rows_succ. constructor.
    + rewrite length_firstn, Hlen. simpl. lia.
    + apply IH. rewrite length_skipn, Hlen. simpl. lia.
Qed.

Lemma map2_unit_scale (freq : list R) (rng : R * R) (gf_row : list C) :
  (length gf_row <= length freq)%nat ->
  map2 (fun f z => if band_mask f (fst rng) (snd rng)
                   then Cscale z 1 else z) freq gf_row = gf_row.
Proof.
  revert gf_row; induction freq as [|f freq IH]; intros [|z gf_row] Hlen;
    simpl in *; try reflexivity; try lia.
  rewrite IH by lia. rewrite Cscale_1. destruct band_mask; reflexivity.
Qed.

Lemma rfft_apply_band_unit (freq : list R) (rng : R * R)
      (gf : list (list C)) :
  Forall (fun gf_row => (length gf_row <= length freq)%nat) gf ->
  rfft_apply_band freq 1 rng gf = gf.
Proof.
  induction 1 as [|gf_row gf Hrow _ IH]; [reflexivity|].
  unfold rfft_apply_band in *. simpl. rewrite IH.
  rewrite map2_unit_scale by exact Hrow. reflexivity.
Qed.

(** With every gain at 0 dB the loop of [process_rfft] leaves the field of
    ones as it is. *)
Lemma rfft_gain_factors_zero (freq : list R) (ones : list (list C)) :
  Forall (fun gf_row => (length gf_row <= length freq)%nat) ones ->
  rfft_gain_factors zero_gains freq ones = ones.
Proof.
  intros Hfit. unfold rfft_gain_factors. generalize rfft_bands.
  intros bands. induction bands as [|e bands IH]; simpl; [reflexivity|].
  rewrite rfft_gain_zero, rfft_apply_band_unit by exact Hfit. exact IH.
Qed.

Lemma map2_Cmul_ones (spec_row : list C) :
  map2 Cmul spec_row (map (fun _ => Cone) spec_row) = spec_row.
Proof.
  induction spec_row as [|z l IH]; simpl; [reflexivity|].
  rewrite IH, Cmul_1_r. reflexivity.
Qed.

Lemma mul_ones_like2 (spec : list (list C)) :
  map2 (map2 Cmul) spec (ones_like2 spec) = spec.
Proof.
  unfold ones_like2. induction spec as [|r l IH]; simpl; [reflexivity|].
  rewrite IH, map2_Cmul_ones. reflexivity.
Qed.

Lemma outcome_normalize_tail (r : result tensor) (sr : R) :
  outcome (bind (lift r) (fun normalized => ret (mkAudio normalized sr)))
  = match r with Ok t => Ok (mkAudio t sr) | Raise e => Raise e end.
Proof. destruct r; reflexivity. Qed.

Lemma irfft_rfft_rows (n : nat) (rws : list (list R)) :
  (0 < n)%nat -> Forall (fun x => length x = n) rws ->
  map (Dft.irfft_row n) (map Dft.rfft_row rws) = rws.
Proof.
  intros Hn Hall. rewrite map_map.
  induction Hall as [|x rws Hx _ IH]; simpl; [reflexivity|].
  rewrite IH. f_equal. rewrite <- Hx. apply irfft_rfft_row. lia.
Qed.

(** The steps of [process_rfft] on a valid input when all gains are 0 dB. *)
Lemma process_rfft_zero_gains ai w sr b c n :
  valid_input ai w sr b c n ->
  let spectrum := map Dft.rfft_row (rows n (b * c) (data w)) in
  rfft_gain_factors zero_gains (Torch.linspace 0 (sr / 2) (n / 2 + 1))
                    (ones_like2 spectrum) = ones_like2 spectrum /\
  outcome (process_rfft ai zero_gains)
  = match normalize_waveform
            (mkTensor [b; c; n] (concat (map (Dft.irfft_row n) spectrum))) with
    | Ok t => Ok (mkAudio t sr)
    | Raise e => Raise e
    end /\
  mkTensor [b; c; n] (concat (map (Dft.irfft_row n) spectrum)) = w.
Proof.
  intros Hv spectrum. pose proof Hv as (_ & _ & Hsh & Hc & Hn & Hwf).
  unfold wf_tensor in Hwf. rewrite Hsh in Hwf. simpl in Hwf.
  assert (Hlen : length (data w) = (b * c * n)%nat) by lia.
  pose proof (rows_uniform n (b * c) (data w) Hlen) as Hrows.
  assert (Hones : rfft_gain_factors zero_gains
                    (Torch.linspace 0 (sr / 2) (n / 2 + 1))
                    (ones_like2 spectrum) = ones_like2 spectrum).
  { apply rfft_gain_factors_zero. unfold ones_like2, spectrum.
    rewrite !Forall_map. eapply Forall_impl; [|exact Hrows].
    intros x Hx. cbv beta in *.
    rewrite length_map, length_rfft_row, length_linspace, Hx. lia. }
  split; [exact Hones|]. split.
  - unfold process_rfft. rewrite (validate_valid _ _ _ _ _ _ Hv).
    rewrite outcome_bind. unfold ret at 1, outcome at 1. simpl snd.
    cbv beta iota. simpl num_samples. simpl batch_size. simpl channels.
    simpl ck_sample_rate. simpl ck_waveform.
    rewrite outcome_bind, fft_rfft_outcome by exact Hn.
    fold spectrum. rewrite Hones, mul_ones_like2.
    rewrite outcome_bind, fft_irfft_outcome by exact Hn.
    apply outcome_normalize_tail.
  - unfold spectrum. rewrite irfft_rfft_rows by assumption.
    rewrite concat_rows by exact Hlen.
    destruct w as [s d]. simpl in *. subst s. reflexivity.
Qed.

(** C4.  When all seven gains are 0 dB, every linear gain of
    [process_rfft] is 1 and, on a valid input, its gain-factor field is the
    field of ones; the waveform handed to the final normalization is
    [irfft(rfft(waveform), n)], which is the input waveform itself.  So the
    output is the input, divided by its peak [max_val] only when that peak
    exceeds 1. *)
Theorem zero_gain_rfft_identity :
  (forall b : band, rfft_gain zero_gains b = 1) /\
  (forall ai w sr b c n,
     valid_input ai w sr b c n ->
     let spectrum := map Dft.rfft_row (rows n (b * c) (data w)) in
     rfft_gain_factors zero_gains (Torch.linspace 0 (sr / 2) (n / 2 + 1))
                       (ones_like2 spectrum) = ones_like2 spectrum /\
     outcome (process_rfft ai zero_gains)
     = match normalize_waveform
               (mkTensor [b; c; n] (concat (map (Dft.irfft_row n) spectrum)))
       with
       | Ok t => Ok (mkAudio t sr)
       | Raise e => Raise e
       end /\
     mkTensor [b; c; n] (concat (map (Dft.irfft_row n) spectrum)) = w /\
     ((0 < b)%nat ->
      exists max_val,
       is_max_abs max_val (data w) /\
       (max_val <= 1 ->
        outcome (process_rfft ai zero_gains) = Ok (mkAudio w sr)) /\
       (1 < max_val ->
        outcome (process_rfft ai zero_gains)
        = Ok (mkAudio (tensor_div w max_val) sr)))).
Proof.
  split; [exact rfft_gain_zero|].
  intros ai w sr b c n Hv.
  assert (Hne : (0 < b)%nat -> data w <> []).
  { pose proof Hv as (_ & _ & Hsh & Hc & Hn & Hwf).
    unfold wf_tensor in Hwf. rewrite Hsh in Hwf. simpl in Hwf.
    intros Hb Hd. rewrite Hd in Hwf. simpl in Hwf. destruct Hc; subst; lia. }
  intros spectrum.
  destruct (process_rfft_zero_gains ai w sr b c n Hv) as [Hones [Hout Hid]].
  fold spectrum in Hones, Hout, Hid.
  split; [exact Hones|]. split; [exact Hout|]. split; [exact Hid|].
  intros Hb. rewrite Hout, Hid.
  destruct (max_abs_is_max _ (Hne Hb)) as [m [Hm Hmax]].
  exists m. split; [exact Hmax|].
  unfold normalize_waveform. rewrite Hm.
  split; intros Hcmp; destruct (Rlt_dec 1 m); try lra; reflexivity.
Qed.

Lemma zero_gain_rfft_identity_witness :
  outcome (process_rfft (input_of tiny_waveform 44100) zero_gains)
  = Ok (mkAudio tiny_waveform 44100).
Proof.
  destruct (proj2 zero_gain_rfft_identity (input_of tiny_waveform 44100)
              tiny_waveform 44100 1%nat 1%nat 2%nat valid_tiny)
    as (_ & _ & _ & Hnorm).
  destruct Hnorm as (m & [Hin _] & Hle & _); [lia|].
  apply Hle.
  simpl in Hin. unfold Rabs in Hin.
  repeat destruct Rcase_abs; destruct Hin as [<- | [<- | []]]; lra.
Defined.

(* ===================================================================== *)
(** ** C5: per-strategy clamping of the gains *)
(* ===================================================================== *)

Lemma gain_db_of_map_gains (f : R -> R) (g : gains) (b : band) :
  gain_db_of (map_gains f g) b = f (gain_db_of g b).
Proof. destruct b; reflexivity. Qed.

Lemma bind_ext {A B} (m : M A) (f f' : A -> M B) :
  (forall a, f a = f' a) -> bind m f = bind m f'.
Proof. intros H. destruct m as [t [a|e]]; simpl; [rewrite H|]; reflexivity. Qed.

Lemma hann_gain_factors_ext (g g' : gains) sr freq ones :
  (forall b, hann_gain_linear g b = hann_gain_linear g' b) ->
  hann_gain_factors g sr freq ones = hann_gain_factors g' sr freq ones.
Proof.
  intros H. unfold hann_gain_factors. generalize (hann_bands sr).
  intros bands. revert ones.
  induction bands as [|e bands IH]; intros ones; simpl; [reflexivity|].
  rewrite H. apply IH.
Qed.

Lemma subcomp_gain_factors_ext (g g' : gains) sr freq ones :
  (forall b, subcomp_gain_linear g b = subcomp_gain_linear g' b) ->
  subcomp_gain_factors g sr freq ones = subcomp_gain_factors g' sr freq ones.
Proof.
  intros H. unfold subcomp_gain_factors. generalize (subcomp_bands sr).
  intros bands. revert ones.
  induction bands as [|e bands IH]; intros ones; simpl; [reflexivity|].
  rewrite H. apply IH.
Qed.

(** [process_hann] sees its gains only through [min(gain, 12)]. *)
Lemma process_hann_clamped ai (g : gains) :
  process_hann ai g = process_hann ai (map_gains (fun x => Rmin x 12) g).
Proof.
  unfold process_hann. apply bind_ext. intros v.
  apply bind_ext. intros flat. apply bind_ext. intros waveform_stft.
  unfold hann_stft_eq.
  rewrite (hann_gain_factors_ext g (map_gains (fun x => Rmin x 12) g));
    [reflexivity|].
  intros b. unfold hann_gain_linear, hann_gain_db, hann_max_gain_db.
  rewrite gain_db_of_map_gains. f_equal.
  unfold Rmin. destruct (Rle_dec (gain_db_of g b) 12);
    destruct Rle_dec; lra.
Qed.

(** [process_subcomp] sees its gains only through
    [max(min(gain, 24), -24)]. *)
Lemma process_subcomp_clamped ai (g : gains) :
  process_subcomp ai g
  = process_subcomp ai (map_gains (fun x => Rmax (Rmin x 24) (-24)) g).
Proof.
  unfold process_subcomp. apply bind_ext. intros v.
  apply bind_ext. intros flat. apply bind_ext. intros waveform_stft.
  unfold subcomp_stft_eq.
  rewrite (subcomp_gain_factors_ext
             g (map_gains (fun x => Rmax (Rmin x 24) (-24)) g));
    [reflexivity|].
  intros b. unfold subcomp_gain_linear, subcomp_gain_db, subcomp_max_gain_db,
    subcomp_min_gain_db.
  rewrite gain_db_of_map_gains. f_equal.
  unfold Rmax, Rmin. repeat destruct Rle_dec; lra.
Qed.

(** C5.  [process_rfft] converts each gain as given, so different gains
    give different factors; [process_hann] converts [min(gain, 12)], which
    caps the gain at 12 dB and lets every gain below that through however
    negative; [process_subcomp] converts the gain clamped to [[-24, 24]].
    Conversion is [10 ** (db / 20)] in all three, and the two windowed
    strategies depend on their gains through the clamped values only. *)
Theorem gain_clamping (g : gains) (b : band) :
  let x := gain_db_of g b in
  (rfft_gain g b = Rpower 10 (x / 20) /\
   forall g', rfft_gain g b = rfft_gain g' b -> x = gain_db_of g' b) /\
  (hann_gain_linear g b = Rpower 10 (hann_gain_db g b / 20) /\
   hann_gain_db g b <= 12 /\
   (x <= 12 -> hann_gain_db g b = x) /\
   (12 < x -> hann_gain_db g b = 12) /\
   forall ai,
     process_hann ai g = process_hann ai (map_gains (fun x => Rmin x 12) g)) /\
  (subcomp_gain_linear g b = Rpower 10 (subcomp_gain_db g b / 20) /\
   -24 <= subcomp_gain_db g b <= 24 /\
   (-24 <= x <= 24 -> subcomp_gain_db g b = x) /\
   (24 < x -> subcomp_gain_db g b = 24) /\
   (x < -24 -> subcomp_gain_db g b = -24) /\
   forall ai,
     process_subcomp ai g
     = process_subcomp ai (map_gains (fun x => Rmax (Rmin x 24) (-24)) g)).
Proof.
  intros x. split; [|split].
  - unfold rfft_gain, db_to_linear. fold x.
    split; [reflexivity|]. intros g' H. apply Rpower_10_inj in H. lra.
  - split; [reflexivity|].
    assert (Hmin : hann_gain_db g b = Rmin x 12) by reflexivity.
    rewrite Hmin. clear Hmin.
    split; [|split; [|split]]; [| | |exact (fun ai => process_hann_clamped ai g)];
      unfold Rmin; destruct (Rle_dec x 12); intros; lra.
  - split; [reflexivity|].
    assert (Hclamp : subcomp_gain_db g b = Rmax (Rmin x 24) (-24))
      by reflexivity.
    rewrite Hclamp. clear Hclamp.
    split; [|split; [|split; [|split]]];
      [| | | |exact (fun ai => process_subcomp_clamped ai g)];
      unfold Rmax, Rmin; destruct (Rle_dec x 24);
      destruct Rle_dec; intros; lra.
Qed.

Lemma gain_clamping_witness :
  hann_gain_db (mkGains 0 (-100) 0 0 0 0 0) Bass = -100 /\
  hann_gain_db (mkGains 0 30 0 0 0 0 0) Bass = 12 /\
  subcomp_gain_db (mkGains 0 3 0 0 0 0 0) Bass = 3 /\
  subcomp_gain_db (mkGains 0 30 0 0 0 0 0) Bass = 24 /\
  subcomp_gain_db (mkGains 0 (-100) 0 0 0 0 0) Bass = -24.
Proof.
  split; [|split; [|split; [|split]]].
  - apply (gain_clamping (mkGains 0 (-100) 0 0 0 0 0) Bass). simpl. lra.
  - apply (gain_clamping (mkGains 0 30 0 0 0 0 0) Bass). simpl. lra.
  - apply (gain_clamping (mkGains 0 3 0 0 0 0 0) Bass). simpl. lra.
  - apply (gain_clamping (mkGains 0 30 0 0 0 0 0) Bass). simpl. lra.
  - apply (gain_clamping (mkGains 0 (-100) 0 0 0 0 0) Bass). simpl. lra.
Defined.

(* ===================================================================== *)
(** ** C6: the ceiling of the brilliance band *)
(* ===================================================================== *)

Lemma at2_rfft_apply_band freq gain rng (gf : list (list C)) (r k : nat) :
  in_field2 gf r k -> (k < length freq)%nat ->
  nth k (nth r (rfft_apply_band freq gain rng gf) []) Czero
  = (if band_mask (nth k freq 0) (fst rng) (snd rng)
     then Cscale (nth k (nth r gf []) Czero) gain
     else nth k (nth r gf []) Czero)
  /\ in_field2 (rfft_apply_band freq gain rng gf) r k.
Proof.
  intros [Hr Hk] Hf. unfold in_field2, rfft_apply_band.
  rewrite (nth_map_in _ gf r [] []) by exact Hr.
  rewrite length_map, length_map2. split; [|split; [exact Hr | lia]].
  apply (nth_map2 (fun f z => if band_mask f (fst rng) (snd rng)
                              then Cscale z gain else z)
                  freq (nth r gf []) k 0 Czero Czero); assumption.
Qed.

Lemma at2_rfft_gain_factors (g : gains) freq (ones : list (list C))
      (r k : nat) :
  in_field2 ones r k -> (k < length freq)%nat ->
  nth k (nth r (rfft_gain_factors g freq ones) []) Czero
  = rfft_gain_at g (nth k freq 0) (nth k (nth r ones []) Czero).
Proof.
  unfold rfft_gain_factors, rfft_gain_at. generalize rfft_bands.
  intros bands. revert ones.
  induction bands as [|e bands IH]; intros ones Hin Hf; simpl; [reflexivity|].
  destruct (at2_rfft_apply_band freq (rfft_gain g (fst e)) (snd e) ones r k
              Hin Hf) as [Hval Hin'].
  rewrite (IH _ Hin' Hf), Hval. reflexivity.
Qed.

Lemma at2_ones_like2 {A} (field : list (list A)) (r k : nat) :
  in_field2 field r k ->
  in_field2 (ones_like2 field) r k /\
  nth k (nth r (ones_like2 field) []) Czero = Cone.
Proof.
  intros [Hr Hk]. unfold in_field2, ones_like2.
  rewrite (nth_map_in _ field r [] []) by exact Hr.
  rewrite !length_map. repeat split; try assumption.
  destruct (nth r field []) as [|a l] eqn:E; [simpl in Hk; lia|].
  apply (nth_map_in (fun _ => Cone) (a :: l) k a Czero). exact Hk.
Qed.

Lemma band_mask_above (f f_start f_end : R) :
  f_end <= f -> band_mask f f_start f_end = false.
Proof.
  intros H. unfold band_mask, Rltb.
  destruct (Rlt_dec f f_end); [lra | apply andb_false_r].
Qed.

Lemma rfft_gain_at_above (g : gains) (f : R) (z : C) :
  20000 <= f -> rfft_gain_at g f z = z.
Proof.
  intros H. unfold rfft_gain_at, rfft_bands. simpl.
  rewrite !band_mask_above by lra. reflexivity.
Qed.

(** C6.  The brilliance band ends at the constant 20000 Hz in the table of
    [process_rfft] and at [sample_rate / 2] in the tables of [process_hann]
    and [process_subcomp].  So in [process_rfft] a bin whose frequency is
    20000 Hz or more keeps the gain factor 1, whatever gains are asked for. *)
Theorem brilliance_ceiling :
  band_range rfft_bands Brilliance = (6000, 20000) /\
  (forall sr, band_range (hann_bands sr) Brilliance = (6000, sr / 2) /\
              band_range (subcomp_bands sr) Brilliance = (6000, sr / 2)) /\
  (forall (g : gains) (sr : R) (n : nat) (waveform_fft : list (list C))
          (r k : nat),
     let freq_bins := Torch.linspace 0 (sr / 2) (n / 2 + 1) in
     in_field2 waveform_fft r k -> (k < n / 2 + 1)%nat ->
     20000 <= nth k freq_bins 0 ->
     nth k (nth r (rfft_gain_factors g freq_bins (ones_like2 waveform_fft)) [])
         Czero = Cone).
Proof.
  split; [reflexivity|]. split; [intros; split; reflexivity|].
  intros g sr n fft r k freq_bins Hin Hk Hf.
  destruct (at2_ones_like2 fft r k Hin) as [Hin1 Hone].
  rewrite at2_rfft_gain_factors.
  - rewrite rfft_gain_at_above by exact Hf. exact Hone.
  - exact Hin1.
  - unfold freq_bins. rewrite length_linspace. exact Hk.
Qed.

Lemma brilliance_ceiling_witness :
  nth 2 (nth 0 (rfft_gain_factors
                  (mkGains 12 12 12 12 12 12 12)
                  (Torch.linspace 0 (96000 / 2) (8 / 2 + 1))
                  (ones_like2 [[Czero; Czero; Czero; Czero; Czero]])) [])
      Czero = Cone.
Proof.
  apply (proj2 (proj2 brilliance_ceiling) (mkGains 12 12 12 12 12 12 12)
               96000 8%nat [[Czero; Czero; Czero; Czero; Czero]] 0%nat 2%nat).
  - unfold in_field2. simpl. lia.
  - simpl. lia.
  - rewrite nth_linspace by (simpl; lia). simpl. lra.
Defined.

(* ===================================================================== *)
(** ** C7: the divisor of the Gaussian profile *)
(* ===================================================================== *)

Lemma hann_brilliance_range (sr : R) :
  band_range (hann_bands sr) Brilliance = (6000, sr / 2).
Proof. reflexivity. Qed.

Lemma subcomp_brilliance_range (sr : R) :
  band_range (subcomp_bands sr) Brilliance = (6000, sr / 2).
Proof. reflexivity. Qed.

(** [process_subcomp] never divides by zero when the sample rate is
    positive: fixed bands have positive width and a zero-width brilliance
    band is replaced by [0.01 * f_end]. *)
Lemma subcomp_divisor_nonzero (sr : R) (entry : band * (R * R)) :
  0 < sr -> In entry (subcomp_bands sr) -> subcomp_divisor (snd entry) <> 0.
Proof.
  intros Hsr Hin. unfold subcomp_divisor, subcomp_bandwidth.
  simpl in Hin.
  repeat (destruct Hin as [<- | Hin]; [simpl; destruct Req_dec_T; lra|]).
  destruct Hin.
Qed.

(** C7.  At a sample rate of 12000 Hz the brilliance
    band of [process_hann] is [(6000, 6000)]; its bandwidth is used as
    computed, so the Gaussian profile of that band divides every bin by
    zero.  [process_subcomp] replaces the same bandwidth by [0.01 * f_end]
    and divides by 30. *)
Theorem hann_divides_by_zero_at_12000 :
  band_range (hann_bands 12000) Brilliance = (6000, 12000 / 2) /\
  hann_divisor (band_range (hann_bands 12000) Brilliance) = 0 /\
  (forall gain freq_bins,
     hann_gain_profile gain (band_range (hann_bands 12000) Brilliance)
                       freq_bins
     = map (fun f => 1 + (gain - 1)
                         * exp (- (1 / 2) * ((f - 6000) / 0) ^ 2))
           freq_bins) /\
  subcomp_divisor (band_range (subcomp_bands 12000) Brilliance) = 30.
Proof.
  split; [reflexivity|]. split; [|split].
  - rewrite hann_brilliance_range. unfold hann_divisor, hann_bandwidth.
    simpl. lra.
  - intros gain freq_bins. rewrite hann_brilliance_range.
    unfold hann_gain_profile, hann_divisor, hann_bandwidth. simpl fst.
    simpl snd. apply map_ext. intros f. unfold gaussian_gain.
    replace ((6000 + 12000 / 2) / 2) with 6000 by lra.
    replace ((12000 / 2 - 6000) / 2 / 2) with 0 by lra. reflexivity.
  - rewrite subcomp_brilliance_range.
    unfold subcomp_divisor, subcomp_bandwidth. simpl fst. simpl snd.
    destruct Req_dec_T; lra.
Qed.

(* ===================================================================== *)
(** ** C8: the soft knee *)
(* ===================================================================== *)

Lemma compression_amount_nonpos (over_threshold : R) :
  compression_amount over_threshold <= 0.
Proof.
  unfold compression_amount. cbv zeta.
  destruct (Rlt_dec (knee / 2) over_threshold) as [H|H];
    [unfold ratio, knee in *; lra|].
  destruct (Rlt_dec (- knee / 2) over_threshold) as [H'|H']; [|lra].
  pose proof (pow2_ge_0 (over_threshold + knee / 2)).
  unfold ratio, knee in *. nra.
Qed.

Lemma gain_reduction_linear_range (mask magnitude : R) :
  0 < gain_reduction_linear mask magnitude <= 1.
Proof.
  unfold gain_reduction_linear. split; [apply Rpower_10_pos|].
  apply Rpower_10_le_1.
  pose proof (compression_amount_nonpos
                (bass_magnitude_db mask magnitude - threshold)). lra.
Qed.

(** C8.  With threshold -20 dB, ratio 4 and knee 5 dB the compression
    amount is [0] up to [-knee/2], the quadratic
    [(1/ratio - 1) * (over + knee/2)^2 / (2 * knee)] on
    [(-knee/2, knee/2]] and the line [(1/ratio - 1) * over] beyond; it is
    never positive, so [10 ** (amount / 20)], and with it the gain-reduction
    factor of every entry, lies in [(0, 1]]. *)
Theorem soft_knee_compression (over_threshold : R) :
  (threshold = -20 /\ ratio = 4 /\ knee = 5) /\
  (over_threshold <= - knee / 2 -> compression_amount over_threshold = 0) /\
  (- knee / 2 < over_threshold <= knee / 2 ->
   compression_amount over_threshold =
   (1 / ratio - 1) * (over_threshold + knee / 2) ^ 2 / (2 * knee)) /\
  (knee / 2 < over_threshold ->
   compression_amount over_threshold = (1 / ratio - 1) * over_threshold) /\
  compression_amount over_threshold <= 0 /\
  0 < Rpower 10 (compression_amount over_threshold / 20) <= 1 /\
  (forall mask magnitude,
     gain_reduction_linear mask magnitude =
     Rpower 10 (compression_amount
                  (20 * log10 (magnitude * mask + / 100000000) - threshold)
                / 20) /\
     0 < gain_reduction_linear mask magnitude <= 1).
Proof.
  split; [repeat split; reflexivity|].
  pose proof (compression_amount_nonpos over_threshold) as Hnp.
  split; [|split; [|split; [|split; [|split]]]].
  - intros H. unfold compression_amount. cbv zeta.
    destruct (Rlt_dec (knee / 2) over_threshold);
      [unfold knee in *; lra|].
    destruct (Rlt_dec (- knee / 2) over_threshold); [lra | reflexivity].
  - intros H. unfold compression_amount. cbv zeta.
    destruct (Rlt_dec (knee / 2) over_threshold); [lra|].
    destruct (Rlt_dec (- knee / 2) over_threshold); [reflexivity | lra].
  - intros H. unfold compression_amount. cbv zeta.
    destruct (Rlt_dec (knee / 2) over_threshold); [reflexivity | lra].
  - exact Hnp.
  - split; [apply Rpower_10_pos | apply Rpower_10_le_1; lra].
  - intros mask magnitude. split; [reflexivity|].
    apply gain_reduction_linear_range.
Qed.

Lemma soft_knee_compression_witness :
  compression_amount (-3) = 0 /\
  compression_amount 0 = (1 / ratio - 1) * (0 + knee / 2) ^ 2 / (2 * knee) /\
  compression_amount 10 = (1 / ratio - 1) * 10.
Proof.
  split; [|split].
  - apply (soft_knee_compression (-3)). unfold knee. lra.
  - apply (soft_knee_compression 0). unfold knee. lra.
  - apply (soft_knee_compression 10). unfold knee. lra.
Defined.

(* ===================================================================== *)
(** ** The compression step, entry by entry *)
(* ===================================================================== *)

Lemma at3_magnitude_field (s : list (list (list C))) (r k t : nat) :
  in_field s r k t ->
  at3 0 (magnitude_field s) r k t = Cabs (at3 Czero s r k t).
Proof.
  intros (Hr & Hk & Ht). unfold at3, magnitude_field.
  rewrite (nth_map_in _ s r [] []) by exact Hr.
  rewrite (nth_map_in _ (nth r s []) k [] []) by exact Hk.
  apply nth_map_in. exact Ht.
Qed.

Lemma Cabs_nonneg (z : C) : 0 <= Cabs z.
Proof. unfold Cabs. apply sqrt_pos. Qed.

Lemma bass_mask_at_inside (sr f : R) :
  20 <= f <= 250 -> bass_mask_at (subcomp_bands sr) f = 1.
Proof.
  intros [H1 H2]. unfold bass_mask_at.
  change (band_range (subcomp_bands sr) SubBass) with (20, 60).
  change (band_range (subcomp_bands sr) Bass) with (60, 250).
  simpl fst. simpl snd. unfold Rgeb, Rleb.
  destruct (Rle_dec 20 f); [|lra]. destruct (Rle_dec f 250); [|lra].
  reflexivity.
Qed.

Lemma bass_mask_at_outside (sr f : R) :
  ~ (20 <= f <= 250) -> bass_mask_at (subcomp_bands sr) f = 0.
Proof.
  intros H. unfold bass_mask_at.
  change (band_range (subcomp_bands sr) SubBass) with (20, 60).
  change (band_range (subcomp_bands sr) Bass) with (60, 250).
  simpl fst. simpl snd. unfold Rgeb, Rleb.
  destruct (Rle_dec 20 f); [|reflexivity].
  destruct (Rle_dec f 250); [lra | reflexivity].
Qed.

Lemma nth_bass_mask (sr : R) (freq_bins : list R) (k : nat) :
  (k < length freq_bins)%nat ->
  nth k (bass_mask (subcomp_bands sr) freq_bins) 0
  = bass_mask_at (subcomp_bands sr) (nth k freq_bins 0).
Proof. intros Hk. unfold bass_mask. apply nth_map_in. exact Hk. Qed.

Lemma length_bass_mask bands (freq_bins : list R) :
  length (bass_mask bands freq_bins) = length freq_bins.
Proof. unfold bass_mask. apply length_map. Qed.

(** An entry of the field after line 417, in terms of the entry before. *)
Lemma at3_magnitude_compressed_field (sr : R) (stft_eq : list (list (list C)))
      (r k t : nat) :
  in_field stft_eq r k t -> (k < n_freq_bins)%nat ->
  at3 0 (magnitude_compressed_field sr stft_eq) r k t
  = magnitude_compressed
      (bass_mask_at (subcomp_bands sr)
                    (nth k (Torch.linspace 0 (sr / 2) n_freq_bins) 0))
      (Cabs (at3 Czero stft_eq r k t)).
Proof.
  intros Hin Hk. unfold magnitude_compressed_field.
  rewrite (at3_map_freq _ _ stft_eq r k t Czero 0 Hin)
    by (rewrite length_bass_mask, length_linspace; exact Hk).
  rewrite nth_bass_mask by (rewrite length_linspace; exact Hk).
  reflexivity.
Qed.

Lemma nth_repeat_in {A} (a d : A) (n k : nat) :
  (k < n)%nat -> nth k (repeat a n) d = a.
Proof.
  revert k; induction n as [|n IH]; intros [|k] Hk; simpl; try lia; auto.
  apply IH. lia.
Qed.

Lemma n_freq_bins_val : n_freq_bins = 1025%nat.
Proof. reflexivity. Qed.

Lemma in_flat_spectrum (k t : nat) :
  (k < 1025)%nat -> (t < 2)%nat -> in_field flat_spectrum 0 k t.
Proof.
  intros Hk Ht. unfold in_field, flat_spectrum. cbn [nth].
  rewrite repeat_length, n_freq_bins_val.
  rewrite (nth_repeat_in _ _ 1025 k) by exact Hk. simpl. lia.
Qed.

Lemma at3_flat_spectrum (k t : nat) :
  (k < 1025)%nat -> (t < 2)%nat -> at3 Czero flat_spectrum 0 k t = Cone.
Proof.
  intros Hk Ht. unfold at3, flat_spectrum. cbn [nth].
  rewrite n_freq_bins_val, (nth_repeat_in _ _ 1025 k) by exact Hk.
  destruct t as [|[|t]]; simpl; auto; lia.
Qed.

Lemma INR_bins_pred : INR (n_freq_bins - 1) = 1024.
Proof.
  change (n_freq_bins - 1)%nat with 1024%nat.
  rewrite INR_IZR_INZ. reflexivity.
Qed.

(** Bin 5 at 44100 Hz sits near 107.7 Hz; bin 100 near 2153 Hz. *)
Lemma bin_5_frequency :
  nth 5 (Torch.linspace 0 (44100 / 2) n_freq_bins) 0 = 5 * (22050 / 1024).
Proof.
  rewrite nth_linspace by (rewrite n_freq_bins_val; lia).
  rewrite INR_bins_pred. simpl INR. lra.
Qed.

Lemma bin_100_frequency :
  nth 100 (Torch.linspace 0 (44100 / 2) n_freq_bins) 0 = 100 * (22050 / 1024).
Proof.
  rewrite nth_linspace by (rewrite n_freq_bins_val; lia).
  rewrite INR_bins_pred, INR_IZR_INZ. simpl Z.of_nat. lra.
Qed.

(* ===================================================================== *)
(** ** A coefficient of magnitude 1 *)
(* ===================================================================== *)

Lemma Cabs_Cone : Cabs Cone = 1.
Proof.
  unfold Cabs, Cone. simpl.
  replace (1 * 1 + 0 * 0) with 1 by ring. apply sqrt_1.
Qed.

(** The level of a unit coefficient is above the threshold. *)
Lemma unit_magnitude_above_threshold : threshold < bass_magnitude_db 1 1.
Proof.
  unfold bass_magnitude_db, threshold, log10.
  assert (0 < ln (1 * 1 + / 100000000)).
  { rewrite <- ln_1. apply ln_increasing; lra. }
  pose proof ln_10_pos.
  assert (0 < ln (1 * 1 + / 100000000) / ln 10)
    by (apply Rdiv_lt_0_compat; assumption).
  lra.
Qed.

(* ===================================================================== *)
(** ** C10: what the compression step does to a magnitude *)
(* ===================================================================== *)

(** C10.  Take any field [stft_eq] entering the compressor of
    [process_subcomp] and any of its entries [[r, k, t]].  If the bin's
    frequency lies in [[20, 250]], the magnitude after line 417 is the
    magnitude before it times [1 + gain_reduction_linear], a factor greater
    than 1 and at most 2, so the magnitude does not decrease; otherwise the
    magnitude is unchanged.  The rebuilt entry carries that magnitude times
    the makeup gain, on the original phase. *)
Theorem bass_compression_scales_up (sr : R) (stft_eq : list (list (list C)))
        (r k t : nat) :
  in_field stft_eq r k t -> (k < n_freq_bins)%nat ->
  let f := nth k (Torch.linspace 0 (sr / 2) n_freq_bins) 0 in
  let magnitude := at3 0 (magnitude_field stft_eq) r k t in
  let compressed := at3 0 (magnitude_compressed_field sr stft_eq) r k t in
  (20 <= f <= 250 ->
   compressed = magnitude * (1 + gain_reduction_linear 1 magnitude) /\
   1 < 1 + gain_reduction_linear 1 magnitude <= 2 /\
   magnitude <= compressed) /\
  (~ (20 <= f <= 250) -> compressed = magnitude) /\
  at3 Czero (subcomp_compress sr stft_eq) r k t
  = Cscale (Cexp_i (Cangle (at3 Czero stft_eq r k t)))
           (compressed * makeup_gain_linear).
Proof.
  intros Hin Hk f magnitude compressed.
  assert (Hlen : (k < length (bass_mask (subcomp_bands sr)
                     (Torch.linspace 0 (sr / 2) n_freq_bins)))%nat)
    by (rewrite length_bass_mask, length_linspace; exact Hk).
  assert (Hc : compressed
               = magnitude_compressed (bass_mask_at (subcomp_bands sr) f)
                                      magnitude).
  { unfold compressed, magnitude.
    rewrite at3_magnitude_compressed_field, at3_magnitude_field by assumption.
    reflexivity. }
  split; [|split].
  - intros Hf. rewrite Hc, (bass_mask_at_inside sr f Hf).
    pose proof (gain_reduction_linear_range 1 magnitude) as [Hlo Hhi].
    assert (Hm : 0 <= magnitude).
    { unfold magnitude. rewrite at3_magnitude_field by exact Hin.
      apply Cabs_nonneg. }
    unfold magnitude_compressed. rewrite Rmult_1_r.
    split; [reflexivity|]. split; [lra | nra].
  - intros Hf. rewrite Hc, (bass_mask_at_outside sr f Hf).
    unfold magnitude_compressed. ring.
  - unfold subcomp_compress.
    rewrite (at3_map_freq _ _ stft_eq r k t Czero Czero Hin Hlen).
    rewrite nth_bass_mask by (rewrite length_linspace; exact Hk).
    unfold compress_entry. rewrite Hc. unfold magnitude.
    rewrite at3_magnitude_field by exact Hin. reflexivity.
Qed.

Lemma bass_compression_scales_up_witness :
  (at3 0 (magnitude_compressed_field 44100 flat_spectrum) 0 5 0
   = at3 0 (magnitude_field flat_spectrum) 0 5 0
     * (1 + gain_reduction_linear 1 (at3 0 (magnitude_field flat_spectrum) 0 5 0)))
  /\
  at3 0 (magnitude_compressed_field 44100 flat_spectrum) 0 100 0
  = at3 0 (magnitude_field flat_spectrum) 0 100 0.
Proof.
  split.
  - apply (bass_compression_scales_up 44100 flat_spectrum 0 5 0).
    + apply in_flat_spectrum; lia.
    + rewrite n_freq_bins_val. lia.
    + rewrite bin_5_frequency. lra.
  - apply (bass_compression_scales_up 44100 flat_spectrum 0 100 0).
    + apply in_flat_spectrum; lia.
    + rewrite n_freq_bins_val. lia.
    + rewrite bin_100_frequency. lra.
Defined.

(* ===================================================================== *)
(** ** Further properties: normalize_waveform *)
(* ===================================================================== *)

Lemma max_abs_le_1_of_peak (w : tensor) (m : R) :
  max_abs (data w) = Ok m -> peak_le_1 w -> m <= 1.
Proof.
  intros Hm Hpeak. apply max_abs_ok_inv in Hm. destruct Hm as [_ [Hin _]].
  apply in_map_iff in Hin. destruct Hin as [x [<- Hx]].
  unfold peak_le_1 in Hpeak. rewrite Forall_forall in Hpeak. auto.
Qed.

(** X1.  Normalizing twice is normalizing once: a buffer that
    [normalize_waveform] returned is returned unchanged when handed to it
    again. *)
Theorem normalize_waveform_idempotent (w w' : tensor) :
  normalize_waveform w = Ok w' -> normalize_waveform w' = Ok w'.
Proof.
  intros H. pose proof (normalize_waveform_peak_le_1 _ _ H) as Hpeak.
  destruct (normalize_waveform_shape _ _ H) as [_ Hlen].
  assert (Hne : data w' <> []).
  { unfold normalize_waveform in H.
    destruct (max_abs (data w)) as [m|] eqn:Hm; [|discriminate].
    apply max_abs_ok_inv in Hm. destruct Hm as [Hd _].
    intros Hd'. rewrite Hd' in Hlen. simpl in Hlen.
    destruct (data w); [congruence | discriminate]. }
  destruct (max_abs_is_max _ Hne) as [m' [Hm' _]].
  pose proof (max_abs_le_1_of_peak _ _ Hm' Hpeak) as Hle.
  unfold normalize_waveform. rewrite Hm'.
  destruct (Rlt_dec 1 m'); [lra | reflexivity].
Qed.

Lemma normalize_waveform_idempotent_witness :
  exists w', normalize_waveform loud_waveform = Ok w' /\
             normalize_waveform w' = Ok w'.
Proof.
  destruct (normalize_waveform_total loud_waveform) as [w' Hw'].
  { simpl. discriminate. }
  exists w'. split; [exact Hw'|].
  exact (normalize_waveform_idempotent loud_waveform w' Hw').
Defined.

(** X2.  When the largest absolute sample value [max_val] of a buffer
    exceeds 1, [normalize_waveform] returns the buffer with every sample
    divided by [max_val], and the largest absolute sample value of the
    result is exactly 1: the peak is attained, not merely bounded. *)
Theorem normalize_waveform_loud_peak (w : tensor) (max_val : R) :
  max_abs (data w) = Ok max_val -> 1 < max_val ->
  exists w',
    normalize_waveform w = Ok w' /\
    shape w' = shape w /\
    data w' = map (fun x => x / max_val) (data w) /\
    max_abs (data w') = Ok 1.
Proof.
  intros Hm Hgt. pose proof (max_abs_ok_inv _ _ Hm) as [Hne [Hin Hall]].
  exists (tensor_div w max_val).
  assert (Hn : normalize_waveform w = Ok (tensor_div w max_val)).
  { unfold normalize_waveform. rewrite Hm.
    destruct (Rlt_dec 1 max_val); [reflexivity | lra]. }
  split; [exact Hn|]. split; [reflexivity|]. split; [reflexivity|].
  assert (Hne' : data (tensor_div w max_val) <> []).
  { simpl. destruct (data w); [congruence | discriminate]. }
  destruct (max_abs_is_max _ Hne') as [m' [Hm' [Hin' Hall']]].
  rewrite Hm'. f_equal. apply Rle_antisym.
  - apply (max_abs_le_1_of_peak _ _ Hm').
    eapply normalize_waveform_peak_le_1; eauto.
  - apply in_map_iff in Hin. destruct Hin as [x [Hx Hinx]].
    rewrite Forall_forall in Hall'.
    assert (Hq : In (x / max_val) (data (tensor_div w max_val))).
    { simpl. apply in_map_iff. exists x. split; [reflexivity | exact Hinx]. }
    specialize (Hall' _ Hq). simpl in Hall'.
    unfold Rdiv in Hall'. rewrite Rabs_mult, Hx in Hall'.
    rewrite (Rabs_pos_eq (/ max_val)) in Hall'
      by (left; apply Rinv_0_lt_compat; lra).
    rewrite Rinv_r in Hall' by lra. exact Hall'.
Qed.

Lemma max_abs_loud : max_abs (data loud_waveform) = Ok 4.
Proof.
  simpl. f_equal. unfold Rmax, Rabs.
  repeat destruct Rcase_abs; destruct Rle_dec; lra.
Qed.

Lemma normalize_waveform_loud_peak_witness :
  exists w',
    normalize_waveform loud_waveform = Ok w' /\
    shape w' = shape loud_waveform /\
    data w' = map (fun x => x / 4) (data loud_waveform) /\
    max_abs (data w') = Ok 1.
Proof.
  apply (normalize_waveform_loud_peak loud_waveform 4 max_abs_loud). lra.
Defined.

(* ===================================================================== *)
(** ** Further properties: the method and the declared inputs *)
(* ===================================================================== *)

(** X3.  [process] runs a strategy exactly for the three method strings
    that [INPUT_TYPES] offers, each string selecting the strategy of its
    name; for any other string it returns [None] without raising and
    without running anything. *)
Theorem process_py_dispatch (ai : audio_input) (g : gains) :
  (forall m, process_py ai (method_name m) g = Some (process ai m g)) /\
  (forall method,
     In method INPUT_TYPES_method ->
     exists m, method = method_name m /\
               process_py ai method g = Some (process ai m g)) /\
  (forall method,
     ~ In method INPUT_TYPES_method -> process_py ai method g = None).
Proof.
  split; [|split].
  - intros m. destruct m; reflexivity.
  - intros method Hin. simpl in Hin.
    destruct Hin as [<- | [<- | [<- | []]]];
      [exists Hann | exists Subcomp | exists Rfft]; split; reflexivity.
  - intros method Hnot. unfold process_py. simpl in Hnot.
    destruct (String.eqb_spec method "rfft") as [-> | _]; [tauto|].
    destruct (String.eqb_spec method "hann") as [-> | _]; [tauto|].
    destruct (String.eqb_spec method "subcomp") as [-> | _]; [tauto|].
    reflexivity.
Qed.

Lemma process_py_dispatch_witness :
  (exists m, "subcomp"%string = method_name m /\
             process_py (input_of tiny_waveform 44100) "subcomp" zero_gains
             = Some (process (input_of tiny_waveform 44100) m zero_gains)) /\
  process_py (input_of tiny_waveform 44100) "fft" zero_gains = None.
Proof.
  split.
  - apply (proj1 (proj2 (process_py_dispatch (input_of tiny_waveform 44100)
                                              zero_gains))).
    simpl. tauto.
  - apply (proj2 (proj2 (process_py_dispatch (input_of tiny_waveform 44100)
                                              zero_gains))).
    simpl. intros [H | [H | [H | []]]]; discriminate.
Defined.

(** X4.  Gains inside the bounds that [INPUT_TYPES] declares (-12 to 12 dB
    for each of the seven parameters) are never altered by the clamps:
    [process_hann] and [process_subcomp] convert them exactly as
    [process_rfft] does, so all three strategies use the same linear
    gains. *)
Theorem declared_gains_pass_the_clamps (g : gains) :
  within_declared_bounds g ->
  forall b,
    -12 <= gain_db_of g b <= 12 /\
    hann_gain_db g b = gain_db_of g b /\
    subcomp_gain_db g b = gain_db_of g b /\
    hann_gain_linear g b = rfft_gain g b /\
    subcomp_gain_linear g b = rfft_gain g b.
Proof.
  intros Hb b. destruct (Hb b) as [o [Ho Hrange]].
  assert (Hx : -12 <= gain_db_of g b <= 12).
  { destruct b; simpl in Ho; injection Ho as <-; simpl in Hrange; exact Hrange. }
  assert (Hh : hann_gain_db g b = gain_db_of g b).
  { unfold hann_gain_db, hann_max_gain_db, Rmin.
    destruct Rle_dec; lra. }
  assert (Hs : subcomp_gain_db g b = gain_db_of g b).
  { unfold subcomp_gain_db, subcomp_max_gain_db, subcomp_min_gain_db,
      Rmax, Rmin. repeat destruct Rle_dec; lra. }
  split; [exact Hx|]. split; [exact Hh|]. split; [exact Hs|].
  unfold hann_gain_linear, subcomp_gain_linear, rfft_gain.
  rewrite Hh, Hs. split; reflexivity.
Qed.

Lemma bounds_of_example :
  within_declared_bounds (mkGains 12 (-12) 3 0 (-7) 1 (1 / 10)).
Proof.
  intros b. destruct b; eexists; (split; [reflexivity|]); simpl; lra.
Qed.

Lemma declared_gains_pass_the_clamps_witness :
  hann_gain_db (mkGains 12 (-12) 3 0 (-7) 1 (1 / 10)) Bass = -12 /\
  subcomp_gain_db (mkGains 12 (-12) 3 0 (-7) 1 (1 / 10)) SubBass = 12.
Proof.
  split.
  - apply (declared_gains_pass_the_clamps _ bounds_of_example Bass).
  - apply (declared_gains_pass_the_clamps _ bounds_of_example SubBass).
Defined.

(* ===================================================================== *)
(** ** Further properties: the Gaussian band profile *)
(* ===================================================================== *)

Lemma gaussian_weight_range (x : R) : 0 < exp (- (1 / 2) * x ^ 2) <= 1.
Proof.
  split; [apply exp_pos|].
  pose proof (pow2_ge_0 x) as Hx.
  destruct (Req_dec (- (1 / 2) * x ^ 2) 0) as [-> | Hne];
    [rewrite exp_0; lra|].
  apply Rle_trans with (exp 0); [|rewrite exp_0; lra].
  left. apply exp_increasing. lra.
Qed.

Lemma gaussian_gain_range (gain center_freq divisor f : R) :
  Rmin 1 gain <= gaussian_gain gain center_freq divisor f <= Rmax 1 gain.
Proof.
  unfold gaussian_gain.
  pose proof (gaussian_weight_range ((f - center_freq) / divisor)) as [Hlo Hhi].
  set (e := exp (- (1 / 2) * ((f - center_freq) / divisor) ^ 2)) in *.
  unfold Rmin, Rmax. destruct (Rle_dec 1 gain); split; nra.
Qed.

Lemma db_to_linear_pos (db : R) : 0 < db_to_linear db.
Proof. apply Rpower_10_pos. Qed.

(** X5.  In both windowed strategies, a band whose divisor
    [bandwidth / 2] is not zero has a profile that lies, at any bin, between
    1 and the band's linear gain, whichever is larger, and is therefore
    positive: the band never overshoots the gain asked for and never pushes
    a bin past unity in the opposite direction.  At the band's centre
    frequency the profile reaches the full gain.  A band whose divisor is
    zero is left out: there the program divides by zero. *)
Theorem band_profile_between_unity_and_gain (g : gains) (rng : R * R)
        (b : band) (freq_bins : list R) (k : nat) :
  (k < length freq_bins)%nat ->
  let center_freq := (fst rng + snd rng) / 2 in
  let hann_p := nth k (hann_gain_profile (hann_gain_linear g b) rng freq_bins) 0 in
  let subcomp_p :=
    nth k (subcomp_gain_profile (subcomp_gain_linear g b) rng freq_bins) 0 in
  (hann_divisor rng <> 0 ->
   Rmin 1 (hann_gain_linear g b) <= hann_p <= Rmax 1 (hann_gain_linear g b) /\
   0 < hann_p /\
   (nth k freq_bins 0 = center_freq -> hann_p = hann_gain_linear g b)) /\
  (subcomp_divisor rng <> 0 ->
   Rmin 1 (subcomp_gain_linear g b) <= subcomp_p
   <= Rmax 1 (subcomp_gain_linear g b) /\
   0 < subcomp_p /\
   (nth k freq_bins 0 = center_freq -> subcomp_p = subcomp_gain_linear g b)).
Proof.
  intros Hk center_freq hann_p subcomp_p.
  assert (Hh : hann_p = gaussian_gain (hann_gain_linear g b) center_freq
                          (hann_divisor rng) (nth k freq_bins 0)).
  { unfold hann_p, hann_gain_profile. apply nth_map_in. exact Hk. }
  assert (Hs : subcomp_p = gaussian_gain (subcomp_gain_linear g b) center_freq
                             (subcomp_divisor rng) (nth k freq_bins 0)).
  { unfold subcomp_p, subcomp_gain_profile. apply nth_map_in. exact Hk. }
  pose proof (db_to_linear_pos (hann_gain_db g b)) as Hhpos.
  pose proof (db_to_linear_pos (subcomp_gain_db g b)) as Hspos.
  fold (hann_gain_linear g b) in Hhpos.
  fold (subcomp_gain_linear g b) in Hspos.
  split; intros Hd.
  - rewrite Hh.
    pose proof (gaussian_gain_range (hann_gain_linear g b) center_freq
                  (hann_divisor rng) (nth k freq_bins 0)) as Hr.
    split; [exact Hr|]. split.
    + unfold Rmin in Hr. destruct (Rle_dec 1 (hann_gain_linear g b)); lra.
    + intros Hc. rewrite Hc. unfold gaussian_gain.
      replace ((center_freq - center_freq) / hann_divisor rng) with 0
        by (field; exact Hd).
      replace (- (1 / 2) * 0 ^ 2) with 0 by ring. rewrite exp_0. ring.
  - rewrite Hs.
    pose proof (gaussian_gain_range (subcomp_gain_linear g b) center_freq
                  (subcomp_divisor rng) (nth k freq_bins 0)) as Hr.
    split; [exact Hr|]. split.
    + unfold Rmin in Hr. destruct (Rle_dec 1 (subcomp_gain_linear g b)); lra.
    + intros Hc. rewrite Hc. unfold gaussian_gain.
      replace ((center_freq - center_freq) / subcomp_divisor rng) with 0
        by (field; exact Hd).
      replace (- (1 / 2) * 0 ^ 2) with 0 by ring. rewrite exp_0. ring.
Qed.

Lemma band_profile_between_unity_and_gain_witness :
  nth 1 (hann_gain_profile
           (hann_gain_linear (mkGains 0 6 0 0 0 0 0) Bass) (60, 250)
           [0; 155; 310]) 0
  = hann_gain_linear (mkGains 0 6 0 0 0 0 0) Bass.
Proof.
  apply (band_profile_between_unity_and_gain
           (mkGains 0 6 0 0 0 0 0) (60, 250) Bass [0; 155; 310] 1%nat).
  - simpl. lia.
  - unfold hann_divisor, hann_bandwidth. simpl. lra.
  - simpl. lra.
Defined.

(** X6.  At either edge of a band of non-zero width the Gaussian weight is
    [exp(-2)] in [process_hann] and [exp(-1/2)] in [process_subcomp]: the
    profile there is [1 + (gain - 1) * exp(-2)], respectively
    [1 + (gain - 1) * exp(-1/2)], so the same band reaches further into
    its neighbours in [process_subcomp]. *)
Theorem band_profile_at_the_edges (gain f_start f_end : R) :
  f_start <> f_end ->
  let center_freq := (f_start + f_end) / 2 in
  let hann_d := hann_divisor (f_start, f_end) in
  let subcomp_d := subcomp_divisor (f_start, f_end) in
  (gaussian_gain gain center_freq hann_d f_start = 1 + (gain - 1) * exp (-2) /\
   gaussian_gain gain center_freq hann_d f_end = 1 + (gain - 1) * exp (-2)) /\
  (gaussian_gain gain center_freq subcomp_d f_start
   = 1 + (gain - 1) * exp (- (1 / 2)) /\
   gaussian_gain gain center_freq subcomp_d f_end
   = 1 + (gain - 1) * exp (- (1 / 2))).
Proof.
  intros Hne center_freq hann_d subcomp_d.
  assert (Hw : f_end - f_start <> 0) by lra.
  assert (Hsd : subcomp_d = (f_end - f_start) / 2).
  { unfold subcomp_d, subcomp_divisor, subcomp_bandwidth. simpl.
    destruct Req_dec_T; [contradiction | reflexivity]. }
  unfold gaussian_gain. rewrite Hsd.
  unfold hann_d, hann_divisor, hann_bandwidth, center_freq. simpl fst.
  simpl snd.
  repeat split; do 3 f_equal.
  - replace ((f_start - (f_start + f_end) / 2) / ((f_end - f_start) / 2 / 2))
      with (-2) by (field; exact Hw). field.
  - replace ((f_end - (f_start + f_end) / 2) / ((f_end - f_start) / 2 / 2))
      with 2 by (field; exact Hw). field.
  - replace ((f_start - (f_start + f_end) / 2) / ((f_end - f_start) / 2))
      with (-1) by (field; exact Hw). field.
  - replace ((f_end - (f_start + f_end) / 2) / ((f_end - f_start) / 2))
      with 1 by (field; exact Hw). field.
Qed.

Lemma band_profile_at_the_edges_witness :
  gaussian_gain 2 ((60 + 250) / 2) (hann_divisor (60, 250)) 250
  = 1 + (2 - 1) * exp (-2) /\
  gaussian_gain 2 ((60 + 250) / 2) (subcomp_divisor (60, 250)) 250
  = 1 + (2 - 1) * exp (- (1 / 2)).
Proof.
  assert (H : (60 : R) <> 250) by lra.
  split.
  - apply (band_profile_at_the_edges 2 60 250 H).
  - apply (band_profile_at_the_edges 2 60 250 H).
Defined.

(** X7.  For a band of non-zero width the Gaussian of [process_subcomp] is
    twice as wide as that of [process_hann].  With the same linear gain, a
    boost is therefore at least as strong at every frequency in
    [process_subcomp], and a cut at least as deep. *)
Theorem subcomp_profile_is_wider (gain f_start f_end f : R) :
  f_start <> f_end ->
  let center_freq := (f_start + f_end) / 2 in
  let hann_p :=
    gaussian_gain gain center_freq (hann_divisor (f_start, f_end)) f in
  let subcomp_p :=
    gaussian_gain gain center_freq (subcomp_divisor (f_start, f_end)) f in
  subcomp_divisor (f_start, f_end) = 2 * hann_divisor (f_start, f_end) /\
  (1 <= gain -> hann_p <= subcomp_p) /\
  (gain <= 1 -> subcomp_p <= hann_p).
Proof.
  intros Hne center_freq hann_p subcomp_p.
  assert (Hw : f_end - f_start <> 0) by lra.
  assert (Hd : subcomp_divisor (f_start, f_end)
               = 2 * hann_divisor (f_start, f_end)).
  { unfold subcomp_divisor, subcomp_bandwidth, hann_divisor, hann_bandwidth.
    simpl. destruct Req_dec_T; [contradiction | field]. }
  split; [exact Hd|].
  assert (Hh : hann_divisor (f_start, f_end) <> 0).
  { unfold hann_divisor, hann_bandwidth. simpl. lra. }
  assert (Hexp : exp (- (1 / 2) * ((f - center_freq)
                                   / hann_divisor (f_start, f_end)) ^ 2)
                 <= exp (- (1 / 2) * ((f - center_freq)
                                      / subcomp_divisor (f_start, f_end)) ^ 2)).
  { rewrite Hd.
    set (x := (f - center_freq) / hann_divisor (f_start, f_end)).
    replace ((f - center_freq) / (2 * hann_divisor (f_start, f_end)))
      with (x / 2) by (unfold x; field; exact Hh).
    pose proof (pow2_ge_0 x) as Hx.
    destruct (Req_dec (x ^ 2) 0) as [H0 | Hn0].
    - replace ((x / 2) ^ 2) with (x ^ 2 / 4) by field. rewrite H0.
      replace (- (1 / 2) * (0 / 4)) with (- (1 / 2) * 0) by field. lra.
    - left. apply exp_increasing.
      replace ((x / 2) ^ 2) with (x ^ 2 / 4) by field. lra. }
  unfold hann_p, subcomp_p, gaussian_gain. split; intros Hg; nra.
Qed.

Lemma subcomp_profile_is_wider_witness :
  gaussian_gain 2 ((60 + 250) / 2) (hann_divisor (60, 250)) 300
  <= gaussian_gain 2 ((60 + 250) / 2) (subcomp_divisor (60, 250)) 300.
Proof.
  assert (H : (60 : R) <> 250) by lra.
  apply (subcomp_profile_is_wider 2 60 250 300 H). lra.
Defined.

(* ===================================================================== *)
(** ** Further properties: the soft knee *)
(* ===================================================================== *)

(** X8.  The compression amount is a continuous, non-increasing function
    of the level over the threshold: raising the level by [d] dB lowers
    the amount by at least 0 and at most [0.75 * d] dB.  In particular the
    quadratic joins the zero branch at [-knee/2] and the line at
    [knee/2] without a jump. *)
Theorem compression_amount_slope (a b : R) :
  a <= b ->
  0 <= compression_amount a - compression_amount b <= (3 / 4) * (b - a).
Proof.
  intros Hab. unfold compression_amount, knee, ratio. cbv zeta.
  destruct (Rlt_dec (5 / 2) a); destruct (Rlt_dec (5 / 2) b);
    destruct (Rlt_dec (- (5) / 2) a); destruct (Rlt_dec (- (5) / 2) b);
    try lra; split; nra.
Qed.

Lemma compression_amount_slope_witness :
  0 <= compression_amount (-1) - compression_amount 2 <= (3 / 4) * (2 - -1).
Proof. apply (compression_amount_slope (-1) 2). lra. Defined.

(* ===================================================================== *)
(** ** Further properties: magnitude, phase and the compressor *)
(* ===================================================================== *)

Lemma Cabs_polar (x y : R) :
  x <> 0 -> sqrt (x * x + y * y) = Rabs x * sqrt (1 + (y / x)²).
Proof.
  intros Hx.
  replace (x * x + y * y) with (x² * (1 + (y / x)²))
    by (unfold Rsqr; field; exact Hx).
  rewrite sqrt_mult_alt by apply Rle_0_sqr.
  rewrite sqrt_Rsqr_abs. reflexivity.
Qed.

Lemma sqrt_1_plus_sqr_pos (t : R) : 0 < sqrt (1 + t²).
Proof. apply sqrt_lt_R0. pose proof (Rle_0_sqr t). lra. Qed.

(** Magnitude and angle rebuild the number they were taken from. *)
Lemma polar_rebuild (z : C) : Cscale (Cexp_i (Cangle z)) (Cabs z) = z.
Proof.
  destruct z as [x y]. unfold Cscale, Cexp_i, Cangle, Cabs, atan2.
  simpl fst. simpl snd.
  destruct (Rlt_dec 0 x) as [Hpos | Hnpos].
  - rewrite Cabs_polar by lra. rewrite (Rabs_pos_eq x) by lra.
    rewrite cos_atan, sin_atan.
    pose proof (sqrt_1_plus_sqr_pos (y / x)) as Hs.
    f_equal; field; lra.
  - destruct (Rlt_dec x 0) as [Hneg | Hnneg].
    + rewrite Cabs_polar by lra. rewrite (Rabs_left x) by lra.
      pose proof (sqrt_1_plus_sqr_pos (y / x)) as Hs.
      destruct (Rle_dec 0 y).
      * rewrite neg_cos, neg_sin, cos_atan, sin_atan. f_equal; field; lra.
      * rewrite cos_minus, sin_minus, cos_PI, sin_PI, cos_atan, sin_atan.
        f_equal; field; lra.
    + assert (Hx0 : x = 0) by lra. subst x.
      replace (0 * 0 + y * y) with (y * y) by ring.
      destruct (Rlt_dec 0 y) as [Hy | Hny].
      * rewrite cos_PI2, sin_PI2, sqrt_square by lra. f_equal; ring.
      * destruct (Rlt_dec y 0) as [Hy' | Hny'].
        -- rewrite cos_neg, sin_neg, cos_PI2, sin_PI2.
           replace (y * y) with (- y * - y) by ring.
           rewrite sqrt_square by lra. f_equal; ring.
        -- assert (Hy0 : y = 0) by lra. subst y.
           replace (0 * 0) with 0 by ring. rewrite sqrt_0. f_equal; ring.
Qed.

Lemma Cscale_Cscale (z : C) (p q : R) : Cscale (Cscale z p) q = Cscale z (p * q).
Proof. destruct z as [a b]. unfold Cscale. simpl. f_equal; ring. Qed.

Lemma Cabs_Cscale (z : C) (p : R) : 0 <= p -> Cabs (Cscale z p) = p * Cabs z.
Proof.
  intros Hp. destruct z as [a b]. unfold Cabs, Cscale. simpl.
  replace (a * p * (a * p) + b * p * (b * p)) with (p * p * (a * a + b * b))
    by ring.
  rewrite sqrt_mult_alt by nra. rewrite sqrt_square by exact Hp. reflexivity.
Qed.

Lemma makeup_gain_linear_gt_1 : 1 < makeup_gain_linear.
Proof.
  unfold makeup_gain_linear, makeup_gain, Rpower. rewrite <- exp_0.
  apply exp_increasing. pose proof ln_10_pos. nra.
Qed.

Lemma bass_mask_at_cases (sr f : R) :
  bass_mask_at (subcomp_bands sr) f = 0 \/ bass_mask_at (subcomp_bands sr) f = 1.
Proof. unfold bass_mask_at. destruct (_ && _); auto. Qed.

(** X9.  The compressor of [process_subcomp] (lines 392-423) multiplies
    every coefficient by a positive real number and so leaves its phase
    alone.  The factor is at least the makeup gain [10 ** (5/20)], which is
    greater than 1, and at most twice that: every coefficient, inside the
    bass band or not, leaves the compressor larger than it entered. *)
Theorem compressor_scales_every_coefficient (sr : R)
        (stft_eq : list (list (list C))) (r k t : nat) :
  in_field stft_eq r k t -> (k < n_freq_bins)%nat ->
  let z := at3 Czero stft_eq r k t in
  let mask := bass_mask_at (subcomp_bands sr)
                (nth k (Torch.linspace 0 (sr / 2) n_freq_bins) 0) in
  let factor :=
    (1 + gain_reduction_linear mask (Cabs z) * mask) * makeup_gain_linear in
  at3 Czero (subcomp_compress sr stft_eq) r k t = Cscale z factor /\
  Cabs (at3 Czero (subcomp_compress sr stft_eq) r k t) = factor * Cabs z /\
  1 < makeup_gain_linear <= factor /\
  factor <= 2 * makeup_gain_linear.
Proof.
  intros Hin Hk z mask factor.
  pose proof makeup_gain_linear_gt_1 as Hmk.
  pose proof (gain_reduction_linear_range mask (Cabs z)) as [Hlo Hhi].
  assert (Hmask : mask = 0 \/ mask = 1) by apply bass_mask_at_cases.
  assert (Hfac : makeup_gain_linear <= factor <= 2 * makeup_gain_linear).
  { unfold factor. destruct Hmask as [-> | ->]; split; nra. }
  assert (Hval : at3 Czero (subcomp_compress sr stft_eq) r k t
                 = Cscale z factor).
  { unfold subcomp_compress.
    rewrite (at3_map_freq _ _ stft_eq r k t Czero Czero Hin)
      by (rewrite length_bass_mask, length_linspace; exact Hk).
    rewrite nth_bass_mask by (rewrite length_linspace; exact Hk).
    fold mask. fold z. unfold compress_entry, magnitude_compressed.
    replace (Cabs z * (1 + gain_reduction_linear mask (Cabs z) * mask)
             * makeup_gain_linear)
      with (Cabs z * factor) by (unfold factor; ring).
    rewrite <- Cscale_Cscale, polar_rebuild. reflexivity. }
  split; [exact Hval|]. split; [|split; [split|]]; try lra.
  rewrite Hval. apply Cabs_Cscale. lra.
Qed.

Lemma compressor_scales_every_coefficient_witness :
  makeup_gain_linear
  <= Cabs (at3 Czero (subcomp_compress 44100 flat_spectrum) 0 100 0).
Proof.
  destruct (compressor_scales_every_coefficient 44100 flat_spectrum 0 100 0)
    as (_ & Habs & [_ Hlo] & _).
  - apply in_flat_spectrum; lia.
  - rewrite n_freq_bins_val. lia.
  - rewrite Habs. apply Rle_trans with (1 := Hlo).
    rewrite at3_flat_spectrum, Cabs_Cone by lia. lra.
Defined.

(* ===================================================================== *)
(** ** Further properties: the equalizer stage of the windowed strategies *)
(* ===================================================================== *)

Lemma Rpower_10_ge_1 (y : R) : 0 <= y -> 1 <= Rpower 10 y.
Proof.
  intros Hy. unfold Rpower. pose proof ln_10_pos as Hln.
  destruct (Req_dec (y * ln 10) 0) as [-> | Hne]; [rewrite exp_0; lra|].
  apply Rle_trans with (exp 0); [rewrite exp_0; lra|].
  left. apply exp_increasing. nra.
Qed.

Lemma scale_loop_product (q : band * (R * R) -> R)
      (bands : list (band * (R * R))) (z : C) (p : R) :
  fold_left (fun z entry => Cscale z (q entry)) bands (Cscale z p)
  = Cscale z (fold_left (fun p entry => p * q entry) bands p).
Proof.
  revert p; induction bands as [|e bands IH]; intros p; simpl; [reflexivity|].
  rewrite Cscale_Cscale. apply IH.
Qed.

Lemma product_loop_bounds (q : band * (R * R) -> R)
      (bands : list (band * (R * R))) (p : R) :
  0 < p -> Forall (fun entry => 0 < q entry) bands ->
  0 < fold_left (fun p entry => p * q entry) bands p /\
  (p <= 1 -> Forall (fun entry => q entry <= 1) bands ->
   fold_left (fun p entry => p * q entry) bands p <= 1) /\
  (1 <= p -> Forall (fun entry => 1 <= q entry) bands ->
   1 <= fold_left (fun p entry => p * q entry) bands p).
Proof.
  intros Hp Hall. revert p Hp.
  induction Hall as [|e bands He _ IH]; intros p Hp; simpl.
  - repeat split; auto.
  - assert (Hpe : 0 < p * q e) by nra.
    destruct (IH _ Hpe) as (H1 & H2 & H3).
    split; [exact H1|]. split.
    + intros Hle Hq. inversion Hq; subst. apply H2; [nra | assumption].
    + intros Hge Hq. inversion Hq; subst. apply H3; [nra | assumption].
Qed.

Lemma fold_left_pointwise {A B} (f f' : A -> B -> A) (l : list B) (a : A) :
  (forall x y, f x y = f' x y) -> fold_left f l a = fold_left f' l a.
Proof.
  intros H. revert a; induction l as [|y l IH]; intros a; simpl;
    [reflexivity|]. rewrite H. apply IH.
Qed.

Lemma Cmul_real (z : C) (p : R) : Cmul z (Cscale Cone p) = Cscale z p.
Proof.
  destruct z as [a b]. unfold Cmul, Cscale, Cone. simpl. f_equal; ring.
Qed.

(** An entry after the equalizer stage, for any gain loop of the shape the
    two windowed strategies share. *)
Lemma at3_equalized (profile_at : band * (R * R) -> R -> R)
      (bands : list (band * (R * R))) (freq_bins : list R)
      (s : list (list (list C))) (r k t : nat) :
  in_field s r k t -> (k < length freq_bins)%nat ->
  at3 Czero
      (mul3 s
            (fold_left (fun gf entry =>
                          map_freq (fun p z => Cscale z p)
                                   (map (profile_at entry) freq_bins) gf)
                       bands (ones_like3 s))) r k t
  = Cscale (at3 Czero s r k t)
           (profile_product profile_at bands (nth k freq_bins 0)).
Proof.
  intros Hin Hk.
  destruct (in_field_ones_like3 s r k t Hin) as [Hin1 Hone].
  destruct (at3_gain_loop (fun entry => map (profile_at entry) freq_bins)
              bands (ones_like3 s) r k t Hin1) as [Hval Hin2].
  { apply Forall_forall. intros e _. rewrite length_map. exact Hk. }
  rewrite at3_mul3 by assumption. rewrite Hval, Hone.
  rewrite (fold_left_pointwise
             (fun z entry => Cscale z (nth k (map (profile_at entry) freq_bins) 0))
             (fun z entry => Cscale z (profile_at entry (nth k freq_bins 0)))).
  - rewrite <- (Cscale_1 Cone) at 1. rewrite scale_loop_product.
    apply Cmul_real.
  - intros z e. f_equal. apply nth_map_in. exact Hk.
Qed.

Lemma hann_profile_at_range (g : gains) (entry : band * (R * R)) (f : R) :
  0 < hann_profile_at g entry f /\
  (cuts_only g -> hann_profile_at g entry f <= 1) /\
  (boosts_only g -> 1 <= hann_profile_at g entry f).
Proof.
  unfold hann_profile_at.
  pose proof (gaussian_gain_range (hann_gain_linear g (fst entry))
                ((fst (snd entry) + snd (snd entry)) / 2)
                (hann_divisor (snd entry)) f) as [Hlo Hhi].
  pose proof (db_to_linear_pos (hann_gain_db g (fst entry))) as Hpos.
  fold (hann_gain_linear g (fst entry)) in Hpos.
  split; [|split].
  - unfold Rmin in Hlo. destruct Rle_dec; lra.
  - intros Hc. assert (hann_gain_linear g (fst entry) <= 1).
    { apply Rpower_10_le_1. specialize (Hc (fst entry)).
      unfold hann_gain_db, hann_max_gain_db, Rmin. destruct Rle_dec; lra. }
    unfold Rmax in Hhi. destruct Rle_dec; lra.
  - intros Hb. assert (1 <= hann_gain_linear g (fst entry)).
    { apply Rpower_10_ge_1. specialize (Hb (fst entry)).
      unfold hann_gain_db, hann_max_gain_db, Rmin. destruct Rle_dec; lra. }
    unfold Rmin in Hlo. destruct Rle_dec; lra.
Qed.

Lemma subcomp_profile_at_range (g : gains) (entry : band * (R * R)) (f : R) :
  0 < subcomp_profile_at g entry f /\
  (cuts_only g -> subcomp_profile_at g entry f <= 1) /\
  (boosts_only g -> 1 <= subcomp_profile_at g entry f).
Proof.
  unfold subcomp_profile_at.
  pose proof (gaussian_gain_range (subcomp_gain_linear g (fst entry))
                ((fst (snd entry) + snd (snd entry)) / 2)
                (subcomp_divisor (snd entry)) f) as [Hlo Hhi].
  pose proof (db_to_linear_pos (subcomp_gain_db g (fst entry))) as Hpos.
  fold (subcomp_gain_linear g (fst entry)) in Hpos.
  split; [|split].
  - unfold Rmin in Hlo. destruct Rle_dec; lra.
  - intros Hc. assert (subcomp_gain_linear g (fst entry) <= 1).
    { apply Rpower_10_le_1. specialize (Hc (fst entry)).
      unfold subcomp_gain_db, subcomp_max_gain_db, subcomp_min_gain_db,
        Rmax, Rmin. repeat destruct Rle_dec; lra. }
    unfold Rmax in Hhi. destruct Rle_dec; lra.
  - intros Hb. assert (1 <= subcomp_gain_linear g (fst entry)).
    { apply Rpower_10_ge_1. specialize (Hb (fst entry)).
      unfold subcomp_gain_db, subcomp_max_gain_db, subcomp_min_gain_db,
        Rmax, Rmin. repeat destruct Rle_dec; lra. }
    unfold Rmin in Hlo. destruct Rle_dec; lra.
Qed.

(** X10.  At every sample rate other than 12000 Hz the equalizer stage of
    [process_hann] multiplies each coefficient of the transform by a
    positive real number, the product of the seven band profiles at the
    coefficient's bin: phases are kept and no coefficient is zeroed.  When
    every gain is at most 0 dB no magnitude grows, and when every gain is
    at least 0 dB none shrinks.  At 12000 Hz the brilliance band has no
    width, its profile divides by zero, and nothing is stated. *)
Theorem hann_equalizer_is_a_positive_real_factor (g : gains) (sr : R)
        (waveform_stft : list (list (list C))) (r k t : nat) :
  sr <> 12000 ->
  in_field waveform_stft r k t -> (k < n_freq_bins)%nat ->
  let z := at3 Czero waveform_stft r k t in
  let z' := at3 Czero (hann_stft_eq g sr waveform_stft) r k t in
  let p := hann_bin_gain g sr (nth k (Torch.linspace 0 (sr / 2) n_freq_bins) 0) in
  z' = Cscale z p /\ 0 < p /\ Cabs z' = p * Cabs z /\
  (cuts_only g -> p <= 1 /\ Cabs z' <= Cabs z) /\
  (boosts_only g -> 1 <= p /\ Cabs z <= Cabs z').
Proof.
  intros _ Hin Hk z z' p.
  assert (Hval : z' = Cscale z p).
  { unfold z', hann_stft_eq, hann_gain_factors, p, hann_bin_gain.
    apply (at3_equalized (hann_profile_at g) (hann_bands sr)
             (Torch.linspace 0 (sr / 2) n_freq_bins) waveform_stft r k t Hin).
    rewrite length_linspace. exact Hk. }
  destruct (product_loop_bounds
              (fun entry => hann_profile_at g entry
                 (nth k (Torch.linspace 0 (sr / 2) n_freq_bins) 0))
              (hann_bands sr) 1 Rlt_0_1) as (Hpos & Hle & Hge).
  { apply Forall_forall. intros e _. apply hann_profile_at_range. }
  fold (profile_product (hann_profile_at g) (hann_bands sr)
          (nth k (Torch.linspace 0 (sr / 2) n_freq_bins) 0)) in Hpos, Hle, Hge.
  fold (hann_bin_gain g sr (nth k (Torch.linspace 0 (sr / 2) n_freq_bins) 0))
    in Hpos, Hle, Hge. fold p in Hpos, Hle, Hge.
  assert (Habs : Cabs z' = p * Cabs z).
  { rewrite Hval. apply Cabs_Cscale. lra. }
  pose proof (Cabs_nonneg z) as Hz.
  split; [exact Hval|]. split; [exact Hpos|]. split; [exact Habs|]. split.
  - intros Hc. assert (Hp1 : p <= 1).
    { apply Hle; [lra|]. apply Forall_forall. intros e _.
      apply hann_profile_at_range. exact Hc. }
    split; [exact Hp1|]. rewrite Habs. nra.
  - intros Hb. assert (Hp1 : 1 <= p).
    { apply Hge; [lra|]. apply Forall_forall. intros e _.
      apply hann_profile_at_range. exact Hb. }
    split; [exact Hp1|]. rewrite Habs. nra.
Qed.

Lemma cuts_only_example : cuts_only (mkGains (-3) (-6) 0 0 (-12) 0 (-1)).
Proof. intros b. destruct b; simpl; lra. Qed.

Lemma hann_equalizer_is_a_positive_real_factor_witness :
  Cabs (at3 Czero (hann_stft_eq (mkGains (-3) (-6) 0 0 (-12) 0 (-1)) 44100
                                flat_spectrum) 0 5 0)
  <= Cabs (at3 Czero flat_spectrum 0 5 0).
Proof.
  apply (hann_equalizer_is_a_positive_real_factor
           (mkGains (-3) (-6) 0 0 (-12) 0 (-1)) 44100 flat_spectrum 0 5 0).
  - lra.
  - apply in_flat_spectrum; lia.
  - rewrite n_freq_bins_val. lia.
  - exact cuts_only_example.
Defined.

(** X11.  The same holds for the equalizer stage of [process_subcomp],
    ahead of its compressor: each coefficient is multiplied by the positive
    product of the seven band profiles at its bin, which is at most 1 when
    every gain is at most 0 dB and at least 1 when every gain is at least
    0 dB. *)
Theorem subcomp_equalizer_is_a_positive_real_factor (g : gains) (sr : R)
        (waveform_stft : list (list (list C))) (r k t : nat) :
  in_field waveform_stft r k t -> (k < n_freq_bins)%nat ->
  let z := at3 Czero waveform_stft r k t in
  let z' := at3 Czero (subcomp_stft_eq g sr waveform_stft) r k t in
  let p :=
    subcomp_bin_gain g sr (nth k (Torch.linspace 0 (sr / 2) n_freq_bins) 0) in
  z' = Cscale z p /\ 0 < p /\ Cabs z' = p * Cabs z /\
  (cuts_only g -> p <= 1 /\ Cabs z' <= Cabs z) /\
  (boosts_only g -> 1 <= p /\ Cabs z <= Cabs z').
Proof.
  intros Hin Hk z z' p.
  assert (Hval : z' = Cscale z p).
  { unfold z', subcomp_stft_eq, subcomp_gain_factors, p, subcomp_bin_gain.
    apply (at3_equalized (subcomp_profile_at g) (subcomp_bands sr)
             (Torch.linspace 0 (sr / 2) n_freq_bins) waveform_stft r k t Hin).
    rewrite length_linspace. exact Hk. }
  destruct (product_loop_bounds
              (fun entry => subcomp_profile_at g entry
                 (nth k (Torch.linspace 0 (sr / 2) n_freq_bins) 0))
              (subcomp_bands sr) 1 Rlt_0_1) as (Hpos & Hle & Hge).
  { apply Forall_forall. intros e _. apply subcomp_profile_at_range. }
  fold (profile_product (subcomp_profile_at g) (subcomp_bands sr)
          (nth k (Torch.linspace 0 (sr / 2) n_freq_bins) 0)) in Hpos, Hle, Hge.
  fold (subcomp_bin_gain g sr
          (nth k (Torch.linspace 0 (sr / 2) n_freq_bins) 0)) in Hpos, Hle, Hge.
  fold p in Hpos, Hle, Hge.
  assert (Habs : Cabs z' = p * Cabs z).
  { rewrite Hval. apply Cabs_Cscale. lra. }
  pose proof (Cabs_nonneg z) as Hz.
  split; [exact Hval|]. split; [exact Hpos|]. split; [exact Habs|]. split.
  - intros Hc. assert (Hp1 : p <= 1).
    { apply Hle; [lra|]. apply Forall_forall. intros e _.
      apply subcomp_profile_at_range. exact Hc. }
    split; [exact Hp1|]. rewrite Habs. nra.
  - intros Hb. assert (Hp1 : 1 <= p).
    { apply Hge; [lra|]. apply Forall_forall. intros e _.
      apply subcomp_profile_at_range. exact Hb. }
    split; [exact Hp1|]. rewrite Habs. nra.
Qed.

Lemma boosts_only_example : boosts_only (mkGains 3 6 0 0 12 0 1).
Proof. intros b. destruct b; simpl; lra. Qed.

Lemma subcomp_equalizer_is_a_positive_real_factor_witness :
  Cabs (at3 Czero flat_spectrum 0 5 0)
  <= Cabs (at3 Czero (subcomp_stft_eq (mkGains 3 6 0 0 12 0 1) 44100
                                      flat_spectrum) 0 5 0).
Proof.
  apply (subcomp_equalizer_is_a_positive_real_factor
           (mkGains 3 6 0 0 12 0 1) 44100 flat_spectrum 0 5 0).
  - apply in_flat_spectrum; lia.
  - rewrite n_freq_bins_val. lia.
  - exact boosts_only_example.
Defined.

(* ===================================================================== *)
(** ** Further properties: the mask of process_rfft *)
(* ===================================================================== *)

Lemma band_mask_inside (f f_start f_end : R) :
  f_start <= f < f_end -> band_mask f f_start f_end = true.
Proof.
  intros [H1 H2]. unfold band_mask, Rgeb, Rltb.
  destruct (Rle_dec f_start f); [|lra]. destruct (Rlt_dec f f_end); [|lra].
  reflexivity.
Qed.

Lemma band_mask_below (f f_start f_end : R) :
  f < f_start -> band_mask f f_start f_end = false.
Proof.
  intros H. unfold band_mask, Rgeb.
  destruct (Rle_dec f_start f); [lra | reflexivity].
Qed.

(** The seven masked multiplications amount to one multiplication by the
    gain of the band that holds the frequency. *)
Ltac decide_mask f a b :=
  first [ rewrite (band_mask_inside f a b) by lra
        | rewrite (band_mask_below f a b) by lra
        | rewrite (band_mask_above f a b) by lra ].

Ltac decide_rfft_masks f :=
  decide_mask f 20 60; decide_mask f 60 250; decide_mask f 250 500;
  decide_mask f 500 2000; decide_mask f 2000 4000; decide_mask f 4000 6000;
  decide_mask f 6000 20000.

Lemma rfft_gain_at_bin_gain (g : gains) (f : R) (z : C) :
  rfft_gain_at g f z = Cscale z (rfft_bin_gain g f).
Proof.
  unfold rfft_gain_at, rfft_bin_gain, rfft_bands. simpl.
  destruct (Rlt_dec f 20);
    [decide_rfft_masks f; symmetry; apply Cscale_1|].
  destruct (Rlt_dec f 60); [decide_rfft_masks f; reflexivity|].
  destruct (Rlt_dec f 250); [decide_rfft_masks f; reflexivity|].
  destruct (Rlt_dec f 500); [decide_rfft_masks f; reflexivity|].
  destruct (Rlt_dec f 2000); [decide_rfft_masks f; reflexivity|].
  destruct (Rlt_dec f 4000); [decide_rfft_masks f; reflexivity|].
  destruct (Rlt_dec f 6000); [decide_rfft_masks f; reflexivity|].
  destruct (Rlt_dec f 20000); [decide_rfft_masks f; reflexivity|].
  decide_rfft_masks f. symmetry. apply Cscale_1.
Qed.

Lemma in_field2_rfft_gain_factors (g : gains) freq (ones : list (list C))
      (r k : nat) :
  in_field2 ones r k -> (k < length freq)%nat ->
  in_field2 (rfft_gain_factors g freq ones) r k.
Proof.
  unfold rfft_gain_factors. generalize rfft_bands. intros bands. revert ones.
  induction bands as [|e bands IH]; intros ones Hin Hf; simpl; [exact Hin|].
  apply IH; [|exact Hf].
  apply (at2_rfft_apply_band freq (rfft_gain g (fst e)) (snd e) ones r k
           Hin Hf).
Qed.

Lemma rfft_bin_gain_pos (g : gains) (f : R) : 0 < rfft_bin_gain g f.
Proof.
  unfold rfft_bin_gain, rfft_gain.
  repeat (destruct Rlt_dec; [try lra; apply db_to_linear_pos|]). lra.
Qed.

(** X12.  In [process_rfft] every bin of the spectrum is multiplied by one
    positive real number: the linear gain of the band whose half-open
    interval holds the bin's frequency, and 1 for a bin below 20 Hz or at
    20000 Hz and above.  Bin 0, the constant component, is at 0 Hz and is
    therefore never changed. *)
Theorem rfft_bin_is_scaled_by_its_band (g : gains) (sr : R) (n : nat)
        (waveform_fft : list (list C)) (r k : nat) :
  in_field2 waveform_fft r k -> (k < n / 2 + 1)%nat ->
  let freq_bins := Torch.linspace 0 (sr / 2) (n / 2 + 1) in
  let gain_factors :=
    rfft_gain_factors g freq_bins (ones_like2 waveform_fft) in
  let waveform_fft_eq := map2 (map2 Cmul) waveform_fft gain_factors in
  let f := nth k freq_bins 0 in
  nth k (nth r waveform_fft_eq []) Czero
  = Cscale (nth k (nth r waveform_fft []) Czero) (rfft_bin_gain g f) /\
  0 < rfft_bin_gain g f /\
  (f < 20 \/ 20000 <= f -> rfft_bin_gain g f = 1) /\
  (k = 0%nat ->
   nth k (nth r waveform_fft_eq []) Czero = nth k (nth r waveform_fft []) Czero).
Proof.
  intros Hin Hk freq_bins gain_factors waveform_fft_eq f.
  destruct (at2_ones_like2 waveform_fft r k Hin) as [Hin1 Hone].
  assert (Hlen : (k < length freq_bins)%nat)
    by (unfold freq_bins; rewrite length_linspace; exact Hk).
  pose proof (in_field2_rfft_gain_factors g freq_bins _ r k Hin1 Hlen)
    as [Hr2 Hk2].
  fold gain_factors in Hr2, Hk2.
  assert (Hgf : nth k (nth r gain_factors []) Czero
                = Cscale Cone (rfft_bin_gain g f)).
  { unfold gain_factors. rewrite at2_rfft_gain_factors by assumption.
    rewrite Hone. apply rfft_gain_at_bin_gain. }
  assert (Hval : nth k (nth r waveform_fft_eq []) Czero
                 = Cscale (nth k (nth r waveform_fft []) Czero)
                          (rfft_bin_gain g f)).
  { unfold waveform_fft_eq. destruct Hin as [Hr Hkk].
    rewrite (nth_map2 _ waveform_fft gain_factors r [] [] []) by assumption.
    rewrite (nth_map2 Cmul _ _ k Czero Czero Czero) by assumption.
    rewrite Hgf. apply Cmul_real. }
  assert (Hout : f < 20 \/ 20000 <= f -> rfft_bin_gain g f = 1).
  { intros Hf. unfold rfft_bin_gain.
    destruct Hf as [Hf | Hf].
    - destruct (Rlt_dec f 20); [reflexivity | lra].
    - repeat (destruct Rlt_dec; [lra|]). reflexivity. }
  split; [exact Hval|]. split; [apply rfft_bin_gain_pos|].
  split; [exact Hout|].
  intros Hk0. rewrite Hval, Hout; [apply Cscale_1|].
  left. unfold f, freq_bins. rewrite nth_linspace by exact Hk.
  subst k. simpl INR. lra.
Qed.

Lemma rfft_bin_is_scaled_by_its_band_witness :
  nth 0 (nth 0 (map2 (map2 Cmul) [[Cone; Cone; Cone]]
                     (rfft_gain_factors
                        (mkGains 12 12 12 12 12 12 12)
                        (Torch.linspace 0 (44100 / 2) (4 / 2 + 1))
                        (ones_like2 [[Cone; Cone; Cone]]))) []) Czero
  = nth 0 (nth 0 [[Cone; Cone; Cone]] []) Czero.
Proof.
  apply (rfft_bin_is_scaled_by_its_band (mkGains 12 12 12 12 12 12 12)
           44100 4%nat [[Cone; Cone; Cone]] 0%nat 0%nat).
  - unfold in_field2. simpl. lia.
  - simpl. lia.
  - reflexivity.
Defined.

(* ===================================================================== *)
(** ** Further properties: inputs without samples or without batch *)
(* ===================================================================== *)

Lemma validate_accepts ai w sr b c n :
  in_waveform ai = Some (PyTensor w) -> in_sample_rate ai = Some sr ->
  shape w = [b; c; n] -> (c = 1 \/ c = 2)%nat ->
  validate ai = ret (mkChecked w sr b c n).
Proof.
  intros Hw Hs Hsh Hc. unfold validate. rewrite Hw, Hs, Hsh.
  destruct Hc as [-> | ->]; reflexivity.
Qed.

(** X13.  The opening checks do not look at the sample count: a waveform
    of shape [[b; c; 0]] with one or two channels passes them, and each
    strategy then fails with a [RuntimeError] from torch, never with the
    [ValueError] of a rejected input.  [process_rfft] has by then called
    [torch.fft.rfft]; the windowed strategies fail at [view(-1, 0)], before
    their transform. *)
Theorem no_samples_pass_validation ai w sr b c (g : gains) :
  in_waveform ai = Some (PyTensor w) -> in_sample_rate ai = Some sr ->
  shape w = [b; c; 0%nat] -> (c = 1 \/ c = 2)%nat ->
  validate ai = ([], Ok (mkChecked w sr b c 0)) /\
  (forall m, exists msg,
     outcome (process ai m g) = Raise (RuntimeError msg)) /\
  trace (process_rfft ai g) = [EvRfft] /\
  trace (process_hann ai g) = [] /\
  trace (process_subcomp ai g) = [].
Proof.
  intros Hw Hs Hsh Hc.
  pose proof (validate_accepts ai w sr b c 0 Hw Hs Hsh Hc) as Hv.
  split; [exact Hv|].
  split; [|split; [|split]].
  - intros m. destruct m; unfold process, process_hann, process_subcomp,
      process_rfft; rewrite Hv; eexists; reflexivity.
  - unfold process_rfft. rewrite Hv. reflexivity.
  - unfold process_hann. rewrite Hv. reflexivity.
  - unfold process_subcomp. rewrite Hv. reflexivity.
Qed.

Lemma no_samples_pass_validation_witness :
  exists msg,
    outcome (process (input_of no_samples_waveform 48000) Subcomp zero_gains)
    = Raise (RuntimeError msg).
Proof.
  apply (no_samples_pass_validation (input_of no_samples_waveform 48000)
           no_samples_waveform 48000 1%nat 2%nat zero_gains);
    try reflexivity.
  right. reflexivity.
Defined.

Lemma view_rows_empty_batch (w : tensor) (n : nat) :
  (0 < n)%nat -> length (data w) = 0%nat ->
  Torch.view_rows w n = ret [].
Proof.
  intros Hn Hlen. unfold Torch.view_rows.
  destruct (Nat.eqb_spec n 0); [lia|].
  rewrite Hlen, Nat.Div0.mod_0_l, Nat.Div0.div_0_l. reflexivity.
Qed.

(** X14.  No strategy has a guard for a batch without elements, and a valid
    input of shape [[0; c; n]] makes each of them fail with a [RuntimeError]
    raised inside torch.  The windowed strategies fail inside [torch.stft],
    whatever the sample count [n]: [view(-1, n)] yields a tensor without
    rows, which the reflect padding of the centred transform refuses, so
    [torch.stft] is the only transform begun and [torch.istft] is never
    called.  [process_rfft] fails as well. *)
Theorem empty_batch_raises ai w sr c n (g : gains) :
  valid_input ai w sr 0 c n ->
  (exists msg, process_hann ai g = ([EvStft], Raise (RuntimeError msg))) /\
  (exists msg, process_subcomp ai g = ([EvStft], Raise (RuntimeError msg))) /\
  (exists msg, outcome (process_rfft ai g) = Raise (RuntimeError msg)) /\
  (forall m, exists msg, outcome (process ai m g) = Raise (RuntimeError msg)).
Proof.
  intros Hv. pose proof Hv as (_ & _ & Hsh & Hc & Hn & Hwf).
  unfold wf_tensor in Hwf. rewrite Hsh in Hwf. simpl in Hwf.
  assert (Hhann : exists msg,
             process_hann ai g = ([EvStft], Raise (RuntimeError msg))).
  { unfold process_hann. rewrite (validate_valid _ _ _ _ _ _ Hv).
    unfold bind at 1, ret at 1. cbv beta iota.
    simpl num_samples. simpl ck_waveform.
    rewrite (view_rows_empty_batch w n Hn Hwf).
    eexists. reflexivity. }
  assert (Hsub : exists msg,
             process_subcomp ai g = ([EvStft], Raise (RuntimeError msg))).
  { unfold process_subcomp. rewrite (validate_valid _ _ _ _ _ _ Hv).
    unfold bind at 1, ret at 1. cbv beta iota.
    simpl num_samples. simpl ck_waveform.
    rewrite (view_rows_empty_batch w n Hn Hwf).
    eexists. reflexivity. }
  assert (Hrfft : exists msg,
             outcome (process_rfft ai g) = Raise (RuntimeError msg)).
  { unfold process_rfft. rewrite (validate_valid _ _ _ _ _ _ Hv).
    rewrite outcome_bind. unfold ret at 1, outcome at 1. simpl snd.
    cbv beta iota. simpl num_samples. simpl batch_size. simpl channels.
    simpl ck_sample_rate. simpl ck_waveform.
    rewrite outcome_bind, fft_rfft_outcome by exact Hn.
    rewrite outcome_bind, fft_irfft_outcome by exact Hn.
    eexists. reflexivity. }
  repeat split; try assumption.
  intros m. destruct m; unfold process.
  - destruct Hhann as [msg ->]. eexists. reflexivity.
  - destruct Hsub as [msg ->]. eexists. reflexivity.
  - exact Hrfft.
Qed.

Lemma valid_empty_long :
  valid_input (input_of empty_long_waveform 44100)
              empty_long_waveform 44100 0 1 2048.
Proof. unfold valid_input, wf_tensor. simpl. repeat split; auto; lia. Qed.

Lemma empty_batch_raises_witness :
  exists msg,
    process_hann (input_of empty_long_waveform 44100) zero_gains
    = ([EvStft], Raise (RuntimeError msg)).
Proof.
  exact (proj1 (empty_batch_raises _ _ _ _ _ zero_gains valid_empty_long)).
Defined.

(* ===================================================================== *)
(** ** Further properties: bin frequencies *)
(* ===================================================================== *)

Lemma INR_half_even (m : nat) : INR (2 * m / 2) = INR (2 * m) / 2.
Proof.
  rewrite Nat.mul_comm, Nat.div_mul by lia. rewrite mult_INR. simpl INR. lra.
Qed.

Lemma half_odd (m : nat) : ((2 * m + 1) / 2 = m)%nat.
Proof.
  rewrite Nat.add_comm, Nat.mul_comm, Nat.div_add by lia. reflexivity.
Qed.

(** X15.  The frequency that the strategies attach to bin [k] is
    [k * sample_rate / n] when the transform length [n] is even, and that
    is the frequency the coefficient of the transform stands for; this
    covers the windowed strategies, whose length is 2048.  For an odd
    number of samples [process_rfft] attaches [k * sample_rate / (n - 1)],
    a frequency too high by the factor [n / (n - 1)]. *)
Theorem bin_frequency_labels (sr : R) (m k : nat) :
  (0 < m)%nat -> (k <= m)%nat ->
  nth k (Torch.linspace 0 (sr / 2) (2 * m / 2 + 1)) 0
  = INR k * sr / INR (2 * m) /\
  nth k (Torch.linspace 0 (sr / 2) ((2 * m + 1) / 2 + 1)) 0
  = INR k * sr / INR (2 * m + 1 - 1) /\
  (forall x : list R,
     length x = (2 * m)%nat ->
     Dft.rfft_coef x k
     = (sum_n (2 * m) (fun j => nth j x 0 * cos (2 * PI * (INR k / INR (2 * m)) * INR j)),
        - sum_n (2 * m) (fun j => nth j x 0 * sin (2 * PI * (INR k / INR (2 * m)) * INR j)))) /\
  ((k < n_freq_bins)%nat ->
   nth k (Torch.linspace 0 (sr / 2) n_freq_bins) 0 = INR k * sr / 2048).
Proof.
  intros Hm Hk.
  assert (HM : 0 < INR m) by (apply lt_0_INR; exact Hm).
  split; [|split; [|split]].
  - rewrite nth_linspace by (rewrite Nat.mul_comm, Nat.div_mul; lia).
    replace (2 * m / 2 + 1 - 1)%nat with (2 * m / 2)%nat by lia.
    rewrite INR_half_even, mult_INR. simpl INR. field. lra.
  - rewrite half_odd.
    rewrite nth_linspace by lia.
    replace (m + 1 - 1)%nat with m by lia.
    replace (2 * m + 1 - 1)%nat with (2 * m)%nat by lia.
    rewrite mult_INR. simpl INR. field. lra.
  - intros x Hx. unfold Dft.rfft_coef. rewrite Hx.
    assert (H2M : INR (2 * m) <> 0).
    { rewrite mult_INR. simpl INR. lra. }
    f_equal; [|f_equal]; apply sum_n_ext; intros j _; do 2 f_equal;
      unfold Dft.theta; field; exact H2M.
  - intros Hkb. rewrite nth_linspace by exact Hkb.
    rewrite INR_bins_pred. field.
Qed.

Lemma bin_frequency_labels_witness :
  nth 3 (Torch.linspace 0 (48000 / 2) (2 * 4 / 2 + 1)) 0
  = INR 3 * 48000 / INR (2 * 4).
Proof. apply (bin_frequency_labels 48000 4 3); lia. Defined.

(* ===================================================================== *)
(** ** Further properties: a band above the Nyquist frequency *)
(* ===================================================================== *)

Lemma linspace_upper (b : R) (steps : nat) :
  0 <= b -> Forall (fun f => f <= b) (Torch.linspace 0 b steps).
Proof.
  intros Hb. unfold Torch.linspace. rewrite Forall_map. apply Forall_forall.
  intros i Hi. apply in_seq in Hi.
  destruct (Nat.eq_dec (steps - 1) 0) as [Hz | Hnz].
  - assert (i = 0%nat) by lia. subst i. simpl INR. lra.
  - assert (Hs : 0 < INR (steps - 1)) by (apply lt_0_INR; lia).
    assert (Hle : INR i <= INR (steps - 1)) by (apply le_INR; lia).
    replace (0 + INR i * ((b - 0) / INR (steps - 1)))
      with (b * (INR i / INR (steps - 1))) by (field; lra).
    assert (INR i / INR (steps - 1) <= 1).
    { apply (Rmult_le_reg_r (INR (steps - 1))); [exact Hs|].
      unfold Rdiv. rewrite Rmult_assoc, Rinv_l by lra. lra. }
    nra.
Qed.

Lemma map2_masked_out (freq : list R) (rng : R * R) (gain gain' : R)
      (gf_row : list C) :
  Forall (fun f => band_mask f (fst rng) (snd rng) = false) freq ->
  map2 (fun f z => if band_mask f (fst rng) (snd rng)
                   then Cscale z gain else z) freq gf_row
  = map2 (fun f z => if band_mask f (fst rng) (snd rng)
                     then Cscale z gain' else z) freq gf_row.
Proof.
  intros Hall. revert gf_row.
  induction Hall as [|f freq Hf _ IH]; intros [|z gf_row]; simpl;
    try reflexivity. rewrite Hf, IH. reflexivity.
Qed.

Lemma rfft_apply_band_masked_out (freq : list R) (rng : R * R)
      (gain gain' : R) (gf : list (list C)) :
  Forall (fun f => band_mask f (fst rng) (snd rng) = false) freq ->
  rfft_apply_band freq gain rng gf = rfft_apply_band freq gain' rng gf.
Proof.
  intros Hall. unfold rfft_apply_band. apply map_ext. intros gf_row.
  apply map2_masked_out. exact Hall.
Qed.

Lemma rfft_gain_factors_without_brilliance (g g' : gains) (freq : list R)
      (ones : list (list C)) :
  (forall b, b <> Brilliance -> gain_db_of g b = gain_db_of g' b) ->
  Forall (fun f => f < 6000) freq ->
  rfft_gain_factors g freq ones = rfft_gain_factors g' freq ones.
Proof.
  intros Hsame Hlow.
  assert (Hg : forall b, b <> Brilliance -> rfft_gain g b = rfft_gain g' b).
  { intros b Hb. unfold rfft_gain. rewrite (Hsame b Hb). reflexivity. }
  unfold rfft_gain_factors, rfft_bands. simpl.
  rewrite (Hg SubBass), (Hg Bass), (Hg LowMid), (Hg Mid), (Hg UpperMid),
    (Hg Presence) by discriminate.
  apply rfft_apply_band_masked_out. simpl.
  eapply Forall_impl; [|exact Hlow]. intros f Hf. simpl in Hf.
  apply band_mask_below. exact Hf.
Qed.

Lemma bind_ret_l {A B} (a : A) (f : A -> M B) : bind (ret a) f = f a.
Proof. unfold bind, ret. destruct (f a). reflexivity. Qed.

Lemma validate_cases ai :
  (exists e, validate ai = raise e) \/
  (exists w sr b c n,
     validate ai = ret (mkChecked w sr b c n) /\ in_sample_rate ai = Some sr).
Proof.
  unfold validate.
  destruct (in_waveform ai) as [[w|]|]; destruct (in_sample_rate ai) as [sr|];
    try (left; eexists; reflexivity).
  destruct (shape w) as [|b [|c [|n [|x l]]]];
    try (left; eexists; reflexivity).
  destruct ((c =? 1) || (c =? 2))%nat.
  - right. exists w, sr, b, c, n. split; reflexivity.
  - left. eexists; reflexivity.
Qed.

(** X16.  When the sample rate is below 12000 Hz every bin of
    [process_rfft] lies under 6000 Hz, the lower edge of the brilliance
    band, and the brilliance gain has no effect at all: two calls that
    differ only in that gain give the same result. *)
Theorem rfft_ignores_brilliance_below_12k ai sr (g g' : gains) :
  in_sample_rate ai = Some sr -> 0 <= sr < 12000 ->
  (forall b, b <> Brilliance -> gain_db_of g b = gain_db_of g' b) ->
  process_rfft ai g = process_rfft ai g'.
Proof.
  intros Hsr Hrange Hsame.
  destruct (validate_cases ai) as [[e He] | (w & sr' & b & c & n & Hv & Hsr')].
  - unfold process_rfft. rewrite He. reflexivity.
  - assert (sr' = sr) by congruence. subst sr'.
    assert (Hgf : forall steps ones,
               rfft_gain_factors g (Torch.linspace 0 (sr / 2) steps) ones
               = rfft_gain_factors g' (Torch.linspace 0 (sr / 2) steps) ones).
    { intros steps ones. apply rfft_gain_factors_without_brilliance;
        [exact Hsame|].
      eapply Forall_impl; [|apply (linspace_upper (sr / 2) steps); lra].
      intros f Hf. simpl in Hf. lra. }
    unfold process_rfft. rewrite Hv, !bind_ret_l.
    simpl num_samples. simpl batch_size. simpl channels.
    simpl ck_sample_rate. simpl ck_waveform.
    apply bind_ext. intros waveform_fft. rewrite Hgf. reflexivity.
Qed.

Lemma rfft_ignores_brilliance_below_12k_witness :
  process_rfft (input_of tiny_waveform 8000) (mkGains 0 3 0 0 0 0 12)
  = process_rfft (input_of tiny_waveform 8000) (mkGains 0 3 0 0 0 0 (-12)).
Proof.
  apply (rfft_ignores_brilliance_below_12k _ 8000).
  - reflexivity.
  - lra.
  - intros b Hb. destruct b; try reflexivity. contradiction.
Defined.

(* ===================================================================== *)
(** ** C9: compressed bass against the uncompressed strategy *)
(* ===================================================================== *)

Lemma in_field_subcomp_stft_eq (g : gains) (sr : R) (s : list (list (list C)))
      (r k t : nat) :
  in_field s r k t -> (k < n_freq_bins)%nat ->
  in_field (subcomp_stft_eq g sr s) r k t.
Proof.
  intros Hin Hk. unfold subcomp_stft_eq, subcomp_gain_factors.
  destruct (in_field_ones_like3 s r k t Hin) as [Hin1 _].
  apply in_field_mul3; [exact Hin|].
  apply (at3_gain_loop
           (fun entry =>
              subcomp_gain_profile (subcomp_gain_linear g (fst entry))
                (snd entry) (Torch.linspace 0 (sr / 2) n_freq_bins))
           (subcomp_bands sr) (ones_like3 s) r k t Hin1).
  apply Forall_forall. intros e _. unfold subcomp_gain_profile.
  rewrite length_map, length_linspace. exact Hk.
Qed.

(** The magnitude of an entry after the equalizer stage of either windowed
    strategy: the magnitude before it times the product of the profiles. *)
Lemma Cabs_hann_stft_eq (g : gains) (sr : R) (s : list (list (list C)))
      (r k t : nat) :
  in_field s r k t -> (k < n_freq_bins)%nat ->
  Cabs (at3 Czero (hann_stft_eq g sr s) r k t)
  = hann_bin_gain g sr (nth k (Torch.linspace 0 (sr / 2) n_freq_bins) 0)
    * Cabs (at3 Czero s r k t).
Proof.
  intros Hin Hk.
  assert (Hval : at3 Czero (hann_stft_eq g sr s) r k t
                 = Cscale (at3 Czero s r k t)
                     (hann_bin_gain g sr
                        (nth k (Torch.linspace 0 (sr / 2) n_freq_bins) 0))).
  { unfold hann_stft_eq, hann_gain_factors, hann_bin_gain.
    apply (at3_equalized (hann_profile_at g) (hann_bands sr)
             (Torch.linspace 0 (sr / 2) n_freq_bins) s r k t Hin).
    rewrite length_linspace. exact Hk. }
  rewrite Hval. apply Cabs_Cscale. left.
  apply (product_loop_bounds
           (fun entry => hann_profile_at g entry
              (nth k (Torch.linspace 0 (sr / 2) n_freq_bins) 0))
           (hann_bands sr) 1 Rlt_0_1).
  apply Forall_forall. intros e _. apply hann_profile_at_range.
Qed.

Lemma Cabs_subcomp_stft_eq (g : gains) (sr : R) (s : list (list (list C)))
      (r k t : nat) :
  in_field s r k t -> (k < n_freq_bins)%nat ->
  Cabs (at3 Czero (subcomp_stft_eq g sr s) r k t)
  = subcomp_bin_gain g sr (nth k (Torch.linspace 0 (sr / 2) n_freq_bins) 0)
    * Cabs (at3 Czero s r k t).
Proof.
  intros Hin Hk.
  assert (Hval : at3 Czero (subcomp_stft_eq g sr s) r k t
                 = Cscale (at3 Czero s r k t)
                     (subcomp_bin_gain g sr
                        (nth k (Torch.linspace 0 (sr / 2) n_freq_bins) 0))).
  { unfold subcomp_stft_eq, subcomp_gain_factors, subcomp_bin_gain.
    apply (at3_equalized (subcomp_profile_at g) (subcomp_bands sr)
             (Torch.linspace 0 (sr / 2) n_freq_bins) s r k t Hin).
    rewrite length_linspace. exact Hk. }
  rewrite Hval. apply Cabs_Cscale. left.
  apply (product_loop_bounds
           (fun entry => subcomp_profile_at g entry
              (nth k (Torch.linspace 0 (sr / 2) n_freq_bins) 0))
           (subcomp_bands sr) 1 Rlt_0_1).
  apply Forall_forall. intros e _. apply subcomp_profile_at_range.
Qed.

(** The soft knee never gives back gain as the level rises. *)
Lemma compression_amount_antitone (a b : R) :
  a <= b -> compression_amount b <= compression_amount a.
Proof.
  intros Hab. unfold compression_amount, knee, ratio. cbv zeta.
  destruct (Rlt_dec (5 / 2) a); destruct (Rlt_dec (5 / 2) b);
    destruct (Rlt_dec (- (5) / 2) a); destruct (Rlt_dec (- (5) / 2) b);
    try lra; nra.
Qed.

Lemma compression_amount_neg (over_threshold : R) :
  0 < over_threshold -> compression_amount over_threshold < 0.
Proof.
  intros Hpos. unfold compression_amount, knee, ratio. cbv zeta.
  destruct (Rlt_dec (5 / 2) over_threshold);
    destruct (Rlt_dec (- (5) / 2) over_threshold); try lra; nra.
Qed.

Lemma Rpower_10_lt_1 (y : R) : y < 0 -> Rpower 10 y < 1.
Proof.
  intros Hy. rewrite <- (Rpower_O 10) by lra. apply Rpower_lt; lra.
Qed.

Lemma Rpower_10_monotone (x y : R) : x <= y -> Rpower 10 x <= Rpower 10 y.
Proof. intros Hxy. apply Rle_Rpower; lra. Qed.

Lemma bass_magnitude_db_monotone (x y : R) :
  0 <= x -> x <= y -> bass_magnitude_db 1 x <= bass_magnitude_db 1 y.
Proof.
  intros Hx Hxy. unfold bass_magnitude_db, log10.
  pose proof ln_10_pos as H10.
  assert (Hln : ln (x * 1 + / 100000000) <= ln (y * 1 + / 100000000)).
  { destruct (Req_dec x y) as [-> | Hne]; [lra|].
    left. apply ln_increasing; lra. }
  assert (ln (x * 1 + / 100000000) / ln 10
          <= ln (y * 1 + / 100000000) / ln 10).
  { unfold Rdiv. apply Rmult_le_compat_r; [|exact Hln].
    left. apply Rinv_0_lt_compat. exact H10. }
  lra.
Qed.

(** The louder the bin, the smaller the gain-reduction factor. *)
Lemma gain_reduction_linear_antitone (x y : R) :
  0 <= x -> x <= y ->
  gain_reduction_linear 1 y <= gain_reduction_linear 1 x.
Proof.
  intros Hx Hxy. unfold gain_reduction_linear. apply Rpower_10_monotone.
  pose proof (bass_magnitude_db_monotone x y Hx Hxy) as Hdb.
  pose proof (compression_amount_antitone
                (bass_magnitude_db 1 x - threshold)
                (bass_magnitude_db 1 y - threshold)) as Hc.
  lra.
Qed.

(** A level above the threshold belongs to a magnitude that is not zero. *)
Lemma above_threshold_positive (x : R) :
  0 <= x -> threshold < bass_magnitude_db 1 x -> 0 < x.
Proof.
  intros Hnn Hloud.
  destruct (Rle_lt_dec x 0) as [Hle | Hgt]; [|exact Hgt].
  exfalso. assert (Hx0 : x = 0) by lra. rewrite Hx0 in Hloud.
  unfold bass_magnitude_db, threshold, log10 in Hloud.
  replace (0 * 1 + / 100000000) with (/ 100000000) in Hloud by ring.
  assert (Hln : ln (/ 100000000) < ln (/ 10)).
  { apply ln_increasing; lra. }
  rewrite (ln_Rinv 10) in Hln by lra.
  pose proof ln_10_pos as H10.
  assert (ln (/ 100000000) / ln 10 < -1).
  { apply (Rmult_lt_reg_r (ln 10)); [exact H10|].
    unfold Rdiv. rewrite Rmult_assoc, Rinv_l by lra. lra. }
  lra.
Qed.

Lemma product_loop_le (q q' : band * (R * R) -> R)
      (bands : list (band * (R * R))) (p p' : R) :
  0 < p <= p' -> Forall (fun entry => 0 < q entry <= q' entry) bands ->
  fold_left (fun p entry => p * q entry) bands p
  <= fold_left (fun p entry => p * q' entry) bands p'.
Proof.
  intros Hp Hall. revert p p' Hp.
  induction Hall as [|e bands He _ IH]; intros p p' Hp; simpl; [lra|].
  apply IH. split; nra.
Qed.

(** With a boost, the wider Gaussian of [process_subcomp] lies above the
    Gaussian of [process_hann] on a band of non-zero width. *)
Lemma gaussian_gain_wider_boost (gain f : R) (rng : R * R) :
  1 <= gain -> fst rng <> snd rng ->
  gaussian_gain gain ((fst rng + snd rng) / 2) (hann_divisor rng) f
  <= gaussian_gain gain ((fst rng + snd rng) / 2) (subcomp_divisor rng) f.
Proof.
  intros Hg Hne. destruct rng as [f_start f_end]. simpl fst in *.
  simpl snd in *.
  assert (Hw : f_end - f_start <> 0) by lra.
  assert (Hd : subcomp_divisor (f_start, f_end)
               = 2 * hann_divisor (f_start, f_end)).
  { unfold subcomp_divisor, subcomp_bandwidth, hann_divisor, hann_bandwidth.
    simpl. destruct Req_dec_T; [contradiction | field]. }
  assert (Hh : hann_divisor (f_start, f_end) <> 0).
  { unfold hann_divisor, hann_bandwidth. simpl. lra. }
  unfold gaussian_gain. rewrite Hd.
  set (x := (f - (f_start + f_end) / 2) / hann_divisor (f_start, f_end)).
  replace ((f - (f_start + f_end) / 2) / (2 * hann_divisor (f_start, f_end)))
    with (x / 2) by (unfold x; field; exact Hh).
  assert (Hexp : exp (- (1 / 2) * x ^ 2) <= exp (- (1 / 2) * (x / 2) ^ 2)).
  { pose proof (pow2_ge_0 x) as Hx.
    replace ((x / 2) ^ 2) with (x ^ 2 / 4) by field.
    destruct (Req_dec (x ^ 2) 0) as [H0 | Hn0].
    - rewrite H0. replace (- (1 / 2) * (0 / 4)) with (- (1 / 2) * 0) by field.
      lra.
    - left. apply exp_increasing. lra. }
  nra.
Qed.

(** Gains between 0 and 12 dB pass both clamps unchanged. *)
Lemma gains_between_0_and_12 (g : gains) (b : band) :
  0 <= gain_db_of g b <= 12 ->
  hann_gain_linear g b = subcomp_gain_linear g b /\
  1 <= hann_gain_linear g b.
Proof.
  intros [Hlo Hhi]. unfold hann_gain_linear, subcomp_gain_linear.
  assert (Hh : hann_gain_db g b = gain_db_of g b).
  { unfold hann_gain_db, hann_max_gain_db, Rmin. destruct Rle_dec; lra. }
  assert (Hs : subcomp_gain_db g b = gain_db_of g b).
  { unfold subcomp_gain_db, subcomp_max_gain_db, subcomp_min_gain_db,
      Rmax, Rmin. repeat destruct Rle_dec; lra. }
  rewrite Hh, Hs. split; [reflexivity|].
  unfold db_to_linear. apply Rpower_10_ge_1. lra.
Qed.

(** With such gains, and away from the sample rate at which [process_hann]
    divides by zero, the equalizer of [process_subcomp] boosts every bin at
    least as much as that of [process_hann]. *)
Lemma hann_bin_gain_le_subcomp (g : gains) (sr f : R) :
  (forall b, 0 <= gain_db_of g b <= 12) -> sr <> 12000 ->
  hann_bin_gain g sr f <= subcomp_bin_gain g sr f.
Proof.
  intros Hg Hsr. unfold hann_bin_gain, subcomp_bin_gain, profile_product.
  change (subcomp_bands sr) with (hann_bands sr).
  apply product_loop_le; [lra|].
  apply Forall_forall. intros e He. split.
  - apply hann_profile_at_range.
  - unfold hann_profile_at, subcomp_profile_at.
    destruct (gains_between_0_and_12 g (fst e) (Hg (fst e))) as [Heq Hge].
    rewrite <- Heq. apply gaussian_gain_wider_boost; [exact Hge|].
    simpl in He.
    repeat (destruct He as [<- | He]; [simpl; lra|]). destruct He.
Qed.

(** C9.  Take any gains, any transform and any of its bins whose frequency
    lies in [[20, 250]] Hz and whose level after the equalizer stage of
    [process_subcomp] exceeds the -20 dB threshold.  The compression step
    multiplies the magnitude of that bin by [1 + gain_reduction_linear], a
    factor strictly between 1 and 2 that gets smaller as the level rises;
    so the magnitude after the compression step, before makeup gain, is
    higher than before it.  When every gain lies between 0 and 12 dB and
    the sample rate is not 12000 Hz, it is also higher than the magnitude
    [process_hann] gives the same bin with the same gains. *)
Theorem compressed_bass_is_louder (g : gains) (sr : R)
        (s : list (list (list C))) (r k t : nat) :
  in_field s r k t -> (k < n_freq_bins)%nat ->
  let f := nth k (Torch.linspace 0 (sr / 2) n_freq_bins) 0 in
  let equalized := Cabs (at3 Czero (subcomp_stft_eq g sr s) r k t) in
  let compressed :=
    at3 0 (magnitude_compressed_field sr (subcomp_stft_eq g sr s)) r k t in
  let hann_magnitude := Cabs (at3 Czero (hann_stft_eq g sr s) r k t) in
  20 <= f <= 250 ->
  threshold < bass_magnitude_db 1 equalized ->
  compressed = equalized * (1 + gain_reduction_linear 1 equalized) /\
  1 < 1 + gain_reduction_linear 1 equalized < 2 /\
  equalized < compressed /\
  (forall louder, equalized <= louder ->
     gain_reduction_linear 1 louder <= gain_reduction_linear 1 equalized) /\
  ((forall b, 0 <= gain_db_of g b <= 12) -> sr <> 12000 ->
   hann_magnitude < compressed).
Proof.
  intros Hin Hk f equalized compressed hann_magnitude Hf Hloud.
  pose proof (in_field_subcomp_stft_eq g sr s r k t Hin Hk) as Hin'.
  assert (Hnn : 0 <= equalized) by apply Cabs_nonneg.
  pose proof (above_threshold_positive equalized Hnn Hloud) as Hpos.
  assert (Hc : compressed
               = equalized * (1 + gain_reduction_linear 1 equalized)).
  { unfold compressed.
    rewrite at3_magnitude_compressed_field by assumption.
    fold f. rewrite (bass_mask_at_inside sr f Hf).
    unfold magnitude_compressed. rewrite Rmult_1_r. reflexivity. }
  pose proof (gain_reduction_linear_range 1 equalized) as [Hlo _].
  assert (Hlt : gain_reduction_linear 1 equalized < 1).
  { unfold gain_reduction_linear. apply Rpower_10_lt_1.
    pose proof (compression_amount_neg
                  (bass_magnitude_db 1 equalized - threshold)) as Hneg.
    lra. }
  assert (Hup : equalized < compressed) by (rewrite Hc; nra).
  split; [exact Hc|]. split; [lra|]. split; [exact Hup|]. split.
  - intros louder Hle. apply gain_reduction_linear_antitone; assumption.
  - intros Hg Hsr. apply Rle_lt_trans with (2 := Hup).
    unfold hann_magnitude, equalized.
    rewrite Cabs_hann_stft_eq, Cabs_subcomp_stft_eq by assumption.
    apply Rmult_le_compat_r; [apply Cabs_nonneg|].
    apply hann_bin_gain_le_subcomp; assumption.
Qed.

Lemma bass_boost_example :
  forall b, 0 <= gain_db_of (mkGains 3 6 0 0 0 0 0) b <= 12.
Proof. intros b. destruct b; simpl; lra. Qed.

(** At 44100 Hz, with the sub-bass raised by 3 dB and the bass by 6 dB, at
    bin 5 (about 107.7 Hz) of a transform whose coefficients are all
    [1 + 0j]. *)
Lemma compressed_bass_is_louder_witness :
  Cabs (at3 Czero (hann_stft_eq (mkGains 3 6 0 0 0 0 0) 44100 flat_spectrum)
            0 5 0)
  < at3 0 (magnitude_compressed_field
             44100 (subcomp_stft_eq (mkGains 3 6 0 0 0 0 0) 44100
                                    flat_spectrum)) 0 5 0.
Proof.
  assert (Hin : in_field flat_spectrum 0 5 0) by (apply in_flat_spectrum; lia).
  assert (Hk : (5 < n_freq_bins)%nat) by (rewrite n_freq_bins_val; lia).
  apply (compressed_bass_is_louder (mkGains 3 6 0 0 0 0 0) 44100
           flat_spectrum 0 5 0 Hin Hk).
  - rewrite bin_5_frequency. lra.
  - apply Rlt_le_trans with (1 := unit_magnitude_above_threshold).
    apply bass_magnitude_db_monotone; [lra|].
    rewrite Cabs_subcomp_stft_eq, at3_flat_spectrum, Cabs_Cone by
      (assumption || lia).
    rewrite Rmult_1_r.
    apply (product_loop_bounds
             (fun entry => subcomp_profile_at (mkGains 3 6 0 0 0 0 0) entry
                (nth 5 (Torch.linspace 0 (44100 / 2) n_freq_bins) 0))
             (subcomp_bands 44100) 1 Rlt_0_1).
    + apply Forall_forall. intros e _. apply subcomp_profile_at_range.
    + lra.
    + apply Forall_forall. intros e _. apply subcomp_profile_at_range.
      intros b. apply bass_boost_example.
  - exact bass_boost_example.
  - lra.
Defined.

(** The claim as it was made fails at 44100 Hz with every gain at 0 dB, on
    a transform whose coefficients are all [1 + 0j]: bin 5 lies in the bass
    band at about 107.7 Hz and its level of 0 dB exceeds the threshold;
    [process_hann] leaves its magnitude at 1, the compression step of
    [process_subcomp] raises it above 1. *)
Lemma compression_lowers_bass_counterexample :
  in_field flat_spectrum 0 5 0 /\
  20 <= nth 5 (Torch.linspace 0 (44100 / 2) n_freq_bins) 0 <= 250 /\
  threshold
  < bass_magnitude_db 1
      (Cabs (at3 Czero (subcomp_stft_eq zero_gains 44100 flat_spectrum) 0 5 0)) /\
  Cabs (at3 Czero (hann_stft_eq zero_gains 44100 flat_spectrum) 0 5 0) = 1 /\
  1 < at3 0 (magnitude_compressed_field
               44100 (subcomp_stft_eq zero_gains 44100 flat_spectrum)) 0 5 0 /\
  ~ (at3 0 (magnitude_compressed_field
              44100 (subcomp_stft_eq zero_gains 44100 flat_spectrum)) 0 5 0
     < Cabs (at3 Czero (hann_stft_eq zero_gains 44100 flat_spectrum) 0 5 0)).
Proof.
  assert (Hin : in_field flat_spectrum 0 5 0) by (apply in_flat_spectrum; lia).
  assert (Hk : (5 < n_freq_bins)%nat) by (rewrite n_freq_bins_val; lia).
  assert (Hone : at3 Czero flat_spectrum 0 5 0 = Cone)
    by (apply at3_flat_spectrum; lia).
  destruct (subcomp_stft_eq_zero_gains 44100 flat_spectrum 0 5 0 Hin Hk)
    as [Hsub Hin'].
  assert (Hhann : Cabs (at3 Czero (hann_stft_eq zero_gains 44100 flat_spectrum)
                            0 5 0) = 1).
  { rewrite hann_stft_eq_zero_gains, Hone by assumption. apply Cabs_Cone. }
  assert (Hf : 20 <= nth 5 (Torch.linspace 0 (44100 / 2) n_freq_bins) 0 <= 250).
  { rewrite bin_5_frequency. lra. }
  assert (Hcomp : 1 < at3 0 (magnitude_compressed_field 44100
                     (subcomp_stft_eq zero_gains 44100 flat_spectrum)) 0 5 0).
  { rewrite at3_magnitude_compressed_field by assumption.
    rewrite (bass_mask_at_inside 44100 _ Hf), Hsub, Hone, Cabs_Cone.
    unfold magnitude_compressed.
    pose proof (gain_reduction_linear_range 1 1) as [Hlo _]. lra. }
  split; [exact Hin|]. split; [exact Hf|]. split.
  { rewrite Hsub, Hone, Cabs_Cone. apply unit_magnitude_above_threshold. }
  split; [exact Hhann|]. split; [exact Hcomp|].
  rewrite Hhann. lra.
Qed.
